(** * last-30-days: query building, normalisation, de-duplication,
      recency filtering, job polling and parallel transcript fetching

    Shallow embedding of
      - scripts/lib/dataforseo_search.py  (module [DataForSEO])
      - scripts/lib/youtube_yt.py         (module [YouTube])
      - scripts/lib/supadata.py           (module [Supadata])
    followed by the properties proved about them.

    Conventions of the embedding
      - A Python [str] is a [string]; its characters are read as the code
        points 0..255, and the string methods below ([lower], [strip],
        [split], ...) follow CPython on that range.
      - A dictionary field read with [d.get(k, default)] is an [option]:
        [None] when the key is absent.  Fields the code treats as text hold
        text.
      - Code that can raise lives in the monad [py]; [try ... except
        Exception] is [try_except].
      - Network calls and library calls ([urlparse], the transcript
        fetch run by a worker) are oracles passed as arguments.
      - Writes to stderr change no returned value and are left out; so is
        the worker cap of the thread pools, which only bounds how many
        fetches run at once. *)

From Stdlib Require Import ZArith QArith Lia Ascii String.
From Stdlib Require Import DecimalString DecimalNat Sorted.
From stdpp Require Import base option list sets gmap strings.

Local Open Scope stdpp_scope.

(** ** Python string methods *)
Module PyStr.

Definition chars (s : string) : list ascii := list_ascii_of_string s.
Definition str (l : list ascii) : string := string_of_list_ascii l.

Definition code (c : ascii) : N := N_of_ascii c.

(** [c.isspace()] for a code point below 256. *)
Definition is_space (c : ascii) : bool :=
  let n := code c in
  ((9 <=? n) && (n <=? 13) || (28 <=? n) && (n <=? 32)
   || (n =? 133) || (n =? 160))%N.

(** [c.lower()] for a code point below 256: A-Z and the Latin-1 capitals
    U+00C0..U+00DE (except the multiplication sign U+00D7) move up by 32. *)
Definition lower_char (c : ascii) : ascii :=
  let n := code c in
  if ((65 <=? n) && (n <=? 90)
      || (192 <=? n) && (n <=? 222) && negb (n =? 215))%N
  then ascii_of_N (n + 32) else c.

Definition lower (s : string) : string := str (map lower_char (chars s)).

(** [s.lstrip(...)], [s.rstrip(...)], [s.strip(...)] for a set of
    characters given by its membership test. *)
Fixpoint drop_while (p : ascii → bool) (l : list ascii) : list ascii :=
  match l with
  | [] => []
  | c :: l' => if p c then drop_while p l' else l
  end.

Definition lstrip_by (p : ascii → bool) (s : string) : string :=
  str (drop_while p (chars s)).
Definition rstrip_by (p : ascii → bool) (s : string) : string :=
  str (reverse (drop_while p (reverse (chars s)))).

(** [s.strip()] *)
Definition strip (s : string) : string :=
  rstrip_by is_space (lstrip_by is_space s).

Definition mem_char (set : string) (c : ascii) : bool :=
  bool_decide (c ∈ chars set).

(** [s.rstrip(set)] *)
Definition rstrip (set : string) (s : string) : string :=
  rstrip_by (mem_char set) s.

(** [s.startswith(p)] *)
Definition startswith (s p : string) : bool := String.prefix p s.

(** [s[n:]] and [s[:n]] for a non-negative [n]. *)
Definition slice_from (n : nat) (s : string) : string :=
  str (drop n (chars s)).
Definition slice_to (n : nat) (s : string) : string :=
  str (take n (chars s)).

Definition len (s : string) : nat := String.length s.

(** [s.split()]: maximal runs of non-whitespace characters.  [cur] is the
    word being read, in reverse. *)
Fixpoint split_go (cur : list ascii) (l : list ascii) : list string :=
  match l with
  | [] => match cur with [] => [] | _ => [str (reverse cur)] end
  | c :: l' =>
      if is_space c
      then match cur with
           | [] => split_go [] l'
           | _ => str (reverse cur) :: split_go [] l'
           end
      else split_go (c :: cur) l'
  end.
Definition split (s : string) : list string := split_go [] (chars s).

(** [s.split(sep)] for a one-character separator: always at least one
    field. *)
Fixpoint split_on_go (sep : ascii) (cur : list ascii) (l : list ascii)
  : list string :=
  match l with
  | [] => [str (reverse cur)]
  | c :: l' =>
      if bool_decide (c = sep)
      then str (reverse cur) :: split_on_go sep [] l'
      else split_on_go sep (c :: cur) l'
  end.
Definition split_on (sep : ascii) (s : string) : list string :=
  split_on_go sep [] (chars s).

(** [sep.join(l)] *)
Fixpoint join (sep : string) (l : list string) : string :=
  match l with
  | [] => ""
  | [w] => w
  | w :: l' => w +:+ sep +:+ join sep l'
  end.

(** [s.replace(a, b)] for one-character [a] and [b]. *)
Definition replace_char (a b : ascii) (s : string) : string :=
  str (map (λ c, if bool_decide (c = a) then b else c) (chars s)).

(** [t in s] *)
Fixpoint contains_go (t : string) (fuel : nat) (s : string) : bool :=
  String.prefix t s
  || match fuel, s with
     | S fuel', String _ s' => contains_go t fuel' s'
     | _, _ => false
     end.
Definition contains (t s : string) : bool :=
  contains_go t (String.length s) s.

(** [a <= b]: code-point-wise lexicographic order. *)
Definition le (a b : string) : bool := String.leb a b.

(** Truth value of a string: non-empty. *)
Definition truthy (s : string) : bool := negb (String.eqb s "").

(** [str(n)] for a natural number. *)
Definition of_nat (n : nat) : string :=
  NilEmpty.string_of_uint (Nat.to_uint n).

(** [re.sub(r'\s+', ' ', s)]: every maximal run of whitespace becomes one
    space.  [in_run] tells that the character before was whitespace. *)
Fixpoint collapse_go (in_run : bool) (l : list ascii) : list ascii :=
  match l with
  | [] => []
  | c :: l' =>
      if is_space c
      then (if in_run then collapse_go true l'
            else " "%char :: collapse_go true l')
      else c :: collapse_go false l'
  end.
Definition collapse_spaces (s : string) : string :=
  str (collapse_go false (chars s)).

End PyStr.

(** ** Raising computations *)
Module Py.

(** A computation either returns or raises an [Exception]. *)
Inductive py (A : Type) : Type :=
| Ret (a : A)
| Raise.
Global Arguments Ret {A} a.
Global Arguments Raise {A}.

Definition bind {A B} (m : py A) (k : A → py B) : py B :=
  match m with
  | Ret a => k a
  | Raise => Raise
  end.

(** [try: m  except Exception: h] *)
Definition try_except {A} (m : py A) (h : py A) : py A :=
  match m with
  | Ret a => Ret a
  | Raise => h
  end.

Definition raises {A} (m : py A) : bool :=
  match m with Ret _ => false | Raise => true end.

Global Instance py_ret : MRet py := @Ret.
Global Instance py_bind : MBind py := λ A B k m, bind m k.

End Py.
Export Py.

(** [d.get(k, "")] and [d.get(k) or ""] on an optional text field. *)
Definition or_empty (o : option string) : string := default "" o.

(** ** The collection loop over [concurrent.futures] *)
Module Futures.

(** A submitted future with the key it was submitted for and the outcome
    its worker ends with.  [as_completed] hands the futures back in the
    order in which they finish: some rearrangement of the submitted
    ones. *)
Definition future : Type := string * py (option string).

(** Body of [for future in as_completed(futures)]:
    [try: results[k] = future.result()  except Exception: results[k] = None] *)
Definition collect_one (results : gmap string (option string))
    (f : future) : py (gmap string (option string)) :=
  r ← try_except (f.2) (Ret None);
  Ret (<[f.1 := r]> results).

Fixpoint collect (results : gmap string (option string))
    (completed : list future) : py (gmap string (option string)) :=
  match completed with
  | [] => Ret results
  | f :: rest => results' ← collect_one results f; collect results' rest
  end.

End Futures.

(** ** scripts/lib/youtube_yt.py *)
Module YouTube.
Import PyStr Futures.

(** [_extract_core_subject]: the prefixes, in the order they are tried. *)
Definition prefixes : list string :=
  [ "what are the best"; "what is the best"; "what are the latest";
    "what are people saying about"; "what do people think about";
    "how do i use"; "how to use"; "how to";
    "what are"; "what is"; "tips for"; "best practices for" ].

Definition noise_words : list string :=
  [ "best"; "top"; "good"; "great"; "awesome"; "killer";
    "latest"; "new"; "news"; "update"; "updates";
    "trending"; "hottest"; "popular"; "viral";
    "practices"; "features";
    "recommendations"; "advice";
    "prompt"; "prompts"; "prompting";
    "methods"; "strategies"; "approaches" ].

Definition noise : gset string := list_to_set noise_words.

(** One turn of [for p in prefixes]. *)
Definition strip_prefix (text p : string) : string :=
  if startswith text (p +:+ " ")
  then strip (slice_from (len p) text)
  else text.

Definition strip_prefixes (text : string) : string :=
  foldl strip_prefix text prefixes.

(** [text] after lower-casing, trimming and the prefix loop. *)
Definition cleaned_text (topic : string) : string :=
  strip_prefixes (strip (lower topic)).

Definition is_noise (w : string) : bool := bool_decide (w ∈ noise).

(** [filtered = [w for w in words if w not in noise]] *)
Definition filtered_words (text : string) : list string :=
  filter (λ w, is_noise w = false) (split text).

Definition _extract_core_subject (topic : string) : string :=
  let text := cleaned_text topic in
  let filtered := filtered_words text in
  let result :=
    match filtered with
    | [] => text
    | _ => join " " filtered
    end in
  rstrip "?!." result.

(** A search snippet and the statistics of a video, as read by
    [search_youtube] when it builds its items. *)
Record Snippet := {
  publishedAt : option string;
  snippet_title : option string;
  channelTitle : option string;
}.

Record Stats := { st_views : Z; st_likes : Z; st_comments : Z }.

Record Engagement := { views : Z; likes : Z; comments : Z }.

Record VideoItem := {
  video_id : string;
  title : string;
  url : string;
  channel_name : string;
  date : option string;
  engagement : Engagement;
  duration : option string;
  relevance : Q;
  why_relevant : string;
}.

(** [published[:10] if len(published) >= 10 else None] *)
Definition date_of_published (published : string) : option string :=
  if bool_decide (10 ≤ len published) then Some (slice_to 10 published)
  else None.

Definition empty_snippet : Snippet :=
  {| publishedAt := None; snippet_title := None; channelTitle := None |}.
Definition zero_stats : Stats :=
  {| st_views := 0; st_likes := 0; st_comments := 0 |}.

(** Body of the loop [for vid in all_video_ids]. *)
Definition make_item (core_topic : string)
    (all_snippets : gmap string Snippet) (stats : gmap string Stats)
    (vid : string) : VideoItem :=
  let snippet := default empty_snippet (all_snippets !! vid) in
  let st := default zero_stats (stats !! vid) in
  let published := or_empty (publishedAt snippet) in
  {| video_id := vid;
     title := or_empty (snippet_title snippet);
     url := "https://www.youtube.com/watch?v=" +:+ vid;
     channel_name := or_empty (channelTitle snippet);
     date := date_of_published published;
     engagement := {| views := st_views st; likes := st_likes st;
                      comments := st_comments st |};
     duration := None;
     relevance := (7 # 10)%Q;
     why_relevant := "YouTube video about " +:+ core_topic |}.

(** [i["date"] and i["date"] >= from_date] *)
Definition is_recent (from_date : string) (i : VideoItem) : bool :=
  match date i with
  | None => false
  | Some d => truthy d && le from_date d
  end.

(** The soft date filter of [search_youtube]:
    [recent = [i for i in items if ...]], kept when it has three
    members or more. *)
Definition recency_filter (items : list VideoItem) (from_date : string)
  : list VideoItem :=
  let recent := filter (λ i, is_recent from_date i = true) items in
  if bool_decide (3 ≤ length recent) then recent else items.

(** [items.sort(key=views, reverse=True)]: a stable sort, larger view
    counts first, items with equal counts in their original order. *)
Fixpoint insert_by_views (x : VideoItem) (l : list VideoItem)
  : list VideoItem :=
  match l with
  | [] => [x]
  | y :: l' =>
      if (views (engagement y) <=? views (engagement x))%Z
      then x :: l
      else y :: insert_by_views x l'
  end.

Definition sort_by_views (l : list VideoItem) : list VideoItem :=
  foldr insert_by_views [] l.

(** The part of [search_youtube] that follows the two API phases. *)
Definition finish_search (core_topic from_date : string)
    (all_video_ids : list string)
    (all_snippets : gmap string Snippet) (stats : gmap string Stats)
  : list VideoItem :=
  let items := make_item core_topic all_snippets stats <$> all_video_ids in
  sort_by_views (recency_filter items from_date).

(** [fetch_transcripts_parallel].  [fetch vid] is the outcome of the
    worker running [fetch_transcript(vid)]: a transcript, [None], or an
    exception stored in the future.  An id listed twice gets two futures
    with this one outcome; [fetch_transcripts_parallel_submitted] below
    gives each submitted future an outcome of its own. *)
Definition fetch_transcripts_parallel
    (fetch : string → py (option string))
    (as_completed : list future → list future)
    (video_ids : list string) : py (gmap string (option string)) :=
  match video_ids with
  | [] => Ret ∅
  | _ =>
      let futures := (λ vid, (vid, fetch vid)) <$> video_ids in
      collect ∅ (as_completed futures)
  end.

(** [fetch_transcripts_parallel] with the outcome of each submitted
    future on its own: [run i vid] is what the worker submitted for the
    [i]-th id of the list ends with, so that an id listed twice is fetched
    twice, with outcomes that may differ. *)
Definition fetch_transcripts_parallel_submitted
    (run : nat → string → py (option string))
    (as_completed : list future → list future)
    (video_ids : list string) : py (gmap string (option string)) :=
  match video_ids with
  | [] => Ret ∅
  | _ =>
      let futures := imap (λ i vid, (vid, run i vid)) video_ids in
      collect ∅ (as_completed futures)
  end.

(** [DEPTH_CONFIG.get(depth, DEPTH_CONFIG["default"])] *)
Definition depth_limit (depth : string) : nat :=
  if bool_decide (depth = "quick") then 10
  else if bool_decide (depth = "default") then 20
  else if bool_decide (depth = "deep") then 40
  else 20.

(** [TRANSCRIPT_LIMITS.get(depth, TRANSCRIPT_LIMITS["default"])] *)
Definition transcript_limit (depth : string) : nat :=
  if bool_decide (depth = "quick") then 3
  else if bool_decide (depth = "default") then 5
  else if bool_decide (depth = "deep") then 8
  else 5.

(** One item of a search page: [item.get("id", {}).get("videoId")] and
    [item.get("snippet", {})], an absent snippet reading as the empty
    one. *)
Record SearchHit := {
  hit_videoId : option string;
  hit_snippet : Snippet;
}.

Record SearchPage := {
  page_items : list SearchHit;
  nextPageToken : option string;
}.

(** One request of the search phase: [maxResults] and the page token
    sent with it, if any. *)
Record SearchRequest := {
  req_maxResults : nat;
  req_pageToken : option string;
}.

(** State of the search phase: the ids and snippets gathered and the
    requests made so far. *)
Record SearchState := {
  all_video_ids : list string;
  all_snippets : gmap string Snippet;
  requests : list SearchRequest;
}.

(** [for item in data.get("items", [])] *)
Definition add_hit (st : SearchState) (hit : SearchHit) : SearchState :=
  let vid := or_empty (hit_videoId hit) in
  if truthy vid
  then {| all_video_ids := all_video_ids st ++ [vid];
          all_snippets := <[vid := hit_snippet hit]> (all_snippets st);
          requests := requests st |}
  else st.

(** A page token counts when it is present and not empty. *)
Definition token_given (page_token : option string) : option string :=
  if truthy (or_empty page_token) then page_token else None.

(** The [while remaining > 0] loop.  [search] is the search.list call for
    a request; the result is [Raise] when a call raised, and [None] when
    [fuel] turns were not enough. *)
Fixpoint search_loop (search : SearchRequest → py SearchPage)
    (fuel : nat) (remaining : nat) (page_token : option string)
    (st : SearchState) : option (py SearchState) :=
  match fuel with
  | O => None
  | S fuel' =>
      if bool_decide (0 < remaining) then
        let max_results := remaining `min` 50 in
        let req := {| req_maxResults := max_results;
                      req_pageToken := token_given page_token |} in
        match search req with
        | Raise => Some Raise
        | Ret data =>
            let st := foldl add_hit
                        {| all_video_ids := all_video_ids st;
                           all_snippets := all_snippets st;
                           requests := requests st ++ [req] |}
                        (page_items data) in
            let page_token := nextPageToken data in
            let remaining := remaining - max_results in
            if truthy (or_empty page_token)
            then search_loop search fuel' remaining page_token st
            else Some (Ret st)
        end
      else Some (Ret st)
  end.

(** The search phase for [count] results; the fuel covers every run. *)
Definition search_phase (search : SearchRequest → py SearchPage)
    (count : nat) : option (py SearchState) :=
  search_loop search (S count) count None
    {| all_video_ids := []; all_snippets := ∅; requests := [] |}.

(** One item of a videos.list reply: [v["id"]] and the three counts of
    [v.get("statistics", {})], an absent count reading as 0. *)
Record VideoStat := {
  stat_id : string;
  viewCount : option Z;
  likeCount : option Z;
  commentCount : option Z;
}.

Definition stats_of (v : VideoStat) : Stats :=
  {| st_views := default 0%Z (viewCount v);
     st_likes := default 0%Z (likeCount v);
     st_comments := default 0%Z (commentCount v) |}.

(** [for v in vdata.get("items", [])] inside the [try]: an item that
    cannot be read (no id, a count that is no number) raises and ends the
    batch, the items before it staying recorded. *)
Fixpoint record_stats (stats : gmap string Stats)
    (entries : list (py VideoStat)) : gmap string Stats :=
  match entries with
  | [] => stats
  | Raise :: _ => stats
  | Ret v :: rest => record_stats (<[stat_id v := stats_of v]> stats) rest
  end.

(** [all_video_ids[i:i+50]] for [i] in [range(0, len(all_video_ids), 50)]. *)
Fixpoint batches_go (fuel : nat) (ids : list string) : list (list string) :=
  match fuel, ids with
  | _, [] => []
  | O, _ => []
  | S fuel', _ => take 50 ids :: batches_go fuel' (drop 50 ids)
  end.
Definition batches (ids : list string) : list (list string) :=
  batches_go (length ids) ids.

(** The statistics phase; [videos] is the videos.list call for a batch. *)
Definition stats_phase (videos : list string → py (list (py VideoStat)))
    (ids : list string) : gmap string Stats :=
  foldl (λ stats batch,
           match videos batch with
           | Ret entries => record_stats stats entries
           | Raise => stats
           end) ∅ (batches ids).

Inductive SearchError :=
| KeyNotSet
| ApiError.

(** The dictionary [search_youtube] returns. *)
Record SearchResult := {
  result_items : list VideoItem;
  result_error : option SearchError;
}.

(** [search_youtube(topic, from_date, to_date, depth, api_key)];
    [search q published_after key] and [videos key] are the two
    endpoints. *)
Definition search_youtube
    (search : string → string → string → SearchRequest → py SearchPage)
    (videos : string → list string → py (list (py VideoStat)))
    (topic from_date to_date depth api_key : string)
  : option SearchResult :=
  if negb (truthy api_key)
  then Some {| result_items := []; result_error := Some KeyNotSet |}
  else
    let count := depth_limit depth in
    let core_topic := _extract_core_subject topic in
    match search_phase
            (search core_topic (from_date +:+ "T00:00:00Z") api_key)
            count with
    | None => None
    | Some Raise =>
        Some {| result_items := []; result_error := Some ApiError |}
    | Some (Ret st) =>
        match all_video_ids st with
        | [] => Some {| result_items := []; result_error := None |}
        | _ =>
            let stats := stats_phase (videos api_key) (all_video_ids st) in
            Some {| result_items :=
                      finish_search core_topic from_date (all_video_ids st)
                        (all_snippets st) stats;
                    result_error := None |}
        end
    end.

(** The texts of the caption entries, [entry['text']] raising on an
    entry without one. *)
Fixpoint entry_texts (entries : list (py string)) : py (list string) :=
  match entries with
  | [] => Ret []
  | e :: rest =>
      t ← e; ts ← entry_texts rest; Ret (t :: ts)
  end.

(** [TRANSCRIPT_MAX_WORDS] *)
Definition TRANSCRIPT_MAX_WORDS : nat := 500.

(** The clean-up of [fetch_transcript]: whitespace collapsed, trimmed,
    cut to [TRANSCRIPT_MAX_WORDS] words; an empty text gives [None]. *)
Definition clean_transcript (text : string) : option string :=
  let text := strip (collapse_spaces text) in
  let words := split text in
  let text :=
    if bool_decide (TRANSCRIPT_MAX_WORDS < length words)
    then join " " (take TRANSCRIPT_MAX_WORDS words) +:+ "..."
    else text in
  if truthy text then Some text else None.

(** [fetch_transcript(video_id)]; [installed] tells whether the caption
    library can be imported, [get_transcript video_id english] is its
    call, for English when [english] and for any language otherwise. *)
Definition fetch_transcript (installed : bool)
    (get_transcript : string → bool → py (list (py string)))
    (video_id : string) : py (option string) :=
  if negb installed then Ret None
  else
    match try_except (get_transcript video_id true)
            (get_transcript video_id false) with
    | Raise => Ret None
    | Ret transcript_list =>
        texts ← entry_texts transcript_list;
        Ret (clean_transcript (join " " texts))
    end.

(** The dictionary [search_and_transcribe] returns: the items, each with
    its [transcript_snippet] when the transcripts were attached. *)
Record TranscribedResult := {
  transcribed_items : list (VideoItem * string);
  transcribed_error : option SearchError;
}.

(** [search_and_transcribe], from the result of [search_youtube] on. *)
Definition attach_transcripts
    (fetch : string → py (option string))
    (as_completed : list future → list future)
    (depth : string) (search_result : SearchResult)
  : py TranscribedResult :=
  let items := result_items search_result in
  match items with
  | [] => Ret {| transcribed_items := [];
                 transcribed_error := result_error search_result |}
  | _ =>
      let top_ids := video_id <$> take (transcript_limit depth) items in
      transcripts ← fetch_transcripts_parallel fetch as_completed top_ids;
      Ret {| transcribed_items :=
               (λ item,
                  (item,
                   or_empty (default None (transcripts !! video_id item))))
               <$> items;
             transcribed_error := None |}
  end.

(** [search_and_transcribe(topic, from_date, to_date, depth, api_key)] *)
Definition search_and_transcribe
    (search : string → string → string → SearchRequest → py SearchPage)
    (videos : string → list string → py (list (py VideoStat)))
    (fetch : string → py (option string))
    (as_completed : list future → list future)
    (topic from_date to_date depth api_key : string)
  : option (py TranscribedResult) :=
  attach_transcripts fetch as_completed depth
    <$> search_youtube search videos topic from_date to_date depth api_key.

(** [parse_youtube_response(response)] on such a dictionary. *)
Definition parse_youtube_response (response : TranscribedResult)
  : list (VideoItem * string) :=
  transcribed_items response.

End YouTube.

(** ** scripts/lib/supadata.py *)
Module Supadata.
Import PyStr Futures.

(** What one status request of [_poll_job] ends with: an exception
    (transport or decoding), or the decoded body with its [status] and
    [content] fields. *)
Inductive poll_reply :=
| PollRaises
| PollData (status : option string) (content : option string).

(** Result of a run of the poller, with the number of status requests it
    made. *)
Record PollRun := {
  result : py (option string);
  polls : nat;
}.

(** The [while elapsed < max_wait] loop.  [reply n] answers the [n]-th
    status request; [time.sleep] raises on a negative interval.  [None]
    when [fuel] turns of the loop were not enough. *)
Fixpoint poll_loop (reply : nat → poll_reply) (max_wait interval : Z)
    (fuel : nat) (elapsed : Z) (n : nat) : option PollRun :=
  match fuel with
  | O => None
  | S fuel' =>
      if (elapsed <? max_wait)%Z then
        if (interval <? 0)%Z then
          Some {| result := Raise; polls := n |}
        else
          let elapsed := (elapsed + interval)%Z in
          match reply n with
          | PollRaises => Some {| result := Ret None; polls := S n |}
          | PollData status content =>
              if bool_decide (status = Some "completed") then
                let content := or_empty content in
                Some {| result := Ret (if truthy content then Some content
                                       else None);
                        polls := S n |}
              else if bool_decide (status = Some "failed") then
                Some {| result := Ret None; polls := S n |}
              else poll_loop reply max_wait interval fuel' elapsed (S n)
          end
      else Some {| result := Ret None; polls := n |}
  end.

(** [_poll_job(job_id, api_key, max_wait, interval)]; [status_request]
    is the status endpoint.  The fuel covers every run with a positive
    interval. *)
Definition _poll_job (status_request : string → string → nat → poll_reply)
    (job_id api_key : string) (max_wait interval : Z) : option PollRun :=
  poll_loop (status_request job_id api_key) max_wait interval
    (S (Z.to_nat max_wait)) 0 0.

(** [fetch_transcripts_batch(urls, api_key)]; [fetch url api_key] is the
    outcome of the worker running [fetch_transcript(url, api_key)]. *)
Definition fetch_transcripts_batch
    (fetch : string → string → py (option string))
    (as_completed : list future → list future)
    (urls : list string) (api_key : string)
  : py (gmap string (option string)) :=
  if bool_decide (urls = []) || negb (truthy api_key) then Ret ∅
  else
    let futures := (λ url, (url, fetch url api_key)) <$> urls in
    collect ∅ (as_completed futures).

(** [TRANSCRIPT_MAX_WORDS] *)
Definition TRANSCRIPT_MAX_WORDS : nat := 500.

(** [_truncate(text, max_words)] for a non-negative [max_words]. *)
Definition _truncate (text : string) (max_words : nat) : string :=
  let words := split text in
  if bool_decide (max_words < length words)
  then join " " (take max_words words) +:+ "..."
  else text.

(** The decoded body of a reply of the transcribe endpoint, with the two
    fields [fetch_transcript] reads. *)
Record Body := {
  body_content : option string;
  body_jobId : option string;
}.

(** What the request of [fetch_transcript] ends with: a reply with its
    status, whose body may fail to decode; an [HTTPError] with its code,
    whose body may fail to decode; a [URLError] or [OSError]; any other
    exception. *)
Inductive transcribe_reply :=
| Responded (status : Z) (data : py Body)
| HttpFailed (code : Z) (data : py Body)
| NetworkFailed
| OtherFailed.

(** [if content: return _truncate(content.strip())] and [return None]
    otherwise. *)
Definition transcript_of (content : string) : option string :=
  if truthy content
  then Some (_truncate (strip content) TRANSCRIPT_MAX_WORDS)
  else None.

(** [_poll_job(job_id, api_key)] with its default budget and interval;
    a run that outlasted the fuel of the model would count as raising
    (there is none, see [poll_content_ret]). *)
Definition poll_content
    (status_request : string → string → nat → poll_reply)
    (job_id api_key : string) : py (option string) :=
  match _poll_job status_request job_id api_key 60 3 with
  | Some run => result run
  | None => Raise
  end.

(** The asynchronous path: the job id of the body, then the poller. *)
Definition transcript_of_job
    (status_request : string → string → nat → poll_reply)
    (api_key : string) (data : Body) : py (option string) :=
  let job_id := or_empty (body_jobId data) in
  if negb (truthy job_id) then Ret None
  else
    content ← poll_content status_request job_id api_key;
    Ret (match content with
         | Some c => transcript_of c
         | None => None
         end).

(** [fetch_transcript(video_url, api_key)]; [transcribe] is the request
    to the transcribe endpoint. *)
Definition fetch_transcript
    (transcribe : string → string → transcribe_reply)
    (status_request : string → string → nat → poll_reply)
    (video_url api_key : string) : py (option string) :=
  if negb (truthy api_key) then Ret None
  else
    match transcribe video_url api_key with
    | Responded status data =>
        try_except
          (data ← data;
           if bool_decide (status = 200%Z) then
             Ret (transcript_of (or_empty (body_content data)))
           else if bool_decide (status = 202%Z) then
             transcript_of_job status_request api_key data
           else Ret None)
          (Ret None)
    | HttpFailed code data =>
        if bool_decide (code = 202%Z) then
          try_except
            (data ← data;
             transcript_of_job status_request api_key data)
            (Ret None)
        else Ret None
    | NetworkFailed => Ret None
    | OtherFailed => Ret None
    end.

End Supadata.

(** ** scripts/lib/dataforseo_search.py *)
Module DataForSEO.
Import PyStr.

Definition EXCLUDED_DOMAINS : gset string :=
  list_to_set
    [ "reddit.com"; "www.reddit.com"; "old.reddit.com";
      "twitter.com"; "www.twitter.com"; "x.com"; "www.x.com" ].

(** [_build_structured_queries] *)
Definition templates (topic : string) : list string :=
  [ "What are the biggest " +:+ topic +:+ " trends and what's driving them?";
    "Who are the top influencers and brands in " +:+ topic +:+ " right now?";
    "What do experts recommend for " +:+ topic +:+ " in 2026?" ].

(** [{"quick": 1, "default": 2, "deep": 3}.get(depth, 2)] *)
Definition depth_count (depth : string) : nat :=
  if bool_decide (depth = "quick") then 1
  else if bool_decide (depth = "default") then 2
  else if bool_decide (depth = "deep") then 3
  else 2.

Definition _build_structured_queries (topic depth : string) : list string :=
  take (depth_count depth) (templates topic).

(** The decoded response, field by field as [_normalize_results] reads
    it.  A list field that is absent reads as the empty list. *)
Record Ref := {
  ref_url : option string;
  ref_title : option string;
  ref_text : option string;
  ref_snippet : option string;
  ref_domain : option string;
}.

Record Entry := {
  entry_type : option string;
  entry_markdown : option string;
  entry_text : option string;
  references : list Ref;
}.

Record Result := { items : list Entry }.

Record Task := {
  status_code : option Z;
  status_message : option string;
  result : list Result;
}.

Record Response := { tasks : list Task }.

Record WebItem := {
  id : string;
  title : string;
  url : string;
  source_domain : string;
  snippet : string;
  date : option string;
  date_confidence : string;
  relevance : Q;
  why_relevant : string;
}.

(** [_extract_mention] *)
Definition search_terms (title domain : string) : list string :=
  domain ::
  (if truthy title then
     let words := take 4 (split title) in
     if bool_decide (2 ≤ length words) then [join " " words] else []
   else []).

(** The inner [for sentence in sentences] for one term: the first
    sentence that contains the term and is not blank. *)
Fixpoint first_mention (term_lower : string) (sentences : list string)
  : option string :=
  match sentences with
  | [] => None
  | sentence :: rest =>
      if contains term_lower (lower sentence)
         && truthy (strip sentence)
      then Some (slice_to 150 (strip sentence))
      else first_mention term_lower rest
  end.

Fixpoint first_term_mention (terms sentences : list string) : string :=
  match terms with
  | [] => ""
  | term :: rest =>
      match first_mention (lower term) sentences with
      | Some clean => clean
      | None => first_term_mention rest sentences
      end
  end.

Definition _extract_mention (ai_overview title domain : string) : string :=
  if negb (truthy ai_overview) then ""
  else
    let sentences :=
      split_on "." (replace_char "010" " " ai_overview) in
    first_term_mention (search_terms title domain) sentences.

Section Normalize.
(** [urlparse(url).netloc], which raises on a URL it rejects. *)
Context (urlparse_netloc : string → py string).

(** The [try] block that resolves the domain of a reference: [None]
    for [continue], otherwise the domain. *)
Definition resolve_domain (ref : Ref) (url : string) : option string :=
  match urlparse_netloc url with
  | Ret netloc =>
      let domain := lower netloc in
      if bool_decide (domain ∈ EXCLUDED_DOMAINS) then None
      else if startswith domain "www." then Some (slice_from 4 domain)
      else Some domain
  | Raise => Some (or_empty (ref_domain ref))
  end.

(** Body of [for i, ref in enumerate(references)]: [None] when the
    reference is skipped. *)
Definition normalize_ref (ai_overview : string) (i : nat) (ref : Ref)
  : option WebItem :=
  let url := or_empty (ref_url ref) in
  if negb (truthy url) then None
  else
    match resolve_domain ref url with
    | None => None
    | Some domain =>
        let title := strip (or_empty (ref_title ref)) in
        let snippet :=
          strip (match ref_text ref with
                 | Some t => t
                 | None => or_empty (ref_snippet ref)
                 end) in
        if negb (truthy title) && negb (truthy snippet) then None
        else
          Some {| id := "D" +:+ of_nat (i + 1);
                  title := slice_to 200 title;
                  url := url;
                  source_domain := domain;
                  snippet := slice_to 500 snippet;
                  date := None;
                  date_confidence := "low";
                  relevance := (3 # 4)%Q;
                  why_relevant := _extract_mention ai_overview title domain |}
    end.

(** The references of one entry, from index [i] on. *)
Fixpoint normalize_refs (ai_overview : string) (i : nat)
    (refs : list Ref) : list WebItem :=
  match refs with
  | [] => []
  | ref :: rest =>
      match normalize_ref ai_overview i ref with
      | Some item => item :: normalize_refs ai_overview (S i) rest
      | None => normalize_refs ai_overview (S i) rest
      end
  end.

(** Body of [for entry in result_items], on the pair
    [(items, ai_overview)]. *)
Definition normalize_entry (st : list WebItem * string) (entry : Entry)
  : list WebItem * string :=
  let '(items, ai_overview) := st in
  if bool_decide (or_empty (entry_type entry) = "ai_overview") then
    let overview_text :=
      if truthy (or_empty (entry_markdown entry))
      then or_empty (entry_markdown entry)
      else or_empty (entry_text entry) in
    let ai_overview :=
      if truthy overview_text then overview_text else ai_overview in
    (items ++ normalize_refs ai_overview 0 (references entry), ai_overview)
  else st.

Definition _normalize_results (response : Response)
    (from_date to_date : string) : list WebItem * string :=
  match tasks response with
  | [] => ([], "")
  | task :: _ =>
      if bool_decide (status_code task = Some 20000%Z) then
        match result task with
        | [] => ([], "")
        | res :: _ => foldl normalize_entry ([], "") (items res)
        end
      else ([], "")
  end.

(** [search_web]: the state of the loop over the queries. *)
Record Acc := {
  all_items : list WebItem;
  all_overviews : list string;
  seen_urls : gset string;
}.

Definition url_key (item : WebItem) : string :=
  rstrip "/" (lower (url item)).

(** Body of [for item in items]. *)
Definition dedupe_item (acc : Acc) (item : WebItem) : Acc :=
  if bool_decide (url_key item ∈ seen_urls acc) then acc
  else {| all_items := all_items acc ++ [item];
          all_overviews := all_overviews acc;
          seen_urls := {[ url_key item ]} ∪ seen_urls acc |}.

Definition add_overview (acc : Acc) (overview : string) : Acc :=
  if truthy overview
  then {| all_items := all_items acc;
          all_overviews := all_overviews acc ++ [overview];
          seen_urls := seen_urls acc |}
  else acc.

(** What the loop does with the normalised results of one query. *)
Definition absorb (acc : Acc) (r : list WebItem * string) : Acc :=
  add_overview (foldl dedupe_item acc r.1) r.2.

Context (_call_api : string → string → string → py Response).

(** Body of [for query in queries], with its two [except] clauses. *)
Definition query_step (from_date to_date api_login api_password : string)
    (acc : Acc) (query : string) : py Acc :=
  try_except
    (response ← _call_api query api_login api_password;
     Ret (absorb acc (_normalize_results response from_date to_date)))
    (Ret acc).

Fixpoint run_queries (from_date to_date api_login api_password : string)
    (acc : Acc) (queries : list string) : py Acc :=
  match queries with
  | [] => Ret acc
  | query :: rest =>
      acc' ← query_step from_date to_date api_login api_password acc query;
      run_queries from_date to_date api_login api_password acc' rest
  end.

Definition empty_acc : Acc :=
  {| all_items := []; all_overviews := []; seen_urls := ∅ |}.

Definition overview_separator : string :=
  String "010" (String "010" ("---" +:+ String "010" (String "010" ""))).

Definition search_web
    (topic from_date to_date api_login api_password depth : string)
  : py (list WebItem * string) :=
  let queries := _build_structured_queries topic depth in
  acc ← run_queries from_date to_date api_login api_password
          empty_acc queries;
  let ai_overview :=
    match all_overviews acc with
    | [] => ""
    | _ => join overview_separator (all_overviews acc)
    end in
  Ret (all_items acc, ai_overview).

End Normalize.

(** The cross-query de-duplication on its own: the merged list for the
    normalised item lists of the queries, in the order of issue. *)
Definition merge_queries (per_query : list (list WebItem)) : list WebItem :=
  all_items (foldl (λ acc items, foldl dedupe_item acc items)
                   empty_acc per_query).

(** A reading of [urlparse(url).netloc] for URLs of the shape
    [scheme://netloc] followed by nothing or by [/], [?] or [#]:
    used to run the normaliser on concrete references. *)
Fixpoint after_slashes (l : list ascii) : option (list ascii) :=
  match l with
  | "/"%char :: "/"%char :: rest => Some rest
  | _ :: rest => after_slashes rest
  | [] => None
  end.

Fixpoint take_until (p : ascii → bool) (l : list ascii) : list ascii :=
  match l with
  | [] => []
  | c :: rest => if p c then [] else c :: take_until p rest
  end.

Definition netloc_of_url (u : string) : py string :=
  match after_slashes (chars u) with
  | Some rest => Ret (str (take_until (mem_char "/?#") rest))
  | None => Ret ""
  end.

End DataForSEO.

(** * Vocabulary of the statements *)

Section vocabulary.
Import PyStr.

(** An item whose date is known and not before [from_date]. *)
Definition dated_since (from_date : string) (i : YouTube.VideoItem) : Prop :=
  ∃ d, YouTube.date i = Some d ∧ String.leb from_date d = true.

Global Instance dated_since_dec from_date i :
  Decision (dated_since from_date i).
Proof.
  unfold dated_since. destruct (YouTube.date i) as [d|].
  - destruct (String.leb from_date d) eqn:E.
    + left. eauto.
    + right. intros (d' & [= <-] & H). congruence.
  - right. by intros (d' & [=] & _).
Defined.

(** A date, when present, is a date string and so not the empty text. *)
Definition date_well_formed (i : YouTube.VideoItem) : Prop :=
  YouTube.date i ≠ Some "".

(** A status reply that is neither an exception nor one of the two
    terminal statuses: the job is still being processed. *)
Definition still_processing (r : Supadata.poll_reply) : Prop :=
  match r with
  | Supadata.PollRaises => False
  | Supadata.PollData status _ =>
      status ≠ Some "completed" ∧ status ≠ Some "failed"
  end.

Global Instance still_processing_dec r : Decision (still_processing r).
Proof. destruct r; simpl; apply _. Defined.

(** What the poller returns on a reply that ends the loop: the content
    of a completed job when there is some. *)
Definition terminal_result (r : Supadata.poll_reply) : option string :=
  match r with
  | Supadata.PollRaises => None
  | Supadata.PollData status content =>
      if bool_decide (status = Some "completed")
      then (if truthy (or_empty content) then Some (or_empty content)
            else None)
      else None
  end.

(** Number of entries of a result mapping that hold [None]. *)
Definition null_count (m : gmap string (option string)) : nat :=
  size (filter (λ kv, kv.2 = None) m).

(** The entry a finished future leaves in the result mapping. *)
Definition settle (outcome : py (option string)) : option string :=
  match outcome with
  | Ret v => v
  | Raise => None
  end.

(** The mapping that holds, for each key, what its fetch settled to. *)
Definition settled (fetch : string → py (option string))
    (keys : list string) : gmap string (option string) :=
  list_to_map ((λ k, (k, settle (fetch k))) <$> keys).

(** A result mapping that is complete for [keys]: one entry per key,
    holding what the fetch of that key settled to, so that its null
    entries are those of the fetches that raised or returned null. *)
Definition complete_mapping (keys : list string)
    (fetch : string → py (option string))
    (m : gmap string (option string)) : Prop :=
  size m = length keys
  ∧ dom m = list_to_set keys
  ∧ (∀ k, k ∈ keys → m !! k = Some (settle (fetch k)))
  ∧ null_count m
      = length (filter (λ k, settle (fetch k) = None) keys)
  ∧ length (filter (λ k, raises (fetch k) = true) keys)
      ≤ null_count m
  ∧ ((∀ k, k ∈ keys → fetch k ≠ Ret None) →
       null_count m
         = length (filter (λ k, raises (fetch k) = true) keys)).

(** The items of [l] whose key is neither in [seen] nor the key of an
    earlier item of [l]. *)
Fixpoint first_occurrences (seen : gset string)
    (l : list DataForSEO.WebItem) : list DataForSEO.WebItem :=
  match l with
  | [] => []
  | x :: l' =>
      if decide (DataForSEO.url_key x ∈ seen)
      then first_occurrences seen l'
      else x :: first_occurrences ({[ DataForSEO.url_key x ]} ∪ seen) l'
  end.

(** Two URLs that differ at most in the case of their letters and in
    one trailing slash. *)
Definition same_up_to_case_and_slash (u v : string) : Prop :=
  lower u = lower v
  ∨ v = u +:+ "/" ∨ u = v +:+ "/"
  ∨ lower v = lower u +:+ "/" ∨ lower u = lower v +:+ "/".

(** A run of [n] slashes. *)
Definition slashes (n : nat) : string := str (replicate n "/"%char).

(** Two URLs with the same canonical form: written in lower case they
    are equal up to the slashes at their end. *)
Definition same_canonical_url (u v : string) : Prop :=
  ∃ core m n,
    lower u = core +:+ slashes m ∧ lower v = core +:+ slashes n.

(** The normalised item lists of the queries whose API call returned,
    in the order of issue. *)
Definition answered_items (urlparse_netloc : string → py string)
    (_call_api : string → string → string → py DataForSEO.Response)
    (from_date to_date api_login api_password : string)
    (queries : list string) : list (list DataForSEO.WebItem) :=
  omap (λ query,
          match _call_api query api_login api_password with
          | Ret response =>
              Some (DataForSEO._normalize_results urlparse_netloc
                      response from_date to_date).1
          | Raise => None
          end) queries.

(** A text without whitespace at either end. *)
Definition trimmed (s : string) : Prop :=
  (∀ c, head (chars s) = Some c → is_space c = false)
  ∧ (∀ c, last (chars s) = Some c → is_space c = false).

(** A word made only of the characters that [rstrip('?!.')] removes. *)
Definition all_punct (w : string) : Prop :=
  Forall (λ c, mem_char "?!." c = true) (chars w).

(** An optional text field that is absent or holds only whitespace. *)
Definition blank (o : option string) : Prop := strip (or_empty o) = "".

(** The entries [_normalize_results] walks through:
    [tasks[0].result[0].items]. *)
Definition response_entries (r : DataForSEO.Response)
  : list DataForSEO.Entry :=
  match DataForSEO.tasks r with
  | task :: _ =>
      match DataForSEO.result task with
      | res :: _ => DataForSEO.items res
      | [] => []
      end
  | [] => []
  end.

(** The entries of the response that are AI overviews. *)
Definition overview_entries (l : list DataForSEO.Entry) : list DataForSEO.Entry :=
  filter (λ e, or_empty (DataForSEO.entry_type e) = "ai_overview") l.

(** The video ids a list of search hits contributes: those present and
    not empty, in order. *)
Definition hit_ids (hits : list YouTube.SearchHit) : list string :=
  filter (λ vid, vid ≠ "")
    ((λ hit, or_empty (YouTube.hit_videoId hit)) <$> hits).

(** The overview text of an entry: its markdown when there is some, its
    text otherwise. *)
Definition entry_overview (e : DataForSEO.Entry) : string :=
  if truthy (or_empty (DataForSEO.entry_markdown e))
  then or_empty (DataForSEO.entry_markdown e)
  else or_empty (DataForSEO.entry_text e).

(** The sentences [_extract_mention] searches. *)
Definition sentences_of (ai_overview : string) : list string :=
  split_on "." (replace_char "010" " " ai_overview).

(** The overview texts, empty ones left out, of the queries whose API
    call returned, in the order of issue. *)
Definition answered_overviews (urlparse_netloc : string → py string)
    (_call_api : string → string → string → py DataForSEO.Response)
    (from_date to_date api_login api_password : string)
    (queries : list string) : list string :=
  omap (λ query,
          match _call_api query api_login api_password with
          | Ret response =>
              let overview :=
                (DataForSEO._normalize_results urlparse_netloc
                   response from_date to_date).2 in
              if truthy overview then Some overview else None
          | Raise => None
          end) queries.

(** A domain without one leading "www.". *)
Definition without_www (domain : string) : string :=
  if startswith domain "www." then slice_from 4 domain else domain.

(** A word: not empty and free of whitespace. *)
Definition is_word (w : string) : Prop :=
  w ≠ "" ∧ Forall (λ c, is_space c = false) (chars w).

End vocabulary.

(** * Sample inputs *)
Module Samples.
Import DataForSEO.

(** A reference with a title and the given URL. *)
Definition titled_ref (u : string) : Ref :=
  {| ref_url := Some u; ref_title := Some "Guide"; ref_text := None;
     ref_snippet := None; ref_domain := None |}.

(** A successful response whose only entry is an AI overview with the
    given references. *)
Definition overview_response (refs : list Ref) : Response :=
  {| tasks :=
       [ {| status_code := Some 20000%Z;
            status_message := None;
            result :=
              [ {| items :=
                     [ {| entry_type := Some "ai_overview";
                          entry_markdown := Some "Overview.";
                          entry_text := None;
                          references := refs |} ] |} ] |} ] |}.

(** An API that answers each query with one reference of its own: the
    URL carries the first three characters of the query. *)
Definition one_ref_api (query api_login api_password : string)
  : py Response :=
  Ret (overview_response
         [ titled_ref ("https://site.example/" +:+
                       PyStr.slice_to 3 query) ]).

(** A video item with the given id, date and view count. *)
Definition video (vid : string) (d : option string) (v : Z)
  : YouTube.VideoItem :=
  {| YouTube.video_id := vid;
     YouTube.title := "";
     YouTube.url := "https://www.youtube.com/watch?v=" +:+ vid;
     YouTube.channel_name := "";
     YouTube.date := d;
     YouTube.engagement :=
       {| YouTube.views := v; YouTube.likes := 0; YouTube.comments := 0 |};
     YouTube.duration := None;
     YouTube.relevance := (7 # 10)%Q;
     YouTube.why_relevant := "YouTube video about bikes" |}.

Definition videos : list YouTube.VideoItem :=
  [ video "a" (Some "2025-01-10") 5; video "b" None 9;
    video "c" (Some "2025-01-02") 7; video "d" (Some "2024-12-31") 1;
    video "e" (Some "2025-02-01") 3 ].

(** A job that is still processing at the first two status requests
    and completed with content at the third. *)
Definition completes_at_third (job_id api_key : string) (n : nat)
  : Supadata.poll_reply :=
  if bool_decide (n < 2)
  then Supadata.PollData (Some "active") None
  else Supadata.PollData (Some "completed") (Some "hello world").

(** A job that never leaves processing. *)
Definition always_active (job_id api_key : string) (n : nat)
  : Supadata.poll_reply :=
  Supadata.PollData (Some "active") None.

(** A status endpoint whose second request raises. *)
Definition raises_at_second (job_id api_key : string) (n : nat)
  : Supadata.poll_reply :=
  if bool_decide (n = 1) then Supadata.PollRaises
  else Supadata.PollData (Some "active") None.

(** A fetch that returns a transcript for "a", raises for "b" and
    returns null for any other key. *)
Definition mixed_fetch (key : string) : py (option string) :=
  if bool_decide (key = "a") then Ret (Some "transcript")
  else if bool_decide (key = "b") then Raise
  else Ret None.

Definition web_item (u t : string) : WebItem :=
  {| id := "D1"; title := t; url := u; source_domain := "example.com";
     snippet := ""; date := None; date_confidence := "low";
     relevance := (3 # 4)%Q; why_relevant := "" |}.

Definition no_text_ref : Ref :=
  {| ref_url := Some "https://Example.com/E-Bikes/"; ref_title := None;
     ref_text := None; ref_snippet := None; ref_domain := None |}.

Definition reddit_ref : Ref :=
  {| ref_url := Some "https://www.Reddit.com/r/ebikes";
     ref_title := Some "Best Electric Bikes 2026"; ref_text := None;
     ref_snippet := None; ref_domain := Some "reddit.com" |}.

(** A transcribe endpoint that answers at once, with content. *)
Definition answers_at_once (video_url api_key : string)
  : Supadata.transcribe_reply :=
  Supadata.Responded 200
    (Ret {| Supadata.body_content := Some "  hello   world ";
            Supadata.body_jobId := None |}).

(** A transcribe endpoint that starts the job "job". *)
Definition starts_job (video_url api_key : string)
  : Supadata.transcribe_reply :=
  Supadata.Responded 202
    (Ret {| Supadata.body_content := None;
            Supadata.body_jobId := Some "job" |}).

(** A search hit with the given video id and publication time. *)
Definition hit (vid : option string) (published : string)
  : YouTube.SearchHit :=
  {| YouTube.hit_videoId := vid;
     YouTube.hit_snippet :=
       {| YouTube.publishedAt := Some published;
          YouTube.snippet_title := Some "A video";
          YouTube.channelTitle := None |} |}.

(** A search endpoint that always answers with the same page of three
    usable hits and one without id, and names a next page. *)
Definition paged_search (q published_after key : string)
    (req : YouTube.SearchRequest) : py YouTube.SearchPage :=
  Ret {| YouTube.page_items :=
           [ hit (Some "v1") "2025-01-10T08:00:00Z"; hit None "";
             hit (Some "v2") "2024-11-02T08:00:00Z";
             hit (Some "v3") "2025-01-20T08:00:00Z" ];
         YouTube.nextPageToken := Some "next" |}.

(** A statistics endpoint that always raises, and one that knows the
    views of "v2" and "v3". *)
Definition failing_videos (key : string) (batch : list string)
  : py (list (py YouTube.VideoStat)) := Raise.

Definition some_videos (key : string) (batch : list string)
  : py (list (py YouTube.VideoStat)) :=
  Ret [ Ret {| YouTube.stat_id := "v2"; YouTube.viewCount := Some 7%Z;
               YouTube.likeCount := None; YouTube.commentCount := None |};
        Ret {| YouTube.stat_id := "v3"; YouTube.viewCount := Some 9%Z;
               YouTube.likeCount := Some 1%Z;
               YouTube.commentCount := None |} ].

(** A caption library without English captions for any video. *)
Definition other_language_only (video_id : string) (english : bool)
  : py (list (py string)) :=
  if english then Raise
  else Ret [ Ret "  hello "; Ret ("world" +:+ String "010" " again") ].

(** A response whose task was rejected, although it carries an
    overview. *)
Definition rejected_response : DataForSEO.Response :=
  {| DataForSEO.tasks :=
       [ {| DataForSEO.status_code := Some 40501%Z;
            DataForSEO.status_message := Some "Invalid Field";
            DataForSEO.result :=
              [ {| DataForSEO.items :=
                     [ {| DataForSEO.entry_type := Some "ai_overview";
                          DataForSEO.entry_markdown := Some "Overview.";
                          DataForSEO.entry_text := None;
                          DataForSEO.references :=
                            [titled_ref "https://a.example/"] |} ] |} ]
         |} ] |}.

(** A transcript fetch that succeeds for "v3", returns nothing for "v2"
    and raises for every other video. *)
Definition v3_fetch (video_id : string) : py (option string) :=
  if bool_decide (video_id = "v3") then Ret (Some "spoken words")
  else if bool_decide (video_id = "v2") then Ret None
  else Raise.

(** The item the normaliser makes of [titled_ref u] for a page of
    site.example. *)
Definition site_item (u : string) : WebItem :=
  {| id := "D1"; title := "Guide"; url := u;
     source_domain := "site.example"; snippet := ""; date := None;
     date_confidence := "low"; relevance := (3 # 4)%Q;
     why_relevant := "" |}.

(** An API whose first and third query name the same page, written
    with other capitals and a trailing slash; the second names another. *)
Definition variant_api (query api_login api_password : string)
  : py Response :=
  Ret (overview_response
         [ titled_ref
             (if bool_decide (PyStr.slice_to 6 query = "What a")
              then "https://Site.example/A/"
              else if bool_decide (PyStr.slice_to 6 query = "Who ar")
              then "https://site.example/b"
              else "https://site.example/a") ]).

(** A worker that finds a transcript at its first run and raises at
    every later one. *)
Definition first_run_only (i : nat) (video_id : string)
  : py (option string) :=
  match i with
  | 0 => Ret (Some "transcript")
  | _ => Raise
  end.

End Samples.

(** * Properties *)

(** ** The string layer on sample inputs *)

Example lower_sample :
  PyStr.lower "HTTPS://Example.COM/a-1" = "https://example.com/a-1".
Proof. reflexivity. Qed.

Example strip_sample : PyStr.strip "  a b  " = "a b".
Proof. reflexivity. Qed.

Example split_sample : PyStr.split "  what  is x " = ["what"; "is"; "x"].
Proof. reflexivity. Qed.

Example split_on_sample : PyStr.split_on "." "a.b." = ["a"; "b"; ""].
Proof. reflexivity. Qed.

Example join_sample : PyStr.join " " ["a"; "b"; "c"] = "a b c".
Proof. reflexivity. Qed.

Example rstrip_sample : PyStr.rstrip "?!." "what?!." = "what".
Proof. vm_compute. reflexivity. Qed.

Example contains_sample :
  PyStr.contains "ike" "bikes" = true ∧ PyStr.contains "x" "bikes" = false.
Proof. split; reflexivity. Qed.

Example of_nat_sample : PyStr.of_nat 120 = "120".
Proof. reflexivity. Qed.

Example le_sample : PyStr.le "2025-01-01" "2025-01-15" = true.
Proof. reflexivity. Qed.

(** ** Facts about the string layer *)
Section pystr_facts.
Import PyStr.

Lemma chars_str l : chars (str l) = l.
Proof. apply list_ascii_of_string_of_list_ascii. Qed.

Lemma str_chars s : str (chars s) = s.
Proof. apply string_of_list_ascii_of_string. Qed.

Lemma chars_inj s t : chars s = chars t → s = t.
Proof. intros H. rewrite <- (str_chars s), <- (str_chars t). by f_equal. Qed.

Lemma chars_empty s : chars s = [] ↔ s = "".
Proof.
  split; [|by intros ->].
  intros H. apply chars_inj. by rewrite H.
Qed.

Lemma str_nil_iff l : str l = "" ↔ l = [].
Proof.
  split; [|by intros ->].
  intros H. by rewrite <- (chars_str l), H.
Qed.

Lemma chars_app s t : chars (s +:+ t) = chars s ++ chars t.
Proof. induction s as [|c s IH]; simpl; [done|]. unfold chars in *. simpl. by f_equal. Qed.

Lemma truthy_true s : truthy s = true ↔ s ≠ "".
Proof.
  unfold truthy. rewrite negb_true_iff.
  destruct (String.eqb_spec s ""); split; congruence.
Qed.

Lemma truthy_false s : truthy s = false ↔ s = "".
Proof.
  unfold truthy. rewrite negb_false_iff. apply String.eqb_eq.
Qed.

Lemma slice_to_nonempty n s : 0 < n → s ≠ "" → slice_to n s ≠ "".
Proof.
  intros Hn Hs. unfold slice_to. rewrite str_nil_iff.
  destruct (chars s) as [|c l] eqn:E.
  - by apply chars_empty in E.
  - destruct n; [lia|done].
Qed.

Lemma len_slice_to n s : n ≤ len s → len (slice_to n s) = n.
Proof.
  unfold len, slice_to. revert n.
  induction s as [|c s IH]; intros [|n] H; simpl in *; try done; try lia.
  f_equal. apply IH. lia.
Qed.

End pystr_facts.

(** ** Query Builder, overview source *)
Section query_builder.
Import DataForSEO.

(** C3. For every topic, depth "quick", "default" and "deep" give
    exactly the first one, two and three of the three templates
    (trends and drivers, influencers and brands, expert
    recommendations), in that order; whatever the depth string, the
    queries are a prefix of that fixed list. *)
Theorem build_structured_queries_prefix (topic : string) :
  _build_structured_queries topic "quick"
    = [ "What are the biggest " +:+ topic +:+ " trends and what's driving them?" ]
  ∧ _build_structured_queries topic "default"
    = [ "What are the biggest " +:+ topic +:+ " trends and what's driving them?";
        "Who are the top influencers and brands in " +:+ topic +:+ " right now?" ]
  ∧ _build_structured_queries topic "deep"
    = [ "What are the biggest " +:+ topic +:+ " trends and what's driving them?";
        "Who are the top influencers and brands in " +:+ topic +:+ " right now?";
        "What do experts recommend for " +:+ topic +:+ " in 2026?" ]
  ∧ length (_build_structured_queries topic "quick") = 1
  ∧ length (_build_structured_queries topic "default") = 2
  ∧ length (_build_structured_queries topic "deep") = 3
  ∧ ∀ depth, _build_structured_queries topic depth `prefix_of` templates topic.
Proof.
  repeat split; try reflexivity.
  intros depth. apply prefix_take.
Qed.

End query_builder.

(** ** Recency Filter *)
Section recency.
Import PyStr YouTube.

Lemma date_of_published_nonempty p : date_of_published p ≠ Some "".
Proof.
  unfold date_of_published. case_bool_decide as H; [|done].
  intros [= E]. apply (f_equal len) in E.
  rewrite len_slice_to in E by done. done.
Qed.

Lemma make_item_date_well_formed core snippets stats vid :
  date_well_formed (make_item core snippets stats vid).
Proof. apply date_of_published_nonempty. Qed.

Lemma is_recent_dated_since from_date i :
  date_well_formed i →
  is_recent from_date i = true ↔ dated_since from_date i.
Proof.
  unfold date_well_formed, is_recent, dated_since, le. intros Hwf.
  destruct (date i) as [d|].
  - rewrite andb_true_iff, truthy_true. split.
    + intros [_ H]. eauto.
    + intros (d' & [= <-] & H). split; [congruence|done].
  - split; [done|]. by intros (d' & [=] & _).
Qed.

Lemma recent_filter_eq from_date items :
  Forall date_well_formed items →
  filter (λ i, is_recent from_date i = true) items
    = filter (dated_since from_date) items.
Proof.
  induction 1 as [|i items Hi _ IH]; [done|].
  rewrite !filter_cons, IH.
  destruct (decide (is_recent from_date i = true)) as [H|H];
    destruct (decide (dated_since from_date i)) as [H'|H']; try done;
    apply is_recent_dated_since in H || apply is_recent_dated_since in H';
    done.
Qed.

(** C1. For every item list (dates, when present, being date strings)
    and every from-date, the filter returns exactly the items with a
    known date on or after the from-date when there are at least three
    of them, and the whole list unchanged when there are fewer. *)
Theorem recency_filter_spec (items : list VideoItem) (from_date : string) :
  Forall date_well_formed items →
  let subset := filter (dated_since from_date) items in
  (3 ≤ length subset → recency_filter items from_date = subset)
  ∧ (length subset < 3 → recency_filter items from_date = items).
Proof.
  intros Hwf subset. unfold recency_filter.
  rewrite (recent_filter_eq _ _ Hwf). fold subset.
  split; intros H; case_bool_decide; done || lia.
Qed.

Lemma recency_filter_spec_witness :
  Forall date_well_formed Samples.videos
  ∧ 3 ≤ length (filter (dated_since "2025-01-01") Samples.videos)
  ∧ recency_filter Samples.videos "2025-01-01"
    = filter (dated_since "2025-01-01") Samples.videos.
Proof.
  assert (Forall date_well_formed Samples.videos) as Hwf
    by (repeat constructor; discriminate).
  assert (3 ≤ length (filter (dated_since "2025-01-01") Samples.videos))
    as Hlen by (vm_compute; lia).
  split_and!; [exact Hwf|exact Hlen|].
  exact (proj1 (recency_filter_spec Samples.videos "2025-01-01" Hwf) Hlen).
Defined.

Example finish_search_sample :
  video_id <$>
    sort_by_views
      (recency_filter
         (Samples.videos ++ [Samples.video "f" (Some "2025-01-03") 7])
         "2025-01-01")
  = ["c"; "f"; "a"; "e"].
Proof. reflexivity. Qed.

Example recency_filter_sample :
  recency_filter Samples.videos "2025-01-01"
    = [ Samples.video "a" (Some "2025-01-10") 5;
        Samples.video "c" (Some "2025-01-02") 7;
        Samples.video "e" (Some "2025-02-01") 3 ]
  ∧ recency_filter Samples.videos "2025-01-05" = Samples.videos.
Proof. split; reflexivity. Qed.

End recency.

(** ** Async Job Poller *)
Section poller.
Import PyStr Supadata.

Variable reply : nat → poll_reply.
Variables max_wait interval : Z.
Hypothesis interval_pos : (0 < interval)%Z.

Local Abbreviation loop := (poll_loop reply max_wait interval).

Lemma loop_still_processing fuel elapsed n :
  (elapsed < max_wait)%Z → still_processing (reply n) →
  loop (S fuel) elapsed n = loop fuel (elapsed + interval)%Z (S n).
Proof using interval_pos.
  intros Hlt Hp. simpl.
  apply Z.ltb_lt in Hlt. rewrite Hlt.
  assert ((interval <? 0)%Z = false) as -> by (apply Z.ltb_ge; lia).
  destruct (reply n) as [|status content]; [done|].
  destruct Hp as [Hc Hf].
  rewrite !bool_decide_eq_false_2 by done. done.
Qed.

Lemma loop_terminal fuel elapsed n :
  (elapsed < max_wait)%Z → ¬ still_processing (reply n) →
  loop (S fuel) elapsed n
    = Some {| result := Ret (terminal_result (reply n)); polls := S n |}.
Proof using interval_pos.
  intros Hlt Hp. simpl.
  apply Z.ltb_lt in Hlt. rewrite Hlt.
  assert ((interval <? 0)%Z = false) as -> by (apply Z.ltb_ge; lia).
  destruct (reply n) as [|status content]; [done|].
  unfold terminal_result. simpl in Hp.
  case_bool_decide as Hc; [done|].
  case_bool_decide as Hf; [done|].
  exfalso. by apply Hp.
Qed.

Lemma loop_out_of_budget fuel elapsed n :
  (max_wait ≤ elapsed)%Z →
  loop (S fuel) elapsed n = Some {| result := Ret None; polls := n |}.
Proof.
  intros Hge. simpl.
  assert ((elapsed <? max_wait)%Z = false) as -> by (apply Z.ltb_ge; lia).
  done.
Qed.

(** [k] turns of the loop through replies that keep the job in
    processing. *)
Lemma loop_reach k : ∀ fuel elapsed n,
  (∀ j, j < k → still_processing (reply (n + j))) →
  k = 0 ∨ (elapsed + (Z.of_nat k - 1) * interval < max_wait)%Z →
  loop (k + fuel) elapsed n
    = loop fuel (elapsed + Z.of_nat k * interval)%Z (n + k).
Proof using interval_pos.
  induction k as [|k IH]; intros fuel elapsed n Hp Hb.
  - simpl. f_equal; lia.
  - replace (S k + fuel) with (S (k + fuel)) by lia.
    rewrite loop_still_processing.
    + rewrite IH.
      * f_equal; lia.
      * intros j Hj. replace (S n + j) with (n + S j) by lia.
        apply Hp. lia.
      * destruct k; [by left|right]. lia.
    + destruct Hb as [?|Hb]; [done|]. nia.
    + specialize (Hp 0). rewrite Nat.add_0_r in Hp. apply Hp. lia.
Qed.

(** Every run that ends is either a time-out after [k] turns or stops
    at the first reply that is not "still processing". *)
Lemma loop_classify fuel : ∀ elapsed n run,
  loop fuel elapsed n = Some run →
  ∃ k, (∀ j, j < k → still_processing (reply (n + j)))
     ∧ (k = 0 ∨ (elapsed + (Z.of_nat k - 1) * interval < max_wait)%Z)
     ∧ ( ((max_wait ≤ elapsed + Z.of_nat k * interval)%Z
          ∧ run = {| result := Ret None; polls := n + k |})
       ∨ ((elapsed + Z.of_nat k * interval < max_wait)%Z
          ∧ ¬ still_processing (reply (n + k))
          ∧ run = {| result := Ret (terminal_result (reply (n + k)));
                     polls := S (n + k) |}) ).
Proof using interval_pos.
  induction fuel as [|fuel IH]; intros elapsed n run Hrun; [done|].
  destruct (decide (elapsed < max_wait)%Z) as [Hlt|Hge].
  - destruct (decide (still_processing (reply n))) as [Hp|Hp].
    + rewrite loop_still_processing in Hrun by done.
      apply IH in Hrun as (k & Hk & Hb & Hcase).
      exists (S k). split; [|split].
      * intros [|j] Hj; [by rewrite Nat.add_0_r|].
        replace (n + S j) with (S n + j) by lia. apply Hk. lia.
      * right. destruct Hb as [->|Hb]; lia.
      * replace (n + S k) with (S n + k) by lia.
        replace (elapsed + Z.of_nat (S k) * interval)%Z
          with (elapsed + interval + Z.of_nat k * interval)%Z by lia.
        done.
    + rewrite loop_terminal in Hrun by done. injection Hrun as <-.
      exists 0. rewrite !Nat.add_0_r.
      split; [lia|]. split; [by left|]. right.
      split; [lia|done].
  - rewrite loop_out_of_budget in Hrun by lia. injection Hrun as <-.
    exists 0. rewrite !Nat.add_0_r.
    split; [lia|]. split; [by left|]. left. split; [lia|done].
Qed.

(** With a positive interval the loop ends within
    [max_wait - elapsed] turns. *)
Lemma loop_terminates fuel : ∀ elapsed n,
  Z.to_nat (max_wait - elapsed) < fuel →
  is_Some (loop fuel elapsed n).
Proof using interval_pos.
  induction fuel as [|fuel IH]; intros elapsed n Hfuel; [lia|].
  destruct (decide (elapsed < max_wait)%Z) as [Hlt|Hge].
  - destruct (decide (still_processing (reply n))) as [Hp|Hp].
    + rewrite loop_still_processing by done. apply IH. lia.
    + rewrite loop_terminal by done. done.
  - rewrite loop_out_of_budget by lia. done.
Qed.

End poller.

Lemma terminal_result_some r c :
  terminal_result r = Some c →
  r = Supadata.PollData (Some "completed") (Some c) ∧ c ≠ "".
Proof.
  destruct r as [|status content]; [done|]. unfold terminal_result.
  case_bool_decide as Hs; [|done]. subst status.
  destruct (PyStr.truthy (or_empty content)) eqn:Ht; [|done].
  intros [= <-]. apply truthy_true in Ht.
  destruct content as [c|]; [done|]. by simpl in Ht.
Qed.

Lemma poll_job_reached status_request job_id api_key max_wait interval k :
  (0 < interval)%Z →
  (Z.of_nat k * interval < max_wait)%Z →
  (∀ j, j < k → still_processing (status_request job_id api_key j)) →
  ¬ still_processing (status_request job_id api_key k) →
  Supadata._poll_job status_request job_id api_key max_wait interval
    = Some {| Supadata.result :=
                Ret (terminal_result (status_request job_id api_key k));
              Supadata.polls := S k |}.
Proof.
  intros Hpos Hk Hbefore Hterm. unfold Supadata._poll_job.
  assert (k ≤ Z.to_nat max_wait) as Hle by nia.
  replace (S (Z.to_nat max_wait)) with (k + S (Z.to_nat max_wait - k)) by lia.
  rewrite loop_reach; [|done|done|].
  - apply loop_terminal; [done|lia|done].
  - destruct k; [by left|right]. nia.
Qed.

(** C4. For every sequence of status replies and a positive interval, the
    poller ends, and it ends with null when the first reply that leaves
    "processing" is a completed job with empty content, a failed job, or
    an exception (after which no further status request is made), and
    when every request within the max-wait budget found the job still
    processing; it ends with the content exactly when a request found the
    job completed with non-empty content. *)
Theorem poll_job_outcomes
    (status_request : string → string → nat → Supadata.poll_reply)
    (job_id api_key : string) (max_wait interval : Z) :
  (0 < interval)%Z →
  let reply := status_request job_id api_key in
  let in_budget k := (Z.of_nat k * interval < max_wait)%Z in
  let reached k := in_budget k ∧ ∀ j, j < k → still_processing (reply j) in
  ∃ run,
    Supadata._poll_job status_request job_id api_key max_wait interval
      = Some run
    ∧ (∀ k content, reached k →
         reply k = Supadata.PollData (Some "completed") content →
         or_empty content = "" →
         Supadata.result run = Ret None ∧ Supadata.polls run = S k)
    ∧ (∀ k content, reached k →
         reply k = Supadata.PollData (Some "failed") content →
         Supadata.result run = Ret None ∧ Supadata.polls run = S k)
    ∧ ((∀ k, in_budget k → still_processing (reply k)) →
         Supadata.result run = Ret None
         ∧ ¬ in_budget (Supadata.polls run)
         ∧ ∀ j, j < Supadata.polls run → in_budget j)
    ∧ (∀ k, reached k → reply k = Supadata.PollRaises →
         Supadata.result run = Ret None ∧ Supadata.polls run = S k)
    ∧ (∀ k c, reached k →
         reply k = Supadata.PollData (Some "completed") (Some c) →
         c ≠ "" →
         Supadata.result run = Ret (Some c) ∧ Supadata.polls run = S k)
    ∧ (∀ c, Supadata.result run = Ret (Some c) →
         c ≠ ""
         ∧ ∃ k, reached k
              ∧ reply k = Supadata.PollData (Some "completed") (Some c)
              ∧ Supadata.polls run = S k).
Proof.
  intros Hpos reply in_budget reached.
  destruct (loop_terminates reply max_wait interval Hpos
              (S (Z.to_nat max_wait)) 0 0) as [run Hrun]; [lia|].
  exists run. split; [done|].
  assert (∀ k, reached k → ¬ still_processing (reply k) →
            run = {| Supadata.result := Ret (terminal_result (reply k));
                     Supadata.polls := S k |}) as Hstop.
  { intros k [Hk Hbefore] Hterm.
    pose proof (poll_job_reached status_request job_id api_key
                  max_wait interval k Hpos Hk Hbefore Hterm) as E.
    unfold Supadata._poll_job in E. fold reply in E. congruence. }
  apply (loop_classify reply max_wait interval Hpos) in Hrun
    as (k0 & Hbefore0 & Hprev0 & Hcase0).
  simpl in Hbefore0, Hcase0.
  assert (∀ k, reached k → reply k = Supadata.PollRaises
               ∨ (∃ s c, reply k = Supadata.PollData (Some s) c
                         ∧ (s = "completed" ∨ s = "failed")) →
            ¬ still_processing (reply k)) as Hnot.
  { intros k _ [E|(s & c & E & [-> | ->])]; rewrite E; simpl; tauto. }
  split_and!.
  - intros k content Hk E Hempty.
    rewrite (Hstop k Hk) by (apply Hnot; eauto 8).
    rewrite E. unfold terminal_result. simpl. by rewrite Hempty.
  - intros k content Hk E.
    rewrite (Hstop k Hk) by (apply Hnot; eauto 8).
    by rewrite E.
  - intros Hall.
    destruct Hcase0 as [[Hout ->]|(Hin & Hterm & _)].
    + simpl. unfold in_budget. split_and!; [done|lia|].
      intros j Hj. destruct Hprev0 as [->|Hprev0]; [lia|]. nia.
    + exfalso. apply Hterm, Hall. unfold in_budget. lia.
  - intros k Hk E.
    rewrite (Hstop k Hk) by (apply Hnot; eauto 8).
    by rewrite E.
  - intros k c Hk E Hc.
    rewrite (Hstop k Hk) by (apply Hnot; eauto 8).
    rewrite E. unfold terminal_result. simpl.
    apply truthy_true in Hc. by rewrite Hc.
  - intros c Hres.
    destruct Hcase0 as [[_ ->]|(Hin & _ & ->)]; [done|].
    simpl in Hres. injection Hres as Hres.
    apply terminal_result_some in Hres as [E Hc].
    split; [done|]. exists k0. split_and!; [|done..].
    split; [unfold in_budget; lia|done].
Qed.

Example poll_job_samples :
  Supadata._poll_job Samples.completes_at_third "job" "key" 60 3
    = Some {| Supadata.result := Ret (Some "hello world");
              Supadata.polls := 3 |}
  ∧ Supadata._poll_job Samples.completes_at_third "job" "key" 6 3
    = Some {| Supadata.result := Ret None; Supadata.polls := 2 |}
  ∧ Supadata._poll_job Samples.always_active "job" "key" 60 3
    = Some {| Supadata.result := Ret None; Supadata.polls := 20 |}
  ∧ Supadata._poll_job Samples.raises_at_second "job" "key" 60 3
    = Some {| Supadata.result := Ret None; Supadata.polls := 2 |}.
Proof. split_and!; reflexivity. Qed.

Lemma poll_job_outcomes_witness :
  (0 < 3)%Z
  ∧ ∃ run,
      Supadata._poll_job Samples.completes_at_third "job" "key" 60 3
        = Some run
      ∧ Supadata.result run = Ret (Some "hello world")
      ∧ Supadata.polls run = 3.
Proof.
  assert (0 < 3)%Z as Hpos by lia.
  split; [exact Hpos|].
  destruct (poll_job_outcomes Samples.completes_at_third "job" "key" 60 3
              Hpos) as (run & Hrun & _ & _ & _ & _ & Hdone & _).
  exists run. split; [exact Hrun|].
  apply (Hdone 2 "hello world").
  - split; [simpl; lia|].
    intros j Hj. unfold Samples.completes_at_third.
    rewrite bool_decide_eq_true_2 by exact Hj. simpl. split; discriminate.
  - reflexivity.
  - discriminate.
Defined.

(** ** Parallel Fetch Coordinator *)
Section coordinator.
Import Futures.

Implicit Types (results m : gmap string (option string)).
Implicit Types (completed futures : list future).

Lemma collect_one_ret results f :
  collect_one results f = Ret (<[f.1 := settle f.2]> results).
Proof. unfold collect_one. by destruct f as [k [v|]]. Qed.

(** The loop never raises: it ends with the mapping obtained by
    recording every finished future in turn. *)
Lemma collect_ret completed : ∀ results,
  collect results completed
    = Ret (foldl (λ m f, <[f.1 := settle f.2]> m) results completed).
Proof.
  induction completed as [|f rest IH]; intros results; [done|].
  simpl. rewrite collect_one_ret. apply IH.
Qed.

Lemma record_all_lookup_other completed : ∀ results k,
  k ∉ completed.*1 →
  foldl (λ m f, <[f.1 := settle f.2]> m) results completed !! k
    = results !! k.
Proof.
  induction completed as [|f rest IH]; intros results k Hk; [done|].
  rewrite fmap_cons, not_elem_of_cons in Hk. destruct Hk as [Hne Hk].
  simpl. rewrite IH by done. by rewrite lookup_insert_ne.
Qed.

Lemma record_all_lookup completed : ∀ results k o,
  NoDup completed.*1 → (k, o) ∈ completed →
  foldl (λ m f, <[f.1 := settle f.2]> m) results completed !! k
    = Some (settle o).
Proof.
  induction completed as [|f rest IH]; intros results k o Hnd Hin.
  - by apply elem_of_nil in Hin.
  - rewrite fmap_cons in Hnd. apply NoDup_cons in Hnd as [Hf Hnd].
    apply elem_of_cons in Hin as [<-|Hin]; simpl.
    + rewrite record_all_lookup_other by done. apply lookup_insert_eq.
    + by apply IH.
Qed.

Lemma settled_cons fetch k keys :
  settled fetch (k :: keys) = <[k := settle (fetch k)]> (settled fetch keys).
Proof. reflexivity. Qed.

Lemma settled_lookup fetch keys k :
  settled fetch keys !! k
    = if decide (k ∈ keys) then Some (settle (fetch k)) else None.
Proof.
  unfold settled. induction keys as [|k' keys IH].
  - rewrite decide_False by apply not_elem_of_nil. apply lookup_empty.
  - rewrite fmap_cons, list_to_map_cons, lookup_insert, IH.
    destruct (decide (k' = k)) as [->|Hne].
    + by rewrite decide_True by apply list_elem_of_here.
    + destruct (decide (k ∈ keys)) as [Hin|Hin].
      * by rewrite decide_True by by apply list_elem_of_further.
      * rewrite decide_False; [done|].
        rewrite elem_of_cons. intros [?|?]; congruence.
Qed.

(** With distinct keys, the order of completion does not matter. *)
Lemma record_all_settled fetch keys completed :
  NoDup keys →
  completed ≡ₚ (λ k, (k, fetch k)) <$> keys →
  foldl (λ m f, <[f.1 := settle f.2]> m) ∅ completed = settled fetch keys.
Proof.
  intros Hnd Hperm. apply map_eq. intros k.
  assert (completed.*1 ≡ₚ keys) as Hkeys.
  { rewrite Hperm, <- list_fmap_compose.
    clear. induction keys as [|k keys IH]; [done|].
    rewrite fmap_cons. simpl. by f_equiv. }
  rewrite settled_lookup. case_decide as Hin.
  - apply record_all_lookup; [by rewrite Hkeys|].
    rewrite Hperm. apply list_elem_of_fmap. eauto.
  - rewrite record_all_lookup_other by by rewrite Hkeys.
    apply lookup_empty.
Qed.

Lemma settled_size fetch keys :
  NoDup keys → size (settled fetch keys) = length keys.
Proof.
  induction 1 as [|k keys Hk Hnd IH]; [done|].
  rewrite settled_cons, map_size_insert_None.
  - simpl. by rewrite IH.
  - rewrite settled_lookup. by rewrite decide_False.
Qed.

Lemma settled_dom fetch keys :
  dom (settled fetch keys) = list_to_set keys.
Proof.
  apply set_eq. intros k. rewrite elem_of_dom, settled_lookup.
  rewrite elem_of_list_to_set. case_decide; split; done.
Qed.

Lemma settled_null_count fetch keys :
  NoDup keys →
  null_count (settled fetch keys)
    = length (filter (λ k, settle (fetch k) = None) keys).
Proof.
  unfold null_count.
  induction 1 as [|k keys Hk Hnd IH]; [done|].
  assert (settled fetch keys !! k = None) as Hfresh.
  { rewrite settled_lookup. by rewrite decide_False. }
  rewrite settled_cons, filter_cons. destruct (decide (settle (fetch k) = None)) as [E|E].
  - rewrite map_filter_insert_True by done.
    rewrite map_size_insert_None.
    + simpl. by rewrite IH.
    + by rewrite map_lookup_filter, Hfresh.
  - rewrite map_filter_insert_not' by naive_solver.
    done.
Qed.

Lemma raising_le_null (fetch : string → py (option string))
    (keys : list string) :
  length (filter (λ k, raises (fetch k) = true) keys)
    ≤ length (filter (λ k, settle (fetch k) = None) keys).
Proof.
  induction keys as [|k keys IH]; [done|].
  rewrite !filter_cons.
  destruct (fetch k) as [[v|]|]; simpl;
    repeat case_decide; simpl; try done; lia.
Qed.

Lemma raising_eq_null (fetch : string → py (option string))
    (keys : list string) :
  (∀ k, k ∈ keys → fetch k ≠ Ret None) →
  length (filter (λ k, settle (fetch k) = None) keys)
    = length (filter (λ k, raises (fetch k) = true) keys).
Proof.
  induction keys as [|k keys IH]; intros Hnn; [done|].
  rewrite !filter_cons.
  pose proof (Hnn k ltac:(apply list_elem_of_here)) as Hk.
  assert (∀ k', k' ∈ keys → fetch k' ≠ Ret None) as Hrest
    by (intros; apply Hnn; by apply list_elem_of_further).
  specialize (IH Hrest).
  destruct (fetch k) as [[v|]|]; simpl;
    repeat case_decide; simpl; congruence.
Qed.

Lemma settled_complete fetch keys :
  NoDup keys → complete_mapping keys fetch (settled fetch keys).
Proof.
  intros Hnd. unfold complete_mapping. split_and!.
  - by apply settled_size.
  - apply settled_dom.
  - intros k Hk. by rewrite settled_lookup, decide_True.
  - by apply settled_null_count.
  - rewrite settled_null_count by done. apply raising_le_null.
  - intros Hnn. rewrite settled_null_count by done.
    by apply raising_eq_null.
Qed.

Lemma fetch_transcripts_parallel_settled fetch as_completed keys :
  (∀ l, as_completed l ≡ₚ l) → NoDup keys →
  YouTube.fetch_transcripts_parallel fetch as_completed keys
    = Ret (settled fetch keys).
Proof.
  intros Hperm Hnd. unfold YouTube.fetch_transcripts_parallel.
  destruct keys as [|k keys]; [done|].
  rewrite collect_ret. f_equal. by apply record_all_settled.
Qed.

Lemma fetch_transcripts_batch_settled fetch as_completed urls api_key :
  (∀ l, as_completed l ≡ₚ l) → NoDup urls → api_key ≠ "" →
  Supadata.fetch_transcripts_batch fetch as_completed urls api_key
    = Ret (settled (λ url, fetch url api_key) urls).
Proof.
  intros Hperm Hnd Hkey. unfold Supadata.fetch_transcripts_batch.
  apply truthy_true in Hkey. rewrite Hkey, orb_false_r.
  case_bool_decide as Hurls; [by subst urls|].
  rewrite collect_ret. f_equal.
  by apply (record_all_settled (λ url, fetch url api_key)).
Qed.

(** C5, as amended.  For distinct keys and whatever the order of
    completion, both coordinators (the transcript-service one when given
    an API key) return, without raising, a mapping with exactly one entry
    per key; the entry of a key is null when its fetch raised and is
    what the fetch returned otherwise, so the null entries are those of
    the fetches that raised or returned null: at least as many as the
    fetches that raised, and exactly as many when no fetch returns
    null. *)
Theorem parallel_fetch_complete
    (as_completed : list future → list future) (keys : list string) :
  (∀ l, as_completed l ≡ₚ l) → NoDup keys →
  (∀ fetch, ∃ m,
      YouTube.fetch_transcripts_parallel fetch as_completed keys = Ret m
      ∧ complete_mapping keys fetch m)
  ∧ (∀ fetch api_key, api_key ≠ "" → ∃ m,
      Supadata.fetch_transcripts_batch fetch as_completed keys api_key
        = Ret m
      ∧ complete_mapping keys (λ url, fetch url api_key) m).
Proof.
  intros Hperm Hnd. split.
  - intros fetch. exists (settled fetch keys). split.
    + by apply fetch_transcripts_parallel_settled.
    + by apply settled_complete.
  - intros fetch api_key Hkey.
    exists (settled (λ url, fetch url api_key) keys). split.
    + by apply fetch_transcripts_batch_settled.
    + by apply settled_complete.
Qed.

Lemma parallel_fetch_complete_witness :
  (∀ l : list future, reverse l ≡ₚ l)
  ∧ NoDup ["a"; "b"; "c"]
  ∧ ∃ m, YouTube.fetch_transcripts_parallel Samples.mixed_fetch reverse
           ["a"; "b"; "c"] = Ret m
       ∧ complete_mapping ["a"; "b"; "c"] Samples.mixed_fetch m.
Proof.
  assert (∀ l : list future, reverse l ≡ₚ l) as Hperm
    by (intros l; apply reverse_Permutation).
  assert (NoDup ["a"; "b"; "c"]) as Hnd
    by (apply (bool_decide_unpack _); vm_compute; exact I).
  split_and!; [exact Hperm|exact Hnd|].
  exact (proj1 (parallel_fetch_complete reverse ["a"; "b"; "c"] Hperm Hnd)
           Samples.mixed_fetch).
Defined.

Example parallel_fetch_sample :
  YouTube.fetch_transcripts_parallel Samples.mixed_fetch reverse
    ["a"; "b"; "c"]
  = Ret (<["a" := Some "transcript"]>
           (<["b" := None]> (<["c" := None]> ∅)))
  ∧ null_count (<["a" := Some "transcript"]>
                  (<["b" := None]> (<["c" := None]> ∅))) = 2.
Proof. split; reflexivity. Qed.

(** C5 as stated fails: one key whose fetch returns null without
    raising (no raise at all, K = 0) leaves one null entry. *)
Lemma parallel_fetch_null_count_counterexample :
  let fetch : string → py (option string) := λ _, Ret None in
  NoDup ["v1"]
  ∧ length (filter (λ k, raises (fetch k) = true) ["v1"]) = 0
  ∧ YouTube.fetch_transcripts_parallel fetch id ["v1"]
      = Ret {[ "v1" := None ]}
  ∧ null_count ({[ "v1" := None ]} : gmap string (option string)) = 1.
Proof.
  split_and!.
  - apply NoDup_singleton.
  - reflexivity.
  - reflexivity.
  - reflexivity.
Qed.

(** C10. With an empty API key the batch fetcher returns the empty
    mapping for every non-empty list of URLs: no URL has an entry, not
    even a null one. *)
Theorem fetch_transcripts_batch_no_key fetch as_completed
    (urls : list string) :
  urls ≠ [] →
  ∃ m, Supadata.fetch_transcripts_batch fetch as_completed urls "" = Ret m
     ∧ m = ∅
     ∧ size m = 0
     ∧ size m ≠ length urls
     ∧ ∀ url, url ∈ urls → m !! url = None.
Proof.
  intros Hurls. exists ∅. split_and!.
  - unfold Supadata.fetch_transcripts_batch.
    by rewrite orb_true_r.
  - done.
  - apply map_size_empty.
  - rewrite map_size_empty. by destruct urls.
  - intros url _. apply lookup_empty.
Qed.

Lemma fetch_transcripts_batch_no_key_witness :
  ["https://youtu.be/x"] ≠ []
  ∧ ∃ m, Supadata.fetch_transcripts_batch (λ url _, Samples.mixed_fetch url)
           id ["https://youtu.be/x"] "" = Ret m
       ∧ m = ∅.
Proof.
  assert (["https://youtu.be/x"] ≠ []) as Hne by discriminate.
  split; [exact Hne|].
  destruct (fetch_transcripts_batch_no_key
              (λ url _, Samples.mixed_fetch url) id
              ["https://youtu.be/x"] Hne) as (m & Hm & Hempty & _).
  exists m. split; [exact Hm|exact Hempty].
Defined.

End coordinator.

(** ** Result Normalizer, overview source *)
Section normalizer.
Import PyStr DataForSEO.

Variable urlparse_netloc : string → py string.

Local Abbreviation normalize_ref := (normalize_ref urlparse_netloc).
Local Abbreviation normalize_refs := (normalize_refs urlparse_netloc).
Local Abbreviation normalize_entry := (normalize_entry urlparse_netloc).
Local Abbreviation _normalize_results :=
  (_normalize_results urlparse_netloc).

Lemma of_nat_inj n m : of_nat n = of_nat m → n = m.
Proof.
  unfold of_nat. intros E.
  apply Unsigned.to_uint_inj.
  apply (f_equal NilEmpty.uint_of_string) in E.
  rewrite !NilEmpty.usu in E. congruence.
Qed.

(** What an emitted item looks like. *)
Lemma normalize_ref_some ov i ref item :
  normalize_ref ov i ref = Some item →
  url item = or_empty (ref_url ref)
  ∧ url item ≠ ""
  ∧ (title item ≠ "" ∨ snippet item ≠ "")
  ∧ id item = "D" +:+ of_nat (i + 1)
  ∧ ∀ netloc, urlparse_netloc (url item) = Ret netloc →
      lower netloc ∉ EXCLUDED_DOMAINS.
Proof.
  unfold DataForSEO.normalize_ref, resolve_domain.
  destruct (truthy (or_empty (ref_url ref))) eqn:Hurl; [|done]. simpl.
  apply truthy_true in Hurl.
  set (t := strip (or_empty (ref_title ref))).
  set (sn := strip _).
  intros H.
  assert (∃ domain,
    (∀ netloc, urlparse_netloc (or_empty (ref_url ref)) = Ret netloc →
       lower netloc ∉ EXCLUDED_DOMAINS)
    ∧ (if negb (truthy t) && negb (truthy sn) then None
       else Some {| id := "D" +:+ of_nat (i + 1);
                    title := slice_to 200 t;
                    url := or_empty (ref_url ref);
                    source_domain := domain;
                    snippet := slice_to 500 sn;
                    date := None;
                    date_confidence := "low";
                    relevance := (3 # 4)%Q;
                    why_relevant := _extract_mention ov t domain |})
      = Some item) as (domain & Hdom & Hitem).
  { destruct (urlparse_netloc (or_empty (ref_url ref))) as [netloc|].
    - case_bool_decide as Hex; [done|].
      destruct (startswith (lower netloc) "www.");
        eexists; (split; [by intros ? [= <-]|exact H]).
    - eexists; split; [done|exact H]. }
  clear H.
  destruct (truthy t) eqn:Ht, (truthy sn) eqn:Hsn; simpl in Hitem;
    try done; injection Hitem as <-; simpl;
    (split_and!; [done|done| |done|done]).
  - left. apply slice_to_nonempty; [lia|by apply truthy_true].
  - left. apply slice_to_nonempty; [lia|by apply truthy_true].
  - right. apply slice_to_nonempty; [lia|by apply truthy_true].
Qed.

Lemma normalize_ref_no_url ov i ref :
  or_empty (ref_url ref) = "" → normalize_ref ov i ref = None.
Proof. unfold DataForSEO.normalize_ref. by intros ->. Qed.

Lemma normalize_ref_no_text ov i ref :
  blank (ref_title ref) → blank (ref_text ref) → blank (ref_snippet ref) →
  normalize_ref ov i ref = None.
Proof.
  unfold blank, DataForSEO.normalize_ref. intros Ht Hx Hs.
  destruct (truthy (or_empty (ref_url ref))); [|done]. simpl.
  destruct (resolve_domain _ _ _) as [domain|]; [|done].
  rewrite Ht.
  assert (strip (match ref_text ref with
                 | Some t => t
                 | None => or_empty (ref_snippet ref)
                 end) = "") as ->; [|done].
  by destruct (ref_text ref).
Qed.

Lemma normalize_ref_excluded ov i ref netloc :
  urlparse_netloc (or_empty (ref_url ref)) = Ret netloc →
  lower netloc ∈ EXCLUDED_DOMAINS →
  normalize_ref ov i ref = None.
Proof.
  unfold DataForSEO.normalize_ref, resolve_domain. intros -> Hex.
  destruct (truthy (or_empty (ref_url ref))); [|done]. simpl.
  by rewrite bool_decide_eq_true_2.
Qed.

Lemma normalize_refs_app ov before : ∀ i after,
  normalize_refs ov i (before ++ after)
    = normalize_refs ov i before
      ++ normalize_refs ov (i + length before) after.
Proof.
  induction before as [|ref before IH]; intros i after; simpl.
  - by rewrite Nat.add_0_r.
  - rewrite IH. replace (S i + length before) with (i + S (length before))
      by lia.
    by destruct (normalize_ref ov i ref).
Qed.

(** A skipped reference leaves nothing behind; the references after it
    keep their positions. *)
Lemma normalize_refs_skip ov i ref before after :
  normalize_ref ov (i + length before) ref = None →
  normalize_refs ov i (before ++ ref :: after)
    = normalize_refs ov i before
      ++ normalize_refs ov (i + length before + 1) after.
Proof.
  intros Hskip. rewrite normalize_refs_app. simpl. rewrite Hskip.
  by replace (S (i + length before)) with (i + length before + 1) by lia.
Qed.

Lemma normalize_refs_elem ov refs : ∀ i item,
  item ∈ normalize_refs ov i refs →
  ∃ j ref, refs !! j = Some ref
         ∧ normalize_ref ov (i + j) ref = Some item.
Proof.
  induction refs as [|ref refs IH]; intros i item Hin; simpl in Hin.
  - by apply elem_of_nil in Hin.
  - destruct (normalize_ref ov i ref) as [it|] eqn:E.
    + apply elem_of_cons in Hin as [->|Hin].
      * exists 0, ref. by rewrite Nat.add_0_r.
      * apply IH in Hin as (j & r & Hj & Hr).
        exists (S j), r. split; [done|].
        by replace (i + S j) with (S i + j) by lia.
    + apply IH in Hin as (j & r & Hj & Hr).
      exists (S j), r. split; [done|].
      by replace (i + S j) with (S i + j) by lia.
Qed.

(** A property of every item a reference can produce holds of every
    item of the normalised result. *)
Lemma normalize_entries_Forall (P : WebItem → Prop) entries : ∀ st,
  (∀ ov i ref item, normalize_ref ov i ref = Some item → P item) →
  Forall P st.1 →
  Forall P (foldl normalize_entry st entries).1.
Proof.
  induction entries as [|entry entries IH]; intros [its ov] HP Hst;
    [done|].
  simpl. apply IH; [done|].
  unfold DataForSEO.normalize_entry. case_bool_decide; [|done].
  simpl. apply Forall_app. split; [done|].
  apply Forall_forall. intros item Hin.
  apply normalize_refs_elem in Hin as (j & ref & _ & Hitem).
  by eapply HP.
Qed.

Lemma normalize_results_Forall (P : WebItem → Prop) response from_date
    to_date :
  (∀ ov i ref item, normalize_ref ov i ref = Some item → P item) →
  Forall P (_normalize_results response from_date to_date).1.
Proof.
  intros HP. unfold DataForSEO._normalize_results.
  destruct (tasks response) as [|task ?]; [by constructor|].
  case_bool_decide; [|by constructor].
  destruct (result task) as [|res ?]; [by constructor|].
  apply normalize_entries_Forall; [done|by constructor].
Qed.

End normalizer.

Section normalizer_claims.
Import PyStr DataForSEO.

Variable urlparse_netloc : string → py string.

(** C7. Every item the normaliser emits has a non-empty url and a
    non-empty title or snippet; a reference whose url is missing or
    empty, or whose title, text and snippet are all missing or blank,
    is skipped and leaves no item among those of its entry. *)
Theorem normalized_items_have_url_and_text :
  (∀ response from_date to_date,
     Forall (λ item, url item ≠ "" ∧ (title item ≠ "" ∨ snippet item ≠ ""))
       (_normalize_results urlparse_netloc response from_date to_date).1)
  ∧ (∀ ov i ref before after,
       or_empty (ref_url ref) = ""
       ∨ (blank (ref_title ref) ∧ blank (ref_text ref)
          ∧ blank (ref_snippet ref)) →
       normalize_ref urlparse_netloc ov (i + length before) ref = None
       ∧ normalize_refs urlparse_netloc ov i (before ++ ref :: after)
         = normalize_refs urlparse_netloc ov i before
           ++ normalize_refs urlparse_netloc ov
                (i + length before + 1) after).
Proof.
  split.
  - intros response from_date to_date.
    apply normalize_results_Forall.
    intros ov i ref item Hitem.
    apply normalize_ref_some in Hitem as (_ & Hurl & Htext & _).
    done.
  - intros ov i ref before after Hskip.
    assert (normalize_ref urlparse_netloc ov (i + length before) ref
            = None) as Hnone.
    { destruct Hskip as [Hurl|(Ht & Hx & Hs)].
      - by apply normalize_ref_no_url.
      - by apply normalize_ref_no_text. }
    split; [done|]. by apply normalize_refs_skip.
Qed.

(** C9. A reference whose URL parses to a network location that, in
    lower case, is one of the excluded domains is skipped and leaves no
    item; the excluded set holds the bare and the www. form of each of
    the three sites; no emitted item has such a URL. *)
Theorem excluded_domain_dropped ov i ref netloc before after :
  urlparse_netloc (or_empty (ref_url ref)) = Ret netloc →
  lower netloc ∈ EXCLUDED_DOMAINS →
  normalize_ref urlparse_netloc ov (i + length before) ref = None
  ∧ normalize_refs urlparse_netloc ov i (before ++ ref :: after)
    = normalize_refs urlparse_netloc ov i before
      ++ normalize_refs urlparse_netloc ov (i + length before + 1) after
  ∧ Forall (λ site, site ∈ EXCLUDED_DOMAINS
                    ∧ "www." +:+ site ∈ EXCLUDED_DOMAINS)
      ["reddit.com"; "twitter.com"; "x.com"]
  ∧ ∀ response from_date to_date,
      Forall (λ item, ∀ nl, urlparse_netloc (url item) = Ret nl →
                            lower nl ∉ EXCLUDED_DOMAINS)
        (_normalize_results urlparse_netloc response from_date to_date).1.
Proof.
  intros Hparse Hex.
  assert (normalize_ref urlparse_netloc ov (i + length before) ref = None)
    as Hnone by by eapply normalize_ref_excluded.
  split_and!.
  - done.
  - by apply normalize_refs_skip.
  - repeat constructor; by vm_compute.
  - intros response from_date to_date.
    apply normalize_results_Forall.
    intros ov' i' ref' item Hitem.
    by apply normalize_ref_some in Hitem as (_ & _ & _ & _ & Hdom).
Qed.

End normalizer_claims.

Lemma normalized_items_have_url_and_text_witness :
  (or_empty (DataForSEO.ref_url Samples.no_text_ref) = ""
   ∨ (blank (DataForSEO.ref_title Samples.no_text_ref)
      ∧ blank (DataForSEO.ref_text Samples.no_text_ref)
      ∧ blank (DataForSEO.ref_snippet Samples.no_text_ref)))
  ∧ DataForSEO.normalize_refs DataForSEO.netloc_of_url "" 0
      ([Samples.titled_ref "https://a.example/"]
       ++ Samples.no_text_ref :: [Samples.titled_ref "https://b.example/"])
    = DataForSEO.normalize_refs DataForSEO.netloc_of_url "" 0
        [Samples.titled_ref "https://a.example/"]
      ++ DataForSEO.normalize_refs DataForSEO.netloc_of_url "" 2
           [Samples.titled_ref "https://b.example/"].
Proof.
  assert (or_empty (DataForSEO.ref_url Samples.no_text_ref) = ""
          ∨ (blank (DataForSEO.ref_title Samples.no_text_ref)
             ∧ blank (DataForSEO.ref_text Samples.no_text_ref)
             ∧ blank (DataForSEO.ref_snippet Samples.no_text_ref)))
    as Hskip by (right; split_and!; reflexivity).
  split; [exact Hskip|].
  exact (proj2 (proj2 (normalized_items_have_url_and_text
                         DataForSEO.netloc_of_url)
                  "" 0 Samples.no_text_ref
                  [Samples.titled_ref "https://a.example/"]
                  [Samples.titled_ref "https://b.example/"] Hskip)).
Defined.

Lemma excluded_domain_dropped_witness :
  DataForSEO.netloc_of_url
    (or_empty (DataForSEO.ref_url Samples.reddit_ref))
    = Ret "www.Reddit.com"
  ∧ PyStr.lower "www.Reddit.com" ∈ DataForSEO.EXCLUDED_DOMAINS
  ∧ DataForSEO.normalize_ref DataForSEO.netloc_of_url "" 0
      Samples.reddit_ref = None.
Proof.
  assert (DataForSEO.netloc_of_url
            (or_empty (DataForSEO.ref_url Samples.reddit_ref))
          = Ret "www.Reddit.com") as Hparse by reflexivity.
  assert (PyStr.lower "www.Reddit.com" ∈ DataForSEO.EXCLUDED_DOMAINS)
    as Hex by (apply (bool_decide_unpack _); vm_compute; exact I).
  split_and!; [exact Hparse|exact Hex|].
  exact (proj1 (excluded_domain_dropped DataForSEO.netloc_of_url "" 0
                  Samples.reddit_ref "www.Reddit.com" [] [] Hparse Hex)).
Defined.

(** ** Cross-Query Deduplicator *)
Section deduplicator.
Import PyStr DataForSEO.

Implicit Types (l : list WebItem) (seen : gset string).

Lemma dedupe_fold l : ∀ acc,
  all_items (foldl dedupe_item acc l)
    = all_items acc ++ first_occurrences (seen_urls acc) l
  ∧ seen_urls (foldl dedupe_item acc l)
    = list_to_set (url_key <$> l) ∪ seen_urls acc
  ∧ all_overviews (foldl dedupe_item acc l) = all_overviews acc.
Proof.
  induction l as [|x l IH]; intros acc; simpl.
  - split_and!; [by rewrite app_nil_r|set_solver|done].
  - destruct (IH (dedupe_item acc x)) as (Hit & Hseen & Hov).
    rewrite Hit, Hseen, Hov. unfold dedupe_item.
    case_bool_decide as Hin.
    + rewrite decide_True by done. split_and!; [done|set_solver|done].
    + rewrite decide_False by done. simpl.
      split_and!; [by rewrite <- app_assoc|set_solver|done].
Qed.

Lemma dedupe_fold_concat per_query : ∀ acc,
  foldl (λ acc items, foldl dedupe_item acc items) acc per_query
    = foldl dedupe_item acc (concat per_query).
Proof.
  induction per_query as [|items per_query IH]; intros acc; [done|].
  simpl. by rewrite foldl_app, IH.
Qed.

Lemma merge_queries_first_occurrences per_query :
  merge_queries per_query = first_occurrences ∅ (concat per_query).
Proof.
  unfold merge_queries. rewrite dedupe_fold_concat.
  by destruct (dedupe_fold (concat per_query) empty_acc) as (-> & _).
Qed.

Lemma first_occurrences_sublist l : ∀ seen,
  first_occurrences seen l `sublist_of` l.
Proof.
  induction l as [|x l IH]; intros seen; simpl; [constructor|].
  case_decide; [apply sublist_cons|apply sublist_skip]; apply IH.
Qed.

(** [y] is kept exactly when it stands at a position of [l] before
    which its key occurs neither in [seen] nor in [l]. *)
Lemma first_occurrences_elem l : ∀ seen y,
  y ∈ first_occurrences seen l ↔
  ∃ i, l !! i = Some y ∧ (url_key y ∉ seen)
     ∧ ∀ j z, j < i → l !! j = Some z → url_key z ≠ url_key y.
Proof.
  induction l as [|x l IH]; intros seen y; simpl.
  - rewrite elem_of_nil. split; [done|]. by intros (i & Hi & _).
  - case_decide as Hx.
    + rewrite IH. split.
      * intros (i & Hi & Hy & Hfirst). exists (S i). split_and!; [done..|].
        intros [|j] z Hj Hz; simpl in Hz.
        -- injection Hz as <-. congruence.
        -- eapply Hfirst; [|done]. lia.
      * intros ([|i] & Hi & Hy & Hfirst); simpl in Hi.
        -- injection Hi as <-. done.
        -- exists i. split_and!; [done..|].
           intros j z Hj Hz. apply (Hfirst (S j)); [lia|done].
    + rewrite elem_of_cons, IH. split.
      * intros [->|(i & Hi & Hy & Hfirst)].
        -- exists 0. split_and!; [done..|]. intros; lia.
        -- exists (S i). split_and!; [done|set_solver|].
           intros [|j] z Hj Hz; simpl in Hz.
           ++ injection Hz as <-. set_solver.
           ++ eapply Hfirst; [|done]. lia.
      * intros ([|i] & Hi & Hy & Hfirst); simpl in Hi.
        -- injection Hi as <-. by left.
        -- right. exists i. split_and!; [done| |].
           ++ specialize (Hfirst 0 x (Nat.lt_0_succ i) eq_refl). set_solver.
           ++ intros j z Hj Hz. apply (Hfirst (S j)); [lia|done].
Qed.

Lemma first_occurrences_fresh l seen y :
  y ∈ first_occurrences seen l → url_key y ∉ seen.
Proof. rewrite first_occurrences_elem. by intros (i & _ & Hy & _). Qed.

Lemma first_occurrences_NoDup l : ∀ seen,
  NoDup (url_key <$> first_occurrences seen l).
Proof.
  induction l as [|x l IH]; intros seen; simpl; [constructor|].
  case_decide; [apply IH|].
  rewrite fmap_cons. apply NoDup_cons. split; [|apply IH].
  intros (y & Hk & Hy)%list_elem_of_fmap.
  apply first_occurrences_fresh in Hy. set_solver.
Qed.

(** Every key of [l] outside [seen] is the key of a kept item. *)
Lemma first_occurrences_cover l : ∀ seen x,
  x ∈ l → url_key x ∉ seen →
  ∃ y, y ∈ first_occurrences seen l ∧ url_key y = url_key x.
Proof.
  induction l as [|x' l IH]; intros seen x Hin Hx.
  - by apply elem_of_nil in Hin.
  - simpl. case_decide as Hx'.
    + apply elem_of_cons in Hin as [->|Hin]; [done|]. by apply IH.
    + destruct (decide (url_key x = url_key x')) as [E|E].
      * exists x'. split; [apply list_elem_of_here|done].
      * apply elem_of_cons in Hin as [->|Hin]; [done|].
        destruct (IH ({[url_key x']} ∪ seen) x Hin) as (y & Hy & Hk);
          [set_solver|].
        exists y. split; [by apply list_elem_of_further|done].
Qed.

Lemma filter_key_absent (items : list WebItem) (k : string) :
  k ∉ url_key <$> items →
  filter (λ y, url_key y = k) items = [].
Proof.
  induction items as [|y items IH]; intros Hk; [done|].
  rewrite fmap_cons, not_elem_of_cons in Hk. destruct Hk as [Hy Hk].
  rewrite filter_cons, decide_False by congruence. by apply IH.
Qed.

Lemma NoDup_key_count (items : list WebItem) (x : WebItem) :
  NoDup (url_key <$> items) → x ∈ items →
  length (filter (λ y, url_key y = url_key x) items) = 1.
Proof.
  induction items as [|y items IH]; intros Hnd Hin.
  - by apply elem_of_nil in Hin.
  - rewrite fmap_cons in Hnd. apply NoDup_cons in Hnd as [Hy Hnd].
    rewrite filter_cons. destruct (decide (url_key y = url_key x)) as [E|E].
    + rewrite filter_key_absent by by rewrite <- E. done.
    + apply elem_of_cons in Hin as [->|Hin]; [done|]. by apply IH.
Qed.

Lemma lower_app s t : lower (s +:+ t) = lower s +:+ lower t.
Proof.
  unfold lower. apply chars_inj.
  rewrite !chars_app, !chars_str. apply map_app.
Qed.

Lemma rstrip_slash_app s : rstrip "/" (s +:+ "/") = rstrip "/" s.
Proof.
  unfold rstrip, rstrip_by. rewrite chars_app. simpl.
  by rewrite reverse_app.
Qed.

Lemma url_key_same_up_to_case_and_slash (a b : WebItem) :
  same_up_to_case_and_slash (url a) (url b) → url_key a = url_key b.
Proof.
  unfold same_up_to_case_and_slash, url_key.
  intros [E|[E|[E|[E|E]]]].
  - by rewrite E.
  - rewrite E, lower_app. by rewrite rstrip_slash_app.
  - rewrite E, lower_app. by rewrite rstrip_slash_app.
  - by rewrite E, rstrip_slash_app.
  - by rewrite E, rstrip_slash_app.
Qed.

Lemma mem_slash (c : ascii) : mem_char "/" c = true ↔ c = "/"%char.
Proof.
  unfold mem_char. rewrite bool_decide_eq_true. simpl.
  by rewrite list_elem_of_singleton.
Qed.

Lemma drop_while_slashes (n : nat) (l : list ascii) :
  drop_while (mem_char "/") (replicate n "/"%char ++ l)
  = drop_while (mem_char "/") l.
Proof. induction n as [|n IH]; [done|]. simpl. exact IH. Qed.

Lemma drop_while_slash_split (l : list ascii) :
  ∃ k, l = replicate k "/"%char ++ drop_while (mem_char "/") l.
Proof.
  induction l as [|c l [k IH]]; [by exists 0|].
  simpl. destruct (mem_char "/" c) eqn:E.
  - apply mem_slash in E as ->. exists (S k). simpl. by f_equal.
  - by exists 0.
Qed.

Lemma drop_while_slash_head (l : list ascii) :
  head (drop_while (mem_char "/") l) ≠ Some "/"%char.
Proof.
  induction l as [|c l IH]; [done|].
  simpl. destruct (mem_char "/" c) eqn:E; [exact IH|].
  simpl. intros [= ->]. by vm_compute in E.
Qed.

Lemma chars_slashes (n : nat) : chars (slashes n) = replicate n "/"%char.
Proof. unfold slashes. apply chars_str. Qed.

Lemma rstrip_slashes (s : string) (n : nat) :
  rstrip "/" (s +:+ slashes n) = rstrip "/" s.
Proof.
  unfold rstrip, rstrip_by.
  by rewrite chars_app, chars_slashes, reverse_app, reverse_replicate,
    drop_while_slashes.
Qed.

(** A text is its [rstrip('/')] followed by slashes, and that does not
    end in a slash. *)
Lemma rstrip_slash_split (s : string) :
  ∃ k, s = rstrip "/" s +:+ slashes k.
Proof.
  destruct (drop_while_slash_split (reverse (chars s))) as [k Hk].
  exists k. apply chars_inj.
  rewrite chars_app, chars_slashes. unfold rstrip, rstrip_by.
  rewrite chars_str.
  apply (f_equal reverse) in Hk.
  by rewrite reverse_involutive, reverse_app, reverse_replicate in Hk.
Qed.

Lemma rstrip_slash_last (s : string) :
  last (chars (rstrip "/" s)) ≠ Some "/"%char.
Proof.
  unfold rstrip, rstrip_by. rewrite chars_str, last_reverse.
  apply drop_while_slash_head.
Qed.

Lemma same_canonical_rstrip (u v : string) :
  same_canonical_url u v ↔ rstrip "/" (lower u) = rstrip "/" (lower v).
Proof.
  split.
  - intros (core & m & n & Hu & Hv). by rewrite Hu, Hv, !rstrip_slashes.
  - intros E.
    destruct (rstrip_slash_split (lower u)) as [m Hm].
    destruct (rstrip_slash_split (lower v)) as [n Hn].
    exists (rstrip "/" (lower u)), m, n. split; [exact Hm|].
    rewrite E. exact Hn.
Qed.

Lemma url_key_canonical (a b : WebItem) :
  url_key a = url_key b ↔ same_canonical_url (url a) (url b).
Proof. unfold url_key. symmetry. apply same_canonical_rstrip. Qed.

(** The key is the URL in lower case without the slashes at its end. *)
Lemma url_key_stripped (a : WebItem) :
  (∃ k, lower (url a) = url_key a +:+ slashes k)
  ∧ last (chars (url_key a)) ≠ Some "/"%char.
Proof.
  unfold url_key. split; [apply rstrip_slash_split|apply rstrip_slash_last].
Qed.

(** The merged list, read without the key: an item is kept exactly when
    no item before it has the same canonical URL. *)
Lemma merge_queries_elem per_query (y : WebItem) :
  y ∈ merge_queries per_query ↔
  ∃ i, concat per_query !! i = Some y
     ∧ ∀ j z, j < i → concat per_query !! j = Some z →
              ¬ same_canonical_url (url z) (url y).
Proof.
  rewrite merge_queries_first_occurrences, first_occurrences_elem. split.
  - intros (i & Hi & _ & Hfirst). exists i. split; [done|].
    intros j z Hj Hz Hsame%url_key_canonical. by eapply Hfirst.
  - intros (i & Hi & Hfirst). exists i.
    split_and!; [done|apply not_elem_of_empty|].
    intros j z Hj Hz E%url_key_canonical. by eapply Hfirst.
Qed.

(** Every canonical URL of the input has its item in the merged list. *)
Lemma merge_queries_cover per_query (a : WebItem) :
  a ∈ concat per_query →
  ∃ y, y ∈ merge_queries per_query
     ∧ same_canonical_url (url y) (url a).
Proof.
  intros Ha. rewrite merge_queries_first_occurrences.
  destruct (first_occurrences_cover (concat per_query) ∅ a Ha)
    as (y & Hy & Hk); [apply not_elem_of_empty|].
  exists y. split; [done|]. by apply url_key_canonical.
Qed.

(** No canonical URL stands at two places of the merged list. *)
Lemma merge_queries_once per_query (i j : nat) (y z : WebItem) :
  merge_queries per_query !! i = Some y →
  merge_queries per_query !! j = Some z →
  same_canonical_url (url y) (url z) → i = j.
Proof.
  intros Hi Hj Hsame%url_key_canonical.
  rewrite merge_queries_first_occurrences in Hi, Hj.
  pose proof (first_occurrences_NoDup (concat per_query) ∅) as Hnd.
  eapply NoDup_lookup; [exact Hnd| |].
  - rewrite list_lookup_fmap, Hi. reflexivity.
  - rewrite list_lookup_fmap, Hj. simpl. by rewrite Hsame.
Qed.

(** Items with different canonical URLs are both kept, each by the first
    item of its URL. *)
Lemma merge_queries_keeps_both per_query (a b : WebItem) :
  a ∈ concat per_query → b ∈ concat per_query →
  ¬ same_canonical_url (url a) (url b) →
  ∃ y z, y ∈ merge_queries per_query ∧ z ∈ merge_queries per_query
       ∧ y ≠ z
       ∧ same_canonical_url (url y) (url a)
       ∧ same_canonical_url (url z) (url b).
Proof.
  intros Ha Hb Hdiff.
  destruct (merge_queries_cover per_query a Ha) as (y & Hy & Hya).
  destruct (merge_queries_cover per_query b Hb) as (z & Hz & Hzb).
  exists y, z. split_and!; [done|done| |done|done].
  intros ->. apply Hdiff.
  apply url_key_canonical in Hya, Hzb. apply url_key_canonical. congruence.
Qed.

(** C2. The merged list of the per-query item lists keeps the items in
    the order of issue, holds each canonical key once, and holds an item
    exactly when it is the first of the whole sequence with its key; so
    of the items whose URLs differ only in case or in a trailing slash
    exactly one entry remains, the one seen first.  The key is the URL
    in lower case without the slashes at its end: two items have the same
    key exactly when their URLs, in lower case, are equal up to trailing
    slashes.  Read without the key, an item is kept exactly when no item
    before it has the same canonical URL, no canonical URL is kept twice,
    and items with different canonical URLs are both kept. *)
Theorem merge_queries_first_wins (per_query : list (list WebItem)) :
  let flat := concat per_query in
  let merged := merge_queries per_query in
  merged `sublist_of` flat
  ∧ NoDup (url_key <$> merged)
  ∧ (∀ y, y ∈ merged ↔
       ∃ i, flat !! i = Some y
          ∧ ∀ j z, j < i → flat !! j = Some z → url_key z ≠ url_key y)
  ∧ (∀ a b, a ∈ flat → b ∈ flat →
       same_up_to_case_and_slash (url a) (url b) →
       url_key a = url_key b
       ∧ ∃ y, filter (λ z, url_key z = url_key a) merged = [y]
            ∧ ∃ i, flat !! i = Some y
                 ∧ ∀ j z, j < i → flat !! j = Some z →
                          url_key z ≠ url_key a)
  ∧ (∀ a, (∃ k, lower (url a) = url_key a +:+ slashes k)
          ∧ last (chars (url_key a)) ≠ Some "/"%char)
  ∧ (∀ a b, url_key a = url_key b ↔ same_canonical_url (url a) (url b))
  ∧ (∀ y, y ∈ merged ↔
       ∃ i, flat !! i = Some y
          ∧ ∀ j z, j < i → flat !! j = Some z →
                   ¬ same_canonical_url (url z) (url y))
  ∧ (∀ i j y z, merged !! i = Some y → merged !! j = Some z →
       same_canonical_url (url y) (url z) → i = j)
  ∧ (∀ a b, a ∈ flat → b ∈ flat →
       ¬ same_canonical_url (url a) (url b) →
       ∃ y z, y ∈ merged ∧ z ∈ merged ∧ y ≠ z
            ∧ same_canonical_url (url y) (url a)
            ∧ same_canonical_url (url z) (url b)).
Proof.
  intros flat merged.
  split_and!;
    [| | | |exact url_key_stripped|exact url_key_canonical
     |exact (merge_queries_elem per_query)
     |exact (merge_queries_once per_query)
     |exact (merge_queries_keeps_both per_query)];
    subst merged; rewrite merge_queries_first_occurrences; fold flat.
  - apply first_occurrences_sublist.
  - apply first_occurrences_NoDup.
  - intros y. rewrite first_occurrences_elem. split.
    + intros (i & Hi & _ & Hfirst). eauto.
    + intros (i & Hi & Hfirst). exists i. split_and!; [done| |done].
      apply not_elem_of_empty.
  - intros a b Ha Hb Hsame.
    split; [by apply url_key_same_up_to_case_and_slash|].
    destruct (first_occurrences_cover flat ∅ a Ha) as (y & Hy & Hk);
      [apply not_elem_of_empty|].
    pose proof (NoDup_key_count _ y (first_occurrences_NoDup flat ∅) Hy)
      as Hcount.
    rewrite Hk in Hcount.
    destruct (filter _ (first_occurrences ∅ flat)) as [|y' [|??]] eqn:Hf;
      try done.
    assert (y' ∈ filter (λ z, url_key z = url_key a)
                   (first_occurrences ∅ flat)) as Hy'
      by (rewrite Hf; apply list_elem_of_here).
    apply list_elem_of_filter in Hy' as [Hk' Hy'].
    exists y'. split; [done|].
    apply first_occurrences_elem in Hy' as (i & Hi & _ & Hfirst).
    exists i. split; [done|]. by rewrite <- Hk'.
Qed.

End deduplicator.

Lemma merge_queries_first_wins_witness :
  let a := Samples.web_item "https://Example.com/E-Bikes/" "First" in
  let b := Samples.web_item "https://example.com/e-bikes" "Second" in
  let c := Samples.web_item "https://example.com/other" "Third" in
  let flat := concat [[a]; [b; c]] in
  let merged := DataForSEO.merge_queries [[a]; [b; c]] in
  a ∈ flat ∧ b ∈ flat ∧ c ∈ flat
  ∧ same_up_to_case_and_slash (DataForSEO.url a) (DataForSEO.url b)
  ∧ ¬ same_canonical_url (DataForSEO.url a) (DataForSEO.url c)
  ∧ DataForSEO.url_key a = DataForSEO.url_key b
  ∧ (∃ y, filter (λ z, DataForSEO.url_key z = DataForSEO.url_key a) merged
          = [y]
        ∧ ∃ i, flat !! i = Some y
             ∧ ∀ j z, j < i → flat !! j = Some z →
                      DataForSEO.url_key z ≠ DataForSEO.url_key a)
  ∧ (∃ y z, y ∈ merged ∧ z ∈ merged ∧ y ≠ z
          ∧ same_canonical_url (DataForSEO.url y) (DataForSEO.url a)
          ∧ same_canonical_url (DataForSEO.url z) (DataForSEO.url c))
  ∧ c ∈ merged.
Proof.
  intros a b c flat merged.
  assert (a ∈ flat) as Ha by apply list_elem_of_here.
  assert (b ∈ flat) as Hb
    by apply list_elem_of_further, list_elem_of_here.
  assert (c ∈ flat) as Hc
    by (do 2 apply list_elem_of_further; apply list_elem_of_here).
  assert (same_up_to_case_and_slash (DataForSEO.url a) (DataForSEO.url b))
    as Hsame by (do 4 right; reflexivity).
  assert (∀ z, z ∈ flat → z ≠ c →
            ¬ same_canonical_url (DataForSEO.url z) (DataForSEO.url c))
    as Hother.
  { intros z Hz Hne E%same_canonical_rstrip.
    apply elem_of_cons in Hz as [->|Hz]; [by vm_compute in E|].
    apply elem_of_cons in Hz as [->|Hz]; [by vm_compute in E|].
    apply elem_of_cons in Hz as [->|Hz]; [done|].
    by apply elem_of_nil in Hz. }
  assert (¬ same_canonical_url (DataForSEO.url a) (DataForSEO.url c))
    as Hdiff by (apply Hother; [exact Ha|discriminate]).
  destruct (merge_queries_first_wins [[a]; [b; c]])
    as (_ & _ & _ & Hone & _ & _ & Helem & _ & Hboth).
  destruct (Hone a b Ha Hb Hsame) as [Hkey Hentry].
  split_and!;
    [exact Ha|exact Hb|exact Hc|exact Hsame|exact Hdiff|exact Hkey
    |exact Hentry|exact (Hboth a c Ha Hc Hdiff)|].
  apply Helem. exists 2. split; [reflexivity|].
  intros j z Hj Hz. apply Hother.
  - eapply list_elem_of_lookup_2. exact Hz.
  - destruct j as [|[|j]]; [| |lia]; injection Hz as <-; discriminate.
Defined.

Example merge_queries_sample :
  DataForSEO.merge_queries
    [ [ Samples.web_item "https://Example.com/E-Bikes/" "First" ];
      [ Samples.web_item "https://example.com/e-bikes" "Second";
        Samples.web_item "https://example.com/other" "Third" ] ]
  = [ Samples.web_item "https://Example.com/E-Bikes/" "First";
      Samples.web_item "https://example.com/other" "Third" ].
Proof. reflexivity. Qed.

(** ** Item ids *)
Section item_ids.
Import PyStr DataForSEO.

Variable urlparse_netloc : string → py string.

Local Abbreviation normalize_refs := (normalize_refs urlparse_netloc).
Local Abbreviation normalize_entry := (normalize_entry urlparse_netloc).

Lemma normalize_refs_id ov refs i item :
  item ∈ normalize_refs ov i refs →
  ∃ j, i ≤ j ∧ id item = "D" +:+ of_nat (j + 1).
Proof.
  intros (j & ref & _ & Hitem)%normalize_refs_elem.
  apply normalize_ref_some in Hitem as (_ & _ & _ & Hid & _).
  exists (i + j). split; [lia|done].
Qed.

Lemma normalize_refs_ids_NoDup ov refs : ∀ i,
  NoDup (id <$> normalize_refs ov i refs).
Proof.
  induction refs as [|ref refs IH]; intros i; simpl; [constructor|].
  destruct (DataForSEO.normalize_ref urlparse_netloc ov i ref)
    as [item|] eqn:E; [|apply IH].
  rewrite fmap_cons. apply NoDup_cons. split; [|apply IH].
  intros (item' & Hid & Hin)%list_elem_of_fmap.
  apply normalize_refs_id in Hin as (j & Hj & Hid').
  apply normalize_ref_some in E as (_ & _ & _ & Hid0 & _).
  rewrite Hid0, Hid' in Hid. injection Hid as Hid.
  apply of_nat_inj in Hid. lia.
Qed.

Lemma normalize_entry_other st e :
  or_empty (entry_type e) ≠ "ai_overview" → normalize_entry st e = st.
Proof.
  intros He. destruct st as [its ov]. unfold DataForSEO.normalize_entry.
  by rewrite bool_decide_eq_false_2.
Qed.

Lemma normalize_entry_overview st e :
  or_empty (entry_type e) = "ai_overview" →
  ∃ ov, (normalize_entry st e).1
        = st.1 ++ normalize_refs ov 0 (references e).
Proof.
  intros He. destruct st as [its ov]. unfold DataForSEO.normalize_entry.
  rewrite bool_decide_eq_true_2 by done. simpl. eauto.
Qed.

Lemma normalize_entries_no_overview entries : ∀ st,
  overview_entries entries = [] →
  foldl normalize_entry st entries = st.
Proof.
  unfold overview_entries.
  induction entries as [|e entries IH]; intros st Hnone; [done|].
  rewrite filter_cons in Hnone. case_decide as He; [done|].
  cbn [foldl]. rewrite normalize_entry_other by done. by apply IH.
Qed.

Lemma normalize_entries_one_overview entries : ∀ st,
  length (overview_entries entries) ≤ 1 →
  ∃ ov refs,
    (foldl normalize_entry st entries).1 = st.1 ++ normalize_refs ov 0 refs.
Proof.
  unfold overview_entries.
  induction entries as [|e entries IH]; intros st Hone.
  - exists "", []. simpl. by rewrite app_nil_r.
  - rewrite filter_cons in Hone. cbn [foldl]. case_decide as He.
    + simpl in Hone.
      assert (overview_entries entries = []) as Hnone.
      { apply length_zero_iff_nil. unfold overview_entries. lia. }
      rewrite normalize_entries_no_overview by done.
      destruct (normalize_entry_overview st e He) as [ov' ->]. eauto.
    + rewrite normalize_entry_other by done. by apply IH.
Qed.

Lemma normalize_results_ids_NoDup response from_date to_date :
  length (overview_entries (response_entries response)) ≤ 1 →
  NoDup (id <$> (_normalize_results urlparse_netloc response
                   from_date to_date).1).
Proof.
  unfold DataForSEO._normalize_results, response_entries.
  destruct (tasks response) as [|task ?]; [constructor|].
  case_bool_decide; [|constructor].
  destruct (result task) as [|res ?]; [constructor|].
  intros Hone.
  destruct (normalize_entries_one_overview (items res) ([], "") Hone)
    as (ov & refs & ->).
  apply normalize_refs_ids_NoDup.
Qed.

Variable _call_api : string → string → string → py Response.

Lemma first_occurrences_app l1 : ∀ seen l2,
  first_occurrences seen (l1 ++ l2)
    = first_occurrences seen l1
      ++ first_occurrences (list_to_set (url_key <$> l1) ∪ seen) l2.
Proof.
  induction l1 as [|x l1 IH]; intros seen l2; simpl.
  - f_equal. set_solver.
  - case_decide as Hx.
    + rewrite IH. do 2 f_equal. set_solver.
    + rewrite IH. simpl. do 3 f_equal. set_solver.
Qed.

(** The loop over the queries never raises; its items are the first
    occurrences among the items of the answered queries. *)
Lemma run_queries_ret from_date to_date api_login api_password queries :
  ∀ acc, ∃ acc',
    run_queries urlparse_netloc _call_api from_date to_date
      api_login api_password acc queries = Ret acc'
    ∧ all_items acc'
      = all_items acc
        ++ first_occurrences (seen_urls acc)
             (concat (answered_items urlparse_netloc _call_api from_date
                        to_date api_login api_password queries))
    ∧ seen_urls acc'
      = list_to_set
          (url_key <$>
             concat (answered_items urlparse_netloc _call_api from_date
                       to_date api_login api_password queries))
        ∪ seen_urls acc.
Proof.
  induction queries as [|query queries IH]; intros acc.
  - exists acc. simpl. split_and!; [done|by rewrite app_nil_r|set_solver].
  - simpl. unfold query_step.
    destruct (_call_api query api_login api_password) as [response|] eqn:E;
      simpl.
    + set (r := DataForSEO._normalize_results urlparse_netloc response
                  from_date to_date).
      destruct (IH (absorb acc r)) as (acc' & Hrun & Hit & Hseen).
      exists acc'. split; [done|].
      assert (all_items (absorb acc r)
              = all_items acc ++ first_occurrences (seen_urls acc) r.1
              ∧ seen_urls (absorb acc r)
                = list_to_set (url_key <$> r.1) ∪ seen_urls acc)
        as [Hit1 Hseen1].
      { unfold absorb, add_overview.
        destruct (dedupe_fold r.1 acc) as (H1 & H2 & _).
        by destruct (truthy r.2). }
      rewrite Hit, Hseen, Hit1, Hseen1.
      rewrite first_occurrences_app, fmap_app, list_to_set_app_L.
      split; [by rewrite <- app_assoc|set_solver].
    + apply IH.
Qed.

Lemma search_web_items topic from_date to_date api_login api_password
    depth :
  ∃ ai_overview,
    search_web urlparse_netloc _call_api topic from_date to_date
      api_login api_password depth
    = Ret (merge_queries
             (answered_items urlparse_netloc _call_api from_date to_date
                api_login api_password
                (_build_structured_queries topic depth)),
           ai_overview).
Proof.
  unfold search_web.
  destruct (run_queries_ret from_date to_date api_login api_password
              (_build_structured_queries topic depth) empty_acc)
    as (acc & -> & Hit & _).
  simpl. rewrite merge_queries_first_occurrences, Hit. simpl.
  eauto.
Qed.

(** C8, as amended.  The ids of the items produced from the reference
    list of one AI-overview entry are pairwise distinct; so are the ids
    of a normalised response with at most one such entry, and those
    returned by a search call of depth "quick" (a single query) when
    the response has at most one such entry. *)
Theorem ids_distinct_within_entry :
  (∀ ov i refs, NoDup (id <$> normalize_refs ov i refs))
  ∧ (∀ response from_date to_date,
       length (overview_entries (response_entries response)) ≤ 1 →
       NoDup (id <$> (_normalize_results urlparse_netloc response
                        from_date to_date).1))
  ∧ (∀ topic from_date to_date api_login api_password,
       (∀ query response,
          _call_api query api_login api_password = Ret response →
          length (overview_entries (response_entries response)) ≤ 1) →
       ∃ web_items ai_overview,
         search_web urlparse_netloc _call_api topic from_date to_date
           api_login api_password "quick"
         = Ret (web_items, ai_overview)
         ∧ NoDup (id <$> web_items)).
Proof.
  split_and!.
  - intros ov i refs. apply normalize_refs_ids_NoDup.
  - apply normalize_results_ids_NoDup.
  - intros topic from_date to_date api_login api_password Hone.
    destruct (search_web_items topic from_date to_date api_login
                api_password "quick") as [ai_overview Hsearch].
    eexists _, ai_overview. split; [exact Hsearch|].
    rewrite merge_queries_first_occurrences.
    eapply sublist_NoDup;
      [|apply fmap_sublist, first_occurrences_sublist].
    change (_build_structured_queries topic "quick")
      with [ "What are the biggest " +:+ topic
             +:+ " trends and what's driving them?" ].
    unfold answered_items. cbn [omap list_omap].
    destruct (_call_api _ api_login api_password) as [response|] eqn:E;
      simpl; [|constructor].
    rewrite app_nil_r. eapply normalize_results_ids_NoDup, Hone, E.
Qed.

End item_ids.

Lemma ids_distinct_within_entry_witness :
  let response :=
    Samples.overview_response
      [ Samples.titled_ref "https://a.example/"; Samples.no_text_ref;
        Samples.titled_ref "https://b.example/" ] in
  length (overview_entries (response_entries response)) ≤ 1
  ∧ NoDup (DataForSEO.id <$>
             (DataForSEO._normalize_results DataForSEO.netloc_of_url
                response "2025-01-01" "2025-01-31").1).
Proof.
  intros response.
  assert (length (overview_entries (response_entries response)) ≤ 1)
    as Hone by (vm_compute; lia).
  split; [exact Hone|].
  exact (proj1 (proj2 (ids_distinct_within_entry DataForSEO.netloc_of_url
                         Samples.one_ref_api))
           response "2025-01-01" "2025-01-31" Hone).
Defined.

Example normalize_results_ids_sample :
  DataForSEO.id <$>
    (DataForSEO._normalize_results DataForSEO.netloc_of_url
       (Samples.overview_response
          [ Samples.titled_ref "https://a.example/"; Samples.no_text_ref;
            Samples.titled_ref "https://b.example/" ])
       "2025-01-01" "2025-01-31").1
  = ["D1"; "D3"].
Proof. reflexivity. Qed.

(** C8 as stated fails: a call of depth "default" issues two queries;
    when each is answered with one reference, of different URLs, both
    items are returned and both carry the id "D1". *)
Lemma search_web_ids_counterexample :
  ∃ web_items ai_overview,
    DataForSEO.search_web DataForSEO.netloc_of_url Samples.one_ref_api
      "bikes" "2025-01-01" "2025-01-31" "login" "password" "default"
    = Ret (web_items, ai_overview)
    ∧ DataForSEO.url <$> web_items
      = ["https://site.example/Wha"; "https://site.example/Who"]
    ∧ DataForSEO.id <$> web_items = ["D1"; "D1"]
    ∧ ¬ NoDup (DataForSEO.id <$> web_items).
Proof.
  eexists _, _. split; [vm_compute; reflexivity|].
  split_and!; [reflexivity..|].
  intros Hnd. simpl in Hnd. apply NoDup_cons in Hnd as [Hin _].
  apply Hin, list_elem_of_here.
Qed.

(** ** Query Builder, video source *)
Section core_subject.
Import PyStr YouTube.

Implicit Types (p : ascii → bool) (l : list ascii).

Lemma drop_while_nil p l :
  drop_while p l = [] ↔ Forall (λ c, p c = true) l.
Proof.
  induction l as [|c l IH]; simpl.
  - split; [constructor|done].
  - destruct (p c) eqn:E.
    + rewrite IH. split; [by constructor|by inv 1].
    + split; [done|]. inv 1. congruence.
Qed.

Lemma drop_while_keep p l c :
  p c = false → drop_while p (l ++ [c]) = drop_while p l ++ [c].
Proof.
  intros Hc. induction l as [|c' l IH]; simpl.
  - by rewrite Hc.
  - by destruct (p c').
Qed.

Lemma drop_while_head p l c l' :
  drop_while p l = c :: l' → p c = false.
Proof.
  induction l as [|c' l IH]; simpl; [done|].
  destruct (p c') eqn:E; [done|]. by intros [= <- _].
Qed.

Lemma rstrip_by_empty p s :
  rstrip_by p s = "" ↔ Forall (λ c, p c = true) (chars s).
Proof.
  unfold rstrip_by. rewrite str_nil_iff. split.
  - intros H. apply (f_equal reverse) in H.
    rewrite reverse_involutive, reverse_nil in H.
    apply drop_while_nil in H. by apply (Forall_reverse _ (chars s)).
  - intros H. apply (Forall_reverse _ (chars s)), drop_while_nil in H.
    by rewrite H.
Qed.

(** Nothing is stripped from a text whose last character stays. *)
Lemma rstrip_by_last p s c :
  last (chars s) = Some c → p c = false → rstrip_by p s = s.
Proof.
  intros Hlast Hc. apply last_Some in Hlast as [l' E].
  unfold rstrip_by. rewrite E, reverse_snoc. simpl. rewrite Hc.
  rewrite reverse_cons, reverse_involutive, <- E. apply str_chars.
Qed.

Lemma drop_while_trimmed_head l c :
  head (drop_while is_space l) = Some c → is_space c = false.
Proof.
  destruct (drop_while is_space l) as [|c' l'] eqn:E; [done|].
  intros [= <-]. by eapply drop_while_head.
Qed.

Lemma strip_trimmed s : trimmed (strip s).
Proof.
  unfold trimmed, strip, rstrip_by, lstrip_by. rewrite !chars_str.
  set (l1 := drop_while is_space (chars s)).
  split; intros c Hc.
  - destruct l1 as [|c1 l1'] eqn:E1; [done|].
    assert (is_space c1 = false) as Hc1
      by (eapply drop_while_head; exact E1).
    rewrite reverse_cons, drop_while_keep, reverse_snoc in Hc by done.
    by injection Hc as <-.
  - rewrite last_reverse in Hc. by eapply drop_while_trimmed_head.
Qed.

Lemma strip_prefix_trimmed text pre :
  trimmed text → trimmed (strip_prefix text pre).
Proof.
  intros Ht. unfold strip_prefix.
  destruct (startswith text (pre +:+ " ")); [apply strip_trimmed|done].
Qed.

Lemma cleaned_text_trimmed topic : trimmed (cleaned_text topic).
Proof.
  unfold cleaned_text, strip_prefixes.
  generalize (strip_trimmed (lower topic)).
  generalize (strip (lower topic)). generalize prefixes.
  intros pres. induction pres as [|pre pres IH]; intros text Ht; [done|].
  simpl. by apply IH, strip_prefix_trimmed.
Qed.

(** Every character of the word being read and every non-space
    character still to be read ends up in some word. *)
Lemma split_go_covers l : ∀ cur c,
  (c ∈ cur ∨ (c ∈ l ∧ is_space c = false)) →
  ∃ w, w ∈ split_go cur l ∧ c ∈ chars w.
Proof.
  induction l as [|c' l IH]; intros cur c Hc; simpl.
  - destruct Hc as [Hc|[Hc _]]; [|by apply elem_of_nil in Hc].
    destruct cur as [|c0 cur0] eqn:E; [by apply elem_of_nil in Hc|].
    rewrite <- E in *. exists (str (reverse cur)).
    split; [apply list_elem_of_here|].
    by rewrite chars_str, elem_of_reverse.
  - destruct (is_space c') eqn:Hsp.
    + destruct Hc as [Hc|[Hc Hns]].
      * destruct cur as [|c0 cur0] eqn:E; [by apply elem_of_nil in Hc|].
        rewrite <- E in *. exists (str (reverse cur)).
        split; [apply list_elem_of_here|].
        by rewrite chars_str, elem_of_reverse.
      * apply elem_of_cons in Hc as [->|Hc]; [congruence|].
        destruct (IH [] c) as (w & Hw & Hcw); [by right|].
        exists w. split; [|done].
        destruct cur; [done|by apply list_elem_of_further].
    + apply IH. destruct Hc as [Hc|[Hc Hns]].
      * left. by apply list_elem_of_further.
      * apply elem_of_cons in Hc as [->|Hc].
        -- left. apply list_elem_of_here.
        -- by right.
Qed.

Lemma split_covers s c :
  c ∈ chars s → is_space c = false → ∃ w, w ∈ split s ∧ c ∈ chars w.
Proof. intros Hc Hns. apply split_go_covers. by right. Qed.

Lemma split_empty : split "" = [].
Proof. reflexivity. Qed.

(** No stoplist word holds a character that [rstrip('?!.')] removes. *)
Lemma noise_word_chars w c :
  is_noise w = true → c ∈ chars w → mem_char "?!." c = false.
Proof.
  unfold is_noise, noise. intros Hw%bool_decide_eq_true_1 Hc.
  apply elem_of_list_to_set in Hw.
  assert (Forall (λ w, Forall (λ c, mem_char "?!." c = false) (chars w))
            noise_words) as Hall.
  { apply (bool_decide_unpack _). by vm_compute. }
  rewrite Forall_forall in Hall. specialize (Hall w Hw).
  rewrite Forall_forall in Hall. by apply Hall.
Qed.

(** When every word is on the stoplist, nothing is stripped from the
    end of the text. *)
Lemma rstrip_all_noise text :
  trimmed text → filtered_words text = [] →
  rstrip "?!." text = text.
Proof.
  intros [_ Hlast] Hnone. unfold rstrip.
  destruct (last (chars text)) as [c|] eqn:E.
  - apply (rstrip_by_last _ _ c); [done|].
    destruct (split_covers text c) as (w & Hw & Hc).
    + apply last_Some in E as [l' ->]. apply elem_of_app. right.
      apply list_elem_of_here.
    + by apply Hlast.
    + apply (noise_word_chars w); [|done].
      destruct (is_noise w) eqn:Hn; [done|].
      exfalso. by eapply (filter_nil_not_elem_of _ _ w Hnone).
  - apply last_None in E. apply chars_empty in E. by subst text.
Qed.

Lemma join_two_has_space w1 w2 ws :
  " "%char ∈ chars (join " " (w1 :: w2 :: ws)).
Proof.
  change (join " " (w1 :: w2 :: ws))
    with (w1 +:+ " " +:+ join " " (w2 :: ws)).
  rewrite !chars_app. apply elem_of_app. right.
  apply elem_of_app. left. apply list_elem_of_here.
Qed.

(** C6, as amended.  The cleaner lower-cases and trims the topic, strips
    the prefixes, removes the stoplist words and strips trailing '?',
    '!' and '.'.  When the stoplist removal leaves no word it falls back
    to the lower-cased, trimmed, prefix-stripped text (not to the
    original topic).  Its result is empty exactly when that text is
    empty or the only word left consists of '?', '!' and '.' alone. *)
Theorem extract_core_subject_empty_iff (topic : string) :
  let text := cleaned_text topic in
  let filtered := filtered_words text in
  (filtered = [] → _extract_core_subject topic = text)
  ∧ (filtered ≠ [] →
       _extract_core_subject topic = rstrip "?!." (join " " filtered))
  ∧ (_extract_core_subject topic = "" ↔
       text = "" ∨ ∃ w, filtered = [w] ∧ all_punct w).
Proof.
  intros text filtered.
  assert (filtered = [] → _extract_core_subject topic = text) as Hfallback.
  { intros Hnone. unfold _extract_core_subject.
    fold text. fold filtered. rewrite Hnone.
    apply rstrip_all_noise; [apply cleaned_text_trimmed|done]. }
  assert (filtered ≠ [] →
          _extract_core_subject topic = rstrip "?!." (join " " filtered))
    as Hjoin.
  { intros Hsome. unfold _extract_core_subject.
    fold text. fold filtered. by destruct filtered. }
  split_and!; [done..|].
  destruct filtered as [|w1 [|w2 ws]] eqn:E.
  - rewrite Hfallback by done. split; [by left|].
    intros [?|(w & [=] & _)]. done.
  - rewrite Hjoin by done. simpl. unfold rstrip.
    rewrite rstrip_by_empty. split.
    + intros Hp. right. by exists w1.
    + intros [Htext|(w & [= <-] & Hp)]; [|done].
      exfalso. subst filtered. unfold filtered_words in E.
      by rewrite Htext in E.
  - rewrite Hjoin by done. unfold rstrip. rewrite rstrip_by_empty.
    split.
    + intros Hp. exfalso.
      rewrite Forall_forall in Hp.
      by specialize (Hp _ (join_two_has_space w1 w2 ws)).
    + intros [Htext|(w & [=] & _)].
      exfalso. subst filtered. unfold filtered_words in E.
      by rewrite Htext in E.
Qed.

Lemma extract_core_subject_empty_iff_witness :
  filtered_words (cleaned_text "What are the best Top New") = []
  ∧ _extract_core_subject "What are the best Top New" = "top new".
Proof.
  assert (filtered_words (cleaned_text "What are the best Top New") = [])
    as Hnone by reflexivity.
  split; [exact Hnone|].
  exact (proj1 (extract_core_subject_empty_iff
                  "What are the best Top New") Hnone).
Defined.

(** C6 as stated fails: a topic of punctuation alone gives the empty
    query, and the fallback is the lower-cased, prefix-stripped text
    rather than the trimmed original. *)
Lemma extract_core_subject_counterexample :
  _extract_core_subject "?" = ""
  ∧ _extract_core_subject "how to use ?" = ""
  ∧ filtered_words (cleaned_text " How to Best ") = []
  ∧ _extract_core_subject " How to Best " = "best"
  ∧ _extract_core_subject " How to Best " ≠ strip " How to Best ".
Proof. by vm_compute. Qed.

End core_subject.

(** * Further properties *)

(** ** Words *)
Section words.
Import PyStr.

Implicit Types (l cur : list ascii) (w : string) (ws : list string).

Lemma split_go_nonspace (run : list ascii) : ∀ cur l,
  Forall (λ c, is_space c = false) run →
  split_go cur (run ++ l) = split_go (reverse run ++ cur) l.
Proof.
  induction run as [|c run IH]; intros cur l Hw; [done|].
  apply Forall_cons in Hw as [Hc Hw]. simpl. rewrite Hc, IH by done.
  by rewrite reverse_cons, <- app_assoc.
Qed.

Lemma is_word_chars w : is_word w → chars w ≠ [].
Proof. intros [Hne _] E. by apply chars_empty in E. Qed.

Lemma split_word w : is_word w → split w = [w].
Proof.
  intros Hw. unfold split.
  rewrite <- (app_nil_r (chars w)), split_go_nonspace by apply Hw.
  rewrite app_nil_r. simpl.
  destruct (reverse (chars w)) as [|c r] eqn:E.
  - apply (f_equal reverse) in E. rewrite reverse_involutive in E.
    by apply is_word_chars in Hw.
  - by rewrite <- E, reverse_involutive, str_chars.
Qed.

Lemma split_word_space w l :
  is_word w →
  split_go [] (chars w ++ " "%char :: l) = w :: split_go [] l.
Proof.
  intros Hw. rewrite split_go_nonspace by apply Hw.
  rewrite app_nil_r. simpl.
  destruct (reverse (chars w)) as [|c r] eqn:E.
  - apply (f_equal reverse) in E. rewrite reverse_involutive in E.
    by apply is_word_chars in Hw.
  - by rewrite <- E, reverse_involutive, str_chars.
Qed.

Lemma join_cons_cons sep w w2 ws :
  join sep (w :: w2 :: ws) = w +:+ sep +:+ join sep (w2 :: ws).
Proof. reflexivity. Qed.

(** Splitting undoes joining with single spaces. *)
Lemma split_join ws : Forall is_word ws → split (join " " ws) = ws.
Proof.
  induction ws as [|w [|w2 ws] IH]; intros Hws; [done|..].
  - apply split_word. by apply Forall_cons in Hws as [? _].
  - apply Forall_cons in Hws as [Hw Hws].
    rewrite join_cons_cons. unfold split. rewrite !chars_app.
    change (chars " ") with [" "%char]. simpl.
    rewrite split_word_space by done. f_equal. by apply IH.
Qed.

(** The words [split] finds are words. *)
Lemma split_go_words l : ∀ cur,
  Forall (λ c, is_space c = false) cur →
  Forall is_word (split_go cur l).
Proof.
  assert (∀ cur, cur ≠ [] → Forall (λ c, is_space c = false) cur →
            is_word (str (reverse cur))) as Hword.
  { intros cur Hne Hcur. split.
    - intros E%str_nil_iff. apply (f_equal reverse) in E.
      by rewrite reverse_involutive in E.
    - rewrite chars_str. by apply Forall_reverse. }
  induction l as [|c l IH]; intros cur Hcur; simpl.
  - destruct cur as [|c0 cur0] eqn:E; [constructor|].
    rewrite <- E in *. constructor; [|constructor].
    apply Hword; [by rewrite E|done].
  - destruct (is_space c) eqn:Hc.
    + destruct cur as [|c0 cur0] eqn:E; [by apply IH|].
      rewrite <- E in *. constructor; [|by apply IH].
      apply Hword; [by rewrite E|done].
    + apply IH. by constructor.
Qed.

Lemma split_words s : Forall is_word (split s).
Proof. by apply split_go_words. Qed.

Lemma is_word_app w t :
  is_word w → Forall (λ c, is_space c = false) (chars t) →
  is_word (w +:+ t).
Proof.
  intros [Hne Hw] Ht. split.
  - intros E%chars_empty. rewrite chars_app in E.
    apply app_eq_nil in E as [E _]. by apply chars_empty in E.
  - rewrite chars_app. by apply Forall_app.
Qed.

Lemma append_assoc (a b c : string) : (a +:+ b) +:+ c = a +:+ b +:+ c.
Proof. apply chars_inj. by rewrite !chars_app, app_assoc. Qed.

(** Text appended to a joined list lands on its last word. *)
Lemma join_snoc_append sep ws w t :
  join sep (ws ++ [w]) +:+ t = join sep (ws ++ [w +:+ t]).
Proof.
  induction ws as [|w1 ws IH]; [done|].
  destruct ws as [|w2 ws].
  - simpl. by rewrite !append_assoc.
  - change ((w1 :: w2 :: ws) ++ [w]) with (w1 :: w2 :: (ws ++ [w])).
    change ((w1 :: w2 :: ws) ++ [w +:+ t])
      with (w1 :: w2 :: (ws ++ [w +:+ t])).
    rewrite !join_cons_cons, !append_assoc. do 2 f_equal. apply IH.
Qed.

End words.

(** ** Truncation to a word budget *)
Section truncation.
Import PyStr.

Lemma dots_nonspace : Forall (λ c, is_space c = false) (chars "...").
Proof. repeat constructor. Qed.

(** The words of a text cut after its first [n] words. *)
Lemma split_cut_words (ws : list string) (n : nat) :
  Forall is_word ws → 0 < n → n < length ws →
  ∃ w, ws !! (n - 1) = Some w
     ∧ join " " (take n ws) +:+ "..."
       = join " " (take (n - 1) ws ++ [w +:+ "..."])
     ∧ split (join " " (take n ws) +:+ "...")
       = take (n - 1) ws ++ [w +:+ "..."].
Proof.
  intros Hws Hn Hlen.
  destruct (lookup_lt_is_Some_2 ws (n - 1)) as [w Hw]; [lia|].
  exists w. split; [done|].
  assert (take n ws = take (n - 1) ws ++ [w]) as ->.
  { replace n with (S (n - 1)) at 1 by lia. by apply take_S_r. }
  rewrite join_snoc_append. split; [done|].
  apply split_join, Forall_app. split.
  - by apply Forall_take.
  - constructor; [|constructor]. apply is_word_app; [|apply dots_nonspace].
    rewrite Forall_forall in Hws. apply Hws.
    by eapply list_elem_of_lookup_2.
Qed.

Lemma truncate_cases (text : string) (max_words : nat) :
  0 < max_words →
  (length (split text) ≤ max_words →
     Supadata._truncate text max_words = text)
  ∧ (max_words < length (split text) →
       ∃ w, split text !! (max_words - 1) = Some w
          ∧ Supadata._truncate text max_words
            = join " " (take (max_words - 1) (split text) ++ [w +:+ "..."])
          ∧ split (Supadata._truncate text max_words)
            = take (max_words - 1) (split text) ++ [w +:+ "..."]).
Proof.
  intros Hn. unfold Supadata._truncate.
  case_bool_decide as Hlong.
  - destruct (split_cut_words (split text) max_words
                (split_words text) Hn Hlong) as (w & Hw & Hjoin & Hsplit).
    split; [intros; lia|].
    intros _. exists w. by rewrite <- Hjoin.
  - split; [done|intros; lia].
Qed.

Lemma truncate_length (text : string) (max_words : nat) :
  0 < max_words →
  length (split (Supadata._truncate text max_words))
    = max_words `min` length (split text).
Proof.
  intros Hn. destruct (truncate_cases text max_words Hn) as [Hshort Hlong].
  destruct (decide (max_words < length (split text))) as [H|H].
  - destruct (Hlong H) as (w & _ & _ & ->).
    rewrite length_app, length_take. simpl. lia.
  - rewrite Hshort by lia. lia.
Qed.

(** X1. [_truncate] leaves a text of at most [max_words] words as it is;
    a longer text becomes its first [max_words] words, single-spaced, the
    last one followed by "...", so that the result never has more than
    [max_words] words. *)
Theorem truncate_words (text : string) (max_words : nat) :
  0 < max_words →
  (length (split text) ≤ max_words →
     Supadata._truncate text max_words = text)
  ∧ (max_words < length (split text) →
       ∃ w, split text !! (max_words - 1) = Some w
          ∧ Supadata._truncate text max_words
            = join " " (take (max_words - 1) (split text) ++ [w +:+ "..."])
          ∧ split (Supadata._truncate text max_words)
            = take (max_words - 1) (split text) ++ [w +:+ "..."])
  ∧ length (split (Supadata._truncate text max_words))
    = max_words `min` length (split text).
Proof.
  intros Hn. destruct (truncate_cases text max_words Hn) as [Hshort Hlong].
  split_and!; [done|done|by apply truncate_length].
Qed.

Lemma truncate_words_witness :
  0 < 3
  ∧ 3 < length (split "  the quick  brown fox jumps ")
  ∧ ∃ w, split "  the quick  brown fox jumps " !! (3 - 1) = Some w
       ∧ Supadata._truncate "  the quick  brown fox jumps " 3
         = join " " (take (3 - 1) (split "  the quick  brown fox jumps ")
                     ++ [w +:+ "..."])
       ∧ split (Supadata._truncate "  the quick  brown fox jumps " 3)
         = take (3 - 1) (split "  the quick  brown fox jumps ")
           ++ [w +:+ "..."].
Proof.
  assert (0 < 3) as Hn by lia.
  assert (3 < length (split "  the quick  brown fox jumps ")) as Hlong
    by (vm_compute; lia).
  split_and!; [exact Hn|exact Hlong|].
  exact (proj1 (proj2 (truncate_words "  the quick  brown fox jumps " 3 Hn))
           Hlong).
Defined.

Example truncate_sample :
  Supadata._truncate "  the quick  brown fox jumps " 3 = "the quick brown..."
  ∧ Supadata._truncate "  the quick  brown fox jumps " 5
    = "  the quick  brown fox jumps ".
Proof. split; reflexivity. Qed.

(** X2. Truncating twice is truncating once. *)
Theorem truncate_idempotent (text : string) (max_words : nat) :
  0 < max_words →
  Supadata._truncate (Supadata._truncate text max_words) max_words
    = Supadata._truncate text max_words.
Proof.
  intros Hn. pose proof (truncate_length text max_words Hn) as Hlen.
  unfold Supadata._truncate at 1.
  rewrite bool_decide_eq_false_2; [done|lia].
Qed.

Lemma truncate_idempotent_witness :
  0 < 2
  ∧ Supadata._truncate (Supadata._truncate "a b c d" 2) 2
    = Supadata._truncate "a b c d" 2.
Proof.
  assert (0 < 2) as Hn by lia.
  split; [exact Hn|exact (truncate_idempotent "a b c d" 2 Hn)].
Defined.

End truncation.

(** ** Transcript fetch, transcript service *)
Section supadata_fetch.
Import PyStr Supadata.

Variable transcribe : string → string → transcribe_reply.
Variable status_request : string → string → nat → poll_reply.

(** With its default budget the poller ends without raising, with some
    content or with null. *)
Lemma poll_content_ret job_id api_key :
  ∃ v, poll_content status_request job_id api_key = Ret v
     ∧ ∀ c, v = Some c → c ≠ "".
Proof.
  unfold poll_content, _poll_job.
  assert (0 < 3)%Z as Hpos by lia.
  destruct (loop_terminates (status_request job_id api_key) 60 3 Hpos
              (S (Z.to_nat 60)) 0 0) as [run Hrun]; [lia|].
  rewrite Hrun.
  apply (loop_classify _ _ _ Hpos) in Hrun as (k & _ & _ & Hcase).
  destruct Hcase as [[_ ->]|(_ & _ & ->)]; simpl.
  - exists None. by split.
  - eexists. split; [done|].
    intros c Hc. by apply terminal_result_some in Hc as [_ ?].
Qed.

Lemma transcript_of_words content t :
  transcript_of content = Some t →
  t = _truncate (strip content) TRANSCRIPT_MAX_WORDS
  ∧ length (split t) ≤ TRANSCRIPT_MAX_WORDS.
Proof.
  unfold transcript_of. destruct (truthy content); [|done].
  intros [= <-]. split; [done|].
  rewrite truncate_length by (unfold TRANSCRIPT_MAX_WORDS; lia). lia.
Qed.

Lemma transcript_of_job_ret api_key data :
  ∃ r, transcript_of_job status_request api_key data = Ret r
     ∧ ∀ t, r = Some t → length (split t) ≤ TRANSCRIPT_MAX_WORDS.
Proof.
  unfold transcript_of_job.
  destruct (truthy (or_empty (body_jobId data))); simpl.
  - destruct (poll_content_ret (or_empty (body_jobId data)) api_key)
      as (v & -> & _). simpl.
    eexists. split; [done|].
    destruct v as [c|]; [|done].
    intros t Ht. by apply transcript_of_words in Ht as [_ ?].
  - exists None. by split.
Qed.

Lemma supadata_fetch_transcript_total (video_url api_key : string) :
  ∃ r, fetch_transcript transcribe status_request video_url api_key = Ret r.
Proof.
  unfold fetch_transcript.
  destruct (truthy api_key); simpl; [|by eexists].
  destruct (transcribe video_url api_key) as [status data|code data| |];
    [| |by eexists..].
  - destruct data as [data|]; simpl; [|by eexists].
    case_bool_decide; [by eexists|].
    case_bool_decide; [|by eexists].
    destruct (transcript_of_job_ret api_key data) as (r & -> & _).
    by eexists.
  - case_bool_decide; [|by eexists].
    destruct data as [data|]; simpl; [|by eexists].
    destruct (transcript_of_job_ret api_key data) as (r & -> & _).
    by eexists.
Qed.

(** X3. [fetch_transcript] never raises, whatever the two endpoints do;
    a transcript it returns has at most 500 words; without an API key it
    returns null whatever the endpoints would answer. *)
Theorem supadata_fetch_transcript_safe (video_url api_key : string) :
  ∃ r, fetch_transcript transcribe status_request video_url api_key = Ret r
     ∧ (∀ t, r = Some t → length (split t) ≤ 500)
     ∧ (api_key = "" → r = None).
Proof.
  unfold fetch_transcript.
  destruct (truthy api_key) eqn:Hkey; simpl;
    [|exists None; by split_and!].
  apply truthy_true in Hkey.
  assert (∀ m : py (option string),
            (∃ r, m = Ret r ∧ ∀ t, r = Some t → length (split t) ≤ 500) →
            ∃ r, m = Ret r
               ∧ (∀ t, r = Some t → length (split t) ≤ 500)
               ∧ (api_key = "" → r = None)) as Hfin.
  { intros m (r & -> & Hr). exists r. by split_and!. }
  assert (∃ r : option string,
            Ret None = Ret r
            ∧ ∀ t, r = Some t → length (split t) ≤ 500) as Hnone
    by (exists None; by split).
  apply Hfin.
  destruct (transcribe video_url api_key) as [status data|code data| |];
    [| |done..].
  - destruct data as [data|]; simpl; [|done].
    case_bool_decide.
    + eexists. split; [done|]. intros t Ht.
      by apply transcript_of_words in Ht as [_ ?].
    + case_bool_decide; [|done].
      destruct (transcript_of_job_ret api_key data) as (r & -> & Hr).
      by exists r.
  - case_bool_decide; [|done].
    destruct data as [data|]; simpl; [|done].
    destruct (transcript_of_job_ret api_key data) as (r & -> & Hr).
    by exists r.
Qed.

(** X4. With an API key, [fetch_transcript] returns null when the reply
    has a status other than 200 and 202, when the request fails with an
    HTTP error other than 202 or with a network or other error, when the
    body cannot be decoded, when a 200 reply has no content and when a
    202 reply has no job id; a 200 reply with content gives that content
    trimmed and truncated. *)
Theorem supadata_fetch_transcript_replies (video_url api_key : string) :
  api_key ≠ "" →
  let fetched :=
    fetch_transcript transcribe status_request video_url api_key in
  let reply := transcribe video_url api_key in
  (∀ status data, reply = Responded status data →
     status ≠ 200%Z → status ≠ 202%Z → fetched = Ret None)
  ∧ (∀ code data, reply = HttpFailed code data →
       code ≠ 202%Z → fetched = Ret None)
  ∧ (reply = NetworkFailed ∨ reply = OtherFailed → fetched = Ret None)
  ∧ (∀ status, reply = Responded status Raise ∨ reply = HttpFailed status Raise
       → fetched = Ret None)
  ∧ (∀ data, reply = Responded 200 (Ret data) →
       (or_empty (body_content data) = "" → fetched = Ret None)
       ∧ (or_empty (body_content data) ≠ "" →
            fetched
            = Ret (Some (_truncate (strip (or_empty (body_content data)))
                           500))))
  ∧ (∀ data, reply = Responded 202 (Ret data) ∨ reply = HttpFailed 202 (Ret data) →
       or_empty (body_jobId data) = "" → fetched = Ret None).
Proof.
  intros Hkey fetched reply. subst fetched reply. unfold fetch_transcript.
  apply truthy_true in Hkey. rewrite Hkey. simpl.
  split_and!.
  - intros status data -> H200 H202.
    destruct data as [data|]; simpl; [|done].
    by rewrite !bool_decide_eq_false_2.
  - intros code data -> H202. by rewrite bool_decide_eq_false_2.
  - by intros [-> | ->].
  - intros status [-> | ->]; [done|]. by case_bool_decide.
  - intros data ->. simpl. unfold transcript_of. split.
    + by intros ->.
    + intros Hc%truthy_true. by rewrite Hc.
  - intros data [-> | ->] Hjob; simpl; unfold transcript_of_job;
      by rewrite Hjob.
Qed.

(** X5. The asynchronous path gives what the synchronous one would: when
    a 202 reply (or a 202 raised as an HTTP error) names a job and the
    first status request to leave "processing", made within the budget of
    60 at interval 3, reports the job completed with content [c], the
    transcript is [c] trimmed and truncated; when it reports a failure or
    raises, or the budget runs out first, the result is null. *)
Theorem supadata_fetch_transcript_async (video_url api_key : string)
    (data : Body) (k : nat) :
  api_key ≠ "" →
  transcribe video_url api_key = Responded 202 (Ret data)
  ∨ transcribe video_url api_key = HttpFailed 202 (Ret data) →
  or_empty (body_jobId data) ≠ "" →
  let reply := status_request (or_empty (body_jobId data)) api_key in
  (∀ j, j < k → still_processing (reply j)) →
  let fetched :=
    fetch_transcript transcribe status_request video_url api_key in
  (k < 20 → ∀ c, reply k = PollData (Some "completed") (Some c) → c ≠ "" →
     fetched = Ret (Some (_truncate (strip c) 500)))
  ∧ (k < 20 →
       reply k = PollRaises ∨ (∃ c, reply k = PollData (Some "failed") c) →
       fetched = Ret None)
  ∧ (20 ≤ k → fetched = Ret None).
Proof.
  intros Hkey Hreply Hjob reply Hbefore fetched.
  assert (fetched
          = (content ← poll_content status_request
                         (or_empty (body_jobId data)) api_key;
             Ret (match content with
                  | Some c => transcript_of c
                  | None => None
                  end))) as ->.
  { subst fetched. unfold fetch_transcript.
    apply truthy_true in Hkey. rewrite Hkey. simpl.
    apply truthy_true in Hjob.
    destruct (poll_content_ret (or_empty (body_jobId data)) api_key)
      as (v & Hv & _).
    destruct Hreply as [-> | ->]; simpl; unfold transcript_of_job;
      rewrite Hjob; simpl; by rewrite Hv. }
  assert (0 < 3)%Z as Hpos by lia.
  unfold poll_content. fold reply.
  split_and!.
  - intros Hk c Hdone Hc.
    rewrite (poll_job_reached status_request _ api_key 60 3 k Hpos);
      [|lia|done|fold reply; rewrite Hdone; simpl; tauto].
    fold reply. rewrite Hdone. simpl. unfold terminal_result. simpl.
    apply truthy_true in Hc. rewrite Hc. simpl.
    unfold transcript_of. by rewrite Hc.
  - intros Hk Hend.
    rewrite (poll_job_reached status_request _ api_key 60 3 k Hpos);
      [|lia|done|].
    + fold reply. by destruct Hend as [-> | [c ->]].
    + fold reply. destruct Hend as [-> | [c ->]]; simpl; tauto.
  - intros Hk. unfold _poll_job.
    change (S (Z.to_nat 60)) with (20 + 41).
    rewrite (loop_reach reply 60 3 Hpos 20); [|intros; apply Hbefore; lia|].
    + by rewrite loop_out_of_budget by (simpl; lia).
    + right. lia.
Qed.

End supadata_fetch.

Lemma supadata_fetch_transcript_safe_witness :
  ∃ r, Supadata.fetch_transcript Samples.answers_at_once
         Samples.completes_at_third "https://youtu.be/x" "" = Ret r
     ∧ r = None.
Proof.
  destruct (supadata_fetch_transcript_safe Samples.answers_at_once
              Samples.completes_at_third "https://youtu.be/x" "")
    as (r & Hr & _ & Hnone).
  exists r. split; [exact Hr|exact (Hnone eq_refl)].
Defined.

Lemma supadata_fetch_transcript_replies_witness :
  "key" ≠ ""
  ∧ Supadata.fetch_transcript Samples.answers_at_once
      Samples.completes_at_third "https://youtu.be/x" "key"
    = Ret (Some (Supadata._truncate (PyStr.strip "  hello   world ") 500)).
Proof.
  assert ("key" ≠ "") as Hkey by discriminate.
  split; [exact Hkey|].
  destruct (supadata_fetch_transcript_replies Samples.answers_at_once
              Samples.completes_at_third "https://youtu.be/x" "key" Hkey)
    as (_ & _ & _ & _ & Hsync & _).
  destruct (Hsync _ eq_refl) as [_ Hcontent].
  apply Hcontent. discriminate.
Defined.

Lemma supadata_fetch_transcript_async_witness :
  "key" ≠ ""
  ∧ Supadata.fetch_transcript Samples.starts_job
      Samples.completes_at_third "https://youtu.be/x" "key"
    = Ret (Some (Supadata._truncate (PyStr.strip "hello world") 500)).
Proof.
  assert ("key" ≠ "") as Hkey by discriminate.
  split; [exact Hkey|].
  refine (proj1 (supadata_fetch_transcript_async Samples.starts_job
                   Samples.completes_at_third "https://youtu.be/x" "key"
                   _ 2 Hkey (or_introl eq_refl) _ _)
            _ "hello world" eq_refl _).
  - discriminate.
  - intros j Hj. unfold Samples.completes_at_third.
    rewrite bool_decide_eq_true_2 by exact Hj. simpl. split; discriminate.
  - lia.
  - discriminate.
Defined.

Example supadata_fetch_transcript_samples :
  Supadata.fetch_transcript Samples.answers_at_once
    Samples.completes_at_third "https://youtu.be/x" "key"
  = Ret (Some "hello   world")
  ∧ Supadata.fetch_transcript Samples.starts_job
      Samples.completes_at_third "https://youtu.be/x" "key"
    = Ret (Some "hello world")
  ∧ Supadata.fetch_transcript Samples.starts_job
      Samples.always_active "https://youtu.be/x" "key"
    = Ret None.
Proof. split_and!; reflexivity. Qed.

(** ** The batch fetcher over [fetch_transcript] *)
Section supadata_batch.
Import Futures Supadata.

Variable transcribe : string → string → transcribe_reply.
Variable status_request : string → string → nat → poll_reply.

(** X6. With an API key and distinct URLs, every future of the batch
    fetcher run over [fetch_transcript] returns: the mapping has one entry
    per URL, holding what [fetch_transcript] returns for it, and its null
    entries are the URLs for which that is null. *)
Theorem supadata_batch_of_fetch
    (as_completed : list future → list future)
    (urls : list string) (api_key : string) :
  (∀ l, as_completed l ≡ₚ l) → NoDup urls → api_key ≠ "" →
  let fetch := fetch_transcript transcribe status_request in
  ∃ m, fetch_transcripts_batch fetch as_completed urls api_key = Ret m
     ∧ dom m = list_to_set urls
     ∧ (∀ url, url ∈ urls →
          fetch url api_key = Ret (default None (m !! url))
          ∧ is_Some (m !! url))
     ∧ null_count m
       = length (filter (λ url, settle (fetch url api_key) = None) urls)
     ∧ Forall (λ url, raises (fetch url api_key) = false) urls.
Proof.
  intros Hperm Hnd Hkey fetch.
  exists (settled (λ url, fetch url api_key) urls).
  split; [by apply fetch_transcripts_batch_settled|].
  split_and!.
  - apply settled_dom.
  - intros url Hurl. rewrite settled_lookup, decide_True by done. simpl.
    destruct (supadata_fetch_transcript_total transcribe status_request
                url api_key) as (r & Hr).
    subst fetch. rewrite Hr. by split.
  - by apply settled_null_count.
  - apply Forall_forall. intros url _.
    destruct (supadata_fetch_transcript_total transcribe status_request
                url api_key) as (r & Hr).
    subst fetch. by rewrite Hr.
Qed.

End supadata_batch.

Lemma supadata_batch_of_fetch_witness :
  (∀ l : list Futures.future, reverse l ≡ₚ l)
  ∧ NoDup ["https://youtu.be/x"; "https://youtu.be/y"]
  ∧ "key" ≠ ""
  ∧ ∃ m, Supadata.fetch_transcripts_batch
           (Supadata.fetch_transcript Samples.starts_job
              Samples.completes_at_third)
           reverse ["https://youtu.be/x"; "https://youtu.be/y"] "key"
         = Ret m
       ∧ dom m = list_to_set ["https://youtu.be/x"; "https://youtu.be/y"].
Proof.
  assert (∀ l : list Futures.future, reverse l ≡ₚ l) as Hperm
    by (intros l; apply reverse_Permutation).
  assert (NoDup ["https://youtu.be/x"; "https://youtu.be/y"]) as Hnd
    by (apply (bool_decide_unpack _); vm_compute; exact I).
  assert ("key" ≠ "") as Hkey by discriminate.
  split_and!; [exact Hperm|exact Hnd|exact Hkey|].
  destruct (supadata_batch_of_fetch Samples.starts_job
              Samples.completes_at_third reverse
              ["https://youtu.be/x"; "https://youtu.be/y"] "key"
              Hperm Hnd Hkey) as (m & Hm & Hdom & _).
  exists m. split; [exact Hm|exact Hdom].
Defined.

(** ** Sorting by views *)
Section sorting.
Import YouTube.

Implicit Types (x y : VideoItem) (l : list VideoItem).

Local Abbreviation views_of := (λ x : VideoItem, views (engagement x)).

Lemma insert_by_views_perm x l : insert_by_views x l ≡ₚ x :: l.
Proof.
  induction l as [|y l IH]; simpl; [done|].
  destruct (views_of y <=? views_of x)%Z; [done|].
  rewrite IH. apply Permutation_swap.
Qed.

Lemma sort_by_views_perm l : sort_by_views l ≡ₚ l.
Proof.
  induction l as [|x l IH]; simpl; [done|].
  rewrite insert_by_views_perm. by f_equiv.
Qed.

Lemma insert_by_views_sorted x l :
  StronglySorted (λ a b, (views_of b ≤ views_of a)%Z) l →
  StronglySorted (λ a b, (views_of b ≤ views_of a)%Z) (insert_by_views x l).
Proof.
  induction 1 as [|y l Hs IH Hy]; simpl.
  - repeat constructor.
  - destruct (views_of y <=? views_of x)%Z eqn:E.
    + apply Z.leb_le in E. constructor; [by constructor|].
      constructor; [done|].
      eapply Forall_impl; [exact Hy|]. simpl. intros; lia.
    + apply Z.leb_gt in E. constructor; [done|].
      rewrite insert_by_views_perm. constructor; [lia|done].
Qed.

Lemma sort_by_views_sorted l :
  StronglySorted (λ a b, (views_of b ≤ views_of a)%Z) (sort_by_views l).
Proof.
  induction l as [|x l IH]; simpl; [constructor|].
  by apply insert_by_views_sorted.
Qed.

Lemma insert_by_views_stable x l (v : Z) :
  filter (λ y, views_of y = v) (insert_by_views x l)
    = filter (λ y, views_of y = v) (x :: l).
Proof.
  induction l as [|y l IH]; simpl; [done|].
  destruct (views_of y <=? views_of x)%Z eqn:E; [done|].
  apply Z.leb_gt in E.
  rewrite (filter_cons _ y), IH, !filter_cons.
  destruct (decide (views_of y = v)), (decide (views_of x = v));
    try done; lia.
Qed.

Lemma sort_by_views_stable l (v : Z) :
  filter (λ y, views_of y = v) (sort_by_views l)
    = filter (λ y, views_of y = v) l.
Proof.
  induction l as [|x l IH]; simpl; [done|].
  rewrite insert_by_views_stable, !filter_cons, IH. done.
Qed.

(** X7. The sort of [search_youtube] rearranges the items so that no item
    comes after one with fewer views, and it is stable: items with the
    same view count keep the order they had. *)
Theorem sort_by_views_stable_sort l :
  sort_by_views l ≡ₚ l
  ∧ StronglySorted (λ a b, (views_of b ≤ views_of a)%Z) (sort_by_views l)
  ∧ ∀ v : Z, filter (λ y, views_of y = v) (sort_by_views l)
             = filter (λ y, views_of y = v) l.
Proof.
  split_and!.
  - apply sort_by_views_perm.
  - apply sort_by_views_sorted.
  - apply sort_by_views_stable.
Qed.

End sorting.

(** ** Search phase, video source *)
Section search_phase.
Import PyStr YouTube.

Variable search : SearchRequest → py SearchPage.

Lemma add_hits hits : ∀ st,
  all_video_ids (foldl add_hit st hits) = all_video_ids st ++ hit_ids hits
  ∧ requests (foldl add_hit st hits) = requests st
  ∧ dom (all_snippets (foldl add_hit st hits))
    = dom (all_snippets st) ∪ list_to_set (hit_ids hits).
Proof.
  unfold hit_ids.
  induction hits as [|hit hits IH]; intros st.
  - simpl. split_and!; [by rewrite app_nil_r|done|set_solver].
  - cbn [foldl]. destruct (IH (add_hit st hit)) as (Hids & Hreq & Hdom).
    rewrite Hids, Hreq, Hdom, fmap_cons, filter_cons. unfold add_hit.
    destruct (truthy (or_empty (hit_videoId hit))) eqn:Hvid.
    + apply truthy_true in Hvid. rewrite decide_True by done. simpl.
      split_and!; [by rewrite <- app_assoc|done|].
      rewrite dom_insert_L. set_solver.
    + apply truthy_false in Hvid. rewrite decide_False by (by intros ?).
      done.
Qed.

(** What a run of the loop adds: requests within the page size that
    together ask for no more than [remaining] results, and a snippet for
    every id. *)
Lemma search_loop_spec fuel : ∀ remaining page_token st,
  remaining < fuel →
  list_to_set (all_video_ids st) ⊆ dom (all_snippets st) →
  ∃ r, search_loop search fuel remaining page_token st = Some r
     ∧ ∀ st', r = Ret st' →
         ∃ new, requests st' = requests st ++ new
              ∧ Forall (λ q, 1 ≤ req_maxResults q ≤ 50) new
              ∧ sum_list (req_maxResults <$> new) ≤ remaining
              ∧ list_to_set (all_video_ids st')
                ⊆@{gset string} dom (all_snippets st').
Proof.
  induction fuel as [|fuel IH]; intros remaining page_token st Hfuel Hdom;
    [lia|].
  simpl. case_bool_decide as Hrem.
  - set (req := {| req_maxResults := remaining `min` 50;
                   req_pageToken := token_given page_token |}).
    destruct (search req) as [data|];
      [|eexists; split; [done|]; by intros st' [=]].
    set (st0 := {| all_video_ids := all_video_ids st;
                   all_snippets := all_snippets st;
                   requests := requests st ++ [req] |}).
    destruct (add_hits (page_items data) st0) as (Hids & Hreq & Hsn).
    assert (list_to_set (all_video_ids (foldl add_hit st0 (page_items data)))
            ⊆@{gset string}
            dom (all_snippets (foldl add_hit st0 (page_items data))))
      as Hdom1.
    { rewrite Hids, Hsn, list_to_set_app_L. simpl. set_solver. }
    destruct (truthy (or_empty (nextPageToken data))).
    + destruct (IH (remaining - remaining `min` 50) (nextPageToken data)
                  (foldl add_hit st0 (page_items data)))
        as (r & -> & Hr); [lia|done|].
      exists r. split; [done|]. intros st' ->.
      destruct (Hr st' eq_refl) as (new & Hnew & Hall & Hsum & Hdom').
      exists (req :: new). rewrite Hnew, Hreq.
      unfold st0. cbn [requests].
      change (sum_list (req_maxResults <$> req :: new))
        with (remaining `min` 50 + sum_list (req_maxResults <$> new)).
      split_and!; [by rewrite <- app_assoc| |lia|done].
      constructor; [cbn [req_maxResults req]; lia|done].
    + eexists. split; [done|]. intros st' [= <-].
      exists [req]. rewrite Hreq.
      unfold st0. cbn [requests].
      change (sum_list (req_maxResults <$> [req]))
        with (remaining `min` 50 + 0).
      split_and!; [done| |lia|done].
      constructor; [cbn [req_maxResults req]; lia|constructor].
  - eexists. split; [done|]. intros st' [= <-].
    exists []. rewrite app_nil_r. simpl.
    split_and!; [done|constructor|lia|done].
Qed.

(** X8. The search phase always ends.  When no call raises, no request
    asks for more than 50 results or for none, the requests together ask
    for no more than [count] results, and every video id gathered has its
    snippet recorded. *)
Theorem search_phase_bounded (count : nat) :
  ∃ r, search_phase search count = Some r
     ∧ ∀ st, r = Ret st →
         Forall (λ q, 1 ≤ req_maxResults q ≤ 50) (requests st)
         ∧ sum_list (req_maxResults <$> requests st) ≤ count
         ∧ ∀ vid, vid ∈ all_video_ids st →
                  is_Some (all_snippets st !! vid).
Proof.
  unfold search_phase.
  destruct (search_loop_spec (S count) count None
              {| all_video_ids := []; all_snippets := ∅; requests := [] |})
    as (r & Hr & Hst); [lia|simpl; set_solver|].
  exists r. split; [done|]. intros st ->.
  destruct (Hst st eq_refl) as (new & Hnew & Hall & Hsum & Hdom).
  simpl in Hnew. rewrite Hnew. split_and!; [done..|].
  intros vid Hvid. apply elem_of_dom, Hdom. by apply elem_of_list_to_set.
Qed.

Lemma depth_limit_range (depth : string) :
  depth_limit depth ∈ [10; 20; 40] ∧ 0 < depth_limit depth ≤ 50.
Proof.
  unfold depth_limit. repeat case_bool_decide; (split; [set_solver|lia]).
Qed.

Lemma search_phase_depth (depth : string) :
  let req := {| req_maxResults := depth_limit depth;
                req_pageToken := None |} in
  match search req with
  | Raise => search_phase search (depth_limit depth) = Some Raise
  | Ret data =>
      ∃ st, search_phase search (depth_limit depth) = Some (Ret st)
          ∧ requests st = [req]
          ∧ all_video_ids st = hit_ids (page_items data)
  end.
Proof.
  intros req. destruct (depth_limit_range depth) as [_ Hrange].
  unfold search_phase. cbn [search_loop].
  rewrite bool_decide_eq_true_2 by lia.
  replace (depth_limit depth `min` 50) with (depth_limit depth) by lia.
  change (token_given None) with (@None string). fold req.
  destruct (search req) as [data|]; [|done].
  set (st0 := {| all_video_ids := []; all_snippets := ∅;
                 requests := [] ++ [req] |}).
  destruct (add_hits (page_items data) st0) as (Hids & Hreq & _).
  exists (foldl add_hit st0 (page_items data)).
  split; [|by split].
  destruct (truthy (or_empty (nextPageToken data))); [|done].
  rewrite Nat.sub_diag.
  destruct (depth_limit depth) as [|n] eqn:E; [lia|]. done.
Qed.

(** X9. Whatever the depth, the search phase makes one request, for 10,
    20 or 40 results (20 for an unknown depth) and without page token; it
    never asks for a second page, even when the first names one.  The ids
    it gathers are those of that page, in order. *)
Theorem search_phase_single_request (depth : string) :
  let req := {| req_maxResults := depth_limit depth;
                req_pageToken := None |} in
  depth_limit depth ∈ [10; 20; 40]
  ∧ match search req with
    | Raise => search_phase search (depth_limit depth) = Some Raise
    | Ret data =>
        ∃ st, search_phase search (depth_limit depth) = Some (Ret st)
            ∧ requests st = [req]
            ∧ all_video_ids st = hit_ids (page_items data)
    end.
Proof.
  intros req. split.
  - apply depth_limit_range.
  - apply search_phase_depth.
Qed.

End search_phase.

(** ** [search_youtube] *)
Section search_youtube.
Import PyStr YouTube.

Variable search :
  string → string → string → SearchRequest → py SearchPage.
Variable videos : string → list string → py (list (py VideoStat)).

Lemma batches_go_spec fuel : ∀ ids : list string,
  length ids ≤ fuel →
  concat (batches_go fuel ids) = ids
  ∧ Forall (λ batch, 1 ≤ length batch ≤ 50) (batches_go fuel ids).
Proof.
  induction fuel as [|fuel IH]; intros ids Hfuel.
  - destruct ids; [by split|simpl in Hfuel; lia].
  - destruct ids as [|vid ids]; [by split|].
    cbn [batches_go].
    destruct (IH (drop 50 (vid :: ids))) as [Hcat Hall].
    { rewrite length_drop. cbn [length] in *. lia. }
    split.
    + cbn [concat]. rewrite Hcat. apply take_drop.
    + constructor; [|done]. rewrite length_take. cbn [length]. lia.
Qed.

(** X10. The statistics phase asks for every video id exactly once, in
    order, in batches of at least one and at most 50 ids. *)
Theorem batches_cover (ids : list string) :
  concat (batches ids) = ids
  ∧ Forall (λ batch, 1 ≤ length batch ≤ 50) (batches ids).
Proof. by apply batches_go_spec. Qed.

Lemma stats_phase_all_raise (fetch_stats : list string → py (list (py VideoStat)))
    (ids : list string) :
  (∀ batch, fetch_stats batch = Raise) → stats_phase fetch_stats ids = ∅.
Proof.
  intros Hraise. unfold stats_phase.
  induction (batches ids) as [|batch rest IH]; [done|].
  cbn [foldl]. by rewrite Hraise.
Qed.

Lemma recency_filter_cases (items : list VideoItem) (from_date : string) :
  recency_filter items from_date = items
  ∨ (recency_filter items from_date
       = filter (λ i, is_recent from_date i = true) items
     ∧ 3 ≤ length (recency_filter items from_date)).
Proof.
  unfold recency_filter. case_bool_decide; [by right|by left].
Qed.

Lemma recency_filter_sublist (items : list VideoItem) (from_date : string) :
  recency_filter items from_date `sublist_of` items.
Proof.
  destruct (recency_filter_cases items from_date) as [->|[-> _]];
    [done|apply sublist_filter].
Qed.

(** What [search_youtube] does once it has an API key, by the reply to
    its one search request. *)
Lemma search_youtube_unfold (topic from_date to_date depth api_key : string) :
  api_key ≠ "" →
  let core_topic := _extract_core_subject topic in
  let req := {| req_maxResults := depth_limit depth;
                req_pageToken := None |} in
  match search core_topic (from_date +:+ "T00:00:00Z") api_key req with
  | Raise =>
      search_youtube search videos topic from_date to_date depth api_key
      = Some {| result_items := []; result_error := Some ApiError |}
  | Ret data =>
      ∃ snippets,
        search_youtube search videos topic from_date to_date depth api_key
        = Some
            match hit_ids (page_items data) with
            | [] => {| result_items := []; result_error := None |}
            | _ =>
                {| result_items :=
                     finish_search core_topic from_date
                       (hit_ids (page_items data)) snippets
                       (stats_phase (videos api_key)
                          (hit_ids (page_items data)));
                   result_error := None |}
            end
  end.
Proof.
  intros Hkey%truthy_true core_topic req. unfold search_youtube.
  rewrite Hkey. simpl. fold core_topic.
  pose proof (search_phase_depth
                (search core_topic (from_date +:+ "T00:00:00Z") api_key)
                depth) as Hphase.
  simpl in Hphase. fold req in Hphase.
  destruct (search core_topic (from_date +:+ "T00:00:00Z") api_key req)
    as [data|].
  - destruct Hphase as (st & -> & _ & Hids).
    exists (all_snippets st). rewrite Hids.
    by destruct (hit_ids (page_items data)).
  - by rewrite Hphase.
Qed.

(** X11. [search_youtube] always ends.  Without an API key it returns no
    items and the key error, whatever the endpoints would answer; with a
    key, a search request that raises gives no items and the API error,
    and a page without a usable video id gives no items and no error. *)
Theorem search_youtube_failures
    (topic from_date to_date depth api_key : string) :
  let found :=
    search_youtube search videos topic from_date to_date depth api_key in
  let reply :=
    search (_extract_core_subject topic) (from_date +:+ "T00:00:00Z")
      api_key
      {| req_maxResults := depth_limit depth; req_pageToken := None |} in
  is_Some found
  ∧ (api_key = "" →
       found = Some {| result_items := []; result_error := Some KeyNotSet |})
  ∧ (api_key ≠ "" → reply = Raise →
       found = Some {| result_items := []; result_error := Some ApiError |})
  ∧ (api_key ≠ "" → ∀ data, reply = Ret data →
       hit_ids (page_items data) = [] →
       found = Some {| result_items := []; result_error := None |}).
Proof.
  intros found reply. subst found reply.
  assert (api_key = "" →
          search_youtube search videos topic from_date to_date depth api_key
          = Some {| result_items := []; result_error := Some KeyNotSet |})
    as Hnokey.
  { intros ->. reflexivity. }
  split_and!.
  - destruct (decide (api_key = "")) as [E|Hkey]; [by rewrite Hnokey|].
    pose proof (search_youtube_unfold topic from_date to_date depth api_key
                  Hkey) as H. simpl in H.
    destruct (search _ _ _ _) as [data|].
    + destruct H as (snippets & ->). done.
    + by rewrite H.
  - done.
  - intros Hkey Hreply.
    pose proof (search_youtube_unfold topic from_date to_date depth api_key
                  Hkey) as H. simpl in H. by rewrite Hreply in H.
  - intros Hkey data Hreply Hnone.
    pose proof (search_youtube_unfold topic from_date to_date depth api_key
                  Hkey) as H. simpl in H. rewrite Hreply in H.
    destruct H as (snippets & ->). by rewrite Hnone.
Qed.

Lemma make_item_fields core snippets stats vid :
  video_id (make_item core snippets stats vid) = vid
  ∧ url (make_item core snippets stats vid)
    = "https://www.youtube.com/watch?v=" +:+ vid
  ∧ views (engagement (make_item core snippets stats vid))
    = st_views (default zero_stats (stats !! vid)).
Proof. done. Qed.

(** X12. With a key and a page that has video ids, [search_youtube]
    returns no error and items that are sorted by views, largest first;
    each item is built from an id of the page and links to that video;
    either every id of the page has its item, or the items are at least
    three, all dated on or after the from-date. *)
Theorem search_youtube_items
    (topic from_date to_date depth api_key : string) (data : SearchPage) :
  api_key ≠ "" →
  search (_extract_core_subject topic) (from_date +:+ "T00:00:00Z") api_key
    {| req_maxResults := depth_limit depth; req_pageToken := None |}
  = Ret data →
  hit_ids (page_items data) ≠ [] →
  ∃ res,
    search_youtube search videos topic from_date to_date depth api_key
    = Some res
    ∧ result_error res = None
    ∧ StronglySorted
        (λ a b, (views (engagement b) ≤ views (engagement a))%Z)
        (result_items res)
    ∧ Forall (λ item,
                video_id item ∈ hit_ids (page_items data)
                ∧ url item
                  = "https://www.youtube.com/watch?v=" +:+ video_id item)
        (result_items res)
    ∧ (video_id <$> result_items res ≡ₚ hit_ids (page_items data)
       ∨ (3 ≤ length (result_items res)
          ∧ Forall (dated_since from_date) (result_items res))).
Proof.
  intros Hkey Hreply Hids.
  pose proof (search_youtube_unfold topic from_date to_date depth api_key
                Hkey) as H. simpl in H. rewrite Hreply in H.
  destruct H as (snippets & ->).
  destruct (hit_ids (page_items data)) as [|vid0 ids0] eqn:Eids; [done|].
  set (ids := vid0 :: ids0) in *.
  set (core := _extract_core_subject topic).
  set (stats := stats_phase (videos api_key) ids).
  eexists. split; [reflexivity|].
  cbn [result_error result_items]. unfold finish_search.
  set (items := make_item core snippets stats <$> ids).
  split_and!.
  - done.
  - apply sort_by_views_sorted.
  - rewrite sort_by_views_perm.
    apply Forall_forall. intros item Hitem.
    eapply elem_of_sublist in Hitem;
      [|apply (recency_filter_sublist items from_date)].
    apply list_elem_of_fmap in Hitem as (vid & -> & Hvid). by split.
  - destruct (recency_filter_cases items from_date) as [E|[E Hlen]].
    + left. rewrite sort_by_views_perm, E. unfold items.
      rewrite <- list_fmap_compose.
      clear. induction ids as [|vid ids IH]; [done|].
      rewrite fmap_cons. simpl. by f_equiv.
    + right. split.
      * by rewrite sort_by_views_perm.
      * rewrite sort_by_views_perm, E.
        rewrite recent_filter_eq.
        -- apply Forall_forall. intros item Hitem.
           by apply list_elem_of_filter in Hitem as [? _].
        -- apply Forall_forall. intros item Hitem.
           apply list_elem_of_fmap in Hitem as (vid & -> & _).
           apply make_item_date_well_formed.
Qed.

(** X13. When every statistics request raises, [search_youtube] still
    returns its items, each with zero views, likes and comments. *)
Theorem search_youtube_without_statistics
    (topic from_date to_date depth api_key : string) :
  api_key ≠ "" →
  (∀ batch, videos api_key batch = Raise) →
  ∃ res,
    search_youtube search videos topic from_date to_date depth api_key
    = Some res
    ∧ Forall (λ item,
                engagement item
                = {| views := 0; likes := 0; comments := 0 |})
        (result_items res)
    ∧ ∀ data,
        search (_extract_core_subject topic) (from_date +:+ "T00:00:00Z")
          api_key
          {| req_maxResults := depth_limit depth; req_pageToken := None |}
        = Ret data →
        result_error res = None
        ∧ (length (hit_ids (page_items data)) < 3 →
           video_id <$> result_items res = hit_ids (page_items data)).
Proof.
  intros Hkey Hraise.
  pose proof (search_youtube_unfold topic from_date to_date depth api_key
                Hkey) as H. simpl in H.
  destruct (search _ _ _ _) as [data|];
    [|eexists; split; [exact H|split; [constructor|by intros data [=]]]].
  destruct H as (snippets & ->).
  rewrite stats_phase_all_raise by done.
  destruct (hit_ids (page_items data)) as [|vid0 ids0] eqn:Eids.
  { eexists. split; [done|]. split; [constructor|].
    intros data' [= <-]. rewrite Eids. by split. }
  set (ids := vid0 :: ids0) in *.
  eexists. split; [reflexivity|].
  cbn [result_items result_error]. unfold finish_search.
  set (items := make_item (_extract_core_subject topic) snippets ∅ <$> ids).
  split.
  - rewrite sort_by_views_perm. apply Forall_forall. intros item Hitem.
    eapply elem_of_sublist in Hitem;
      [|apply (recency_filter_sublist items from_date)].
    by apply list_elem_of_fmap in Hitem as (vid & -> & _).
  - intros data' [= <-]. rewrite Eids. split; [done|]. intros Hfew.
    assert (recency_filter items from_date = items) as ->.
    { destruct (recency_filter_cases items from_date) as [E|[_ Hlen]];
        [done|].
      pose proof (sublist_length _ _
                    (recency_filter_sublist items from_date)) as Hle.
      assert (length items = length ids) as Hitems
        by (unfold items; apply length_fmap).
      lia. }
    assert (Forall (λ item, views (engagement item) = 0%Z) items) as Hz.
    { apply Forall_forall. intros item Hitem.
      by apply list_elem_of_fmap in Hitem as (vid & -> & _). }
    assert (sort_by_views items = items) as ->.
    { clear -Hz. induction Hz as [|x l Hx Hl IH]; [done|].
      simpl. rewrite IH. destruct l as [|y l]; [done|].
      simpl. apply Forall_cons in Hl as [Hy _].
      by rewrite Hx, Hy. }
    unfold items. rewrite <- list_fmap_compose.
    clear. induction ids as [|vid ids IH]; [done|].
    rewrite fmap_cons. simpl. by f_equal.
Qed.

End search_youtube.

(** ** Caption clean-up *)
Section captions.
Import PyStr YouTube.

Implicit Types (l cur : list ascii).

Lemma collapse_go_lstrip l : ∀ b,
  drop_while is_space (collapse_go b l) = collapse_go true l.
Proof.
  induction l as [|c l IH]; intros b; [done|].
  simpl. destruct (is_space c) eqn:Hc.
  - destruct b; simpl; [apply IH|]. change (is_space " ") with true.
    apply IH.
  - simpl. by rewrite Hc.
Qed.

(** A collapsed text is the words of the text joined by single spaces,
    with at most one space left over at its end. *)
Lemma collapse_go_join l : ∀ cur,
  Forall (λ c, is_space c = false) cur →
  ∃ trail,
    (trail = [] ∨ (trail = [" "%char] ∧ split_go cur l ≠ []))
    ∧ reverse cur ++ collapse_go (bool_decide (cur = [])) l
      = chars (join " " (split_go cur l)) ++ trail.
Proof.
  induction l as [|c l IH]; intros cur Hcur.
  - exists []. split; [by left|]. cbn [collapse_go split_go].
    rewrite !app_nil_r.
    destruct cur as [|c0 cur0] eqn:E; [done|].
    cbn [join]. by rewrite chars_str.
  - simpl. destruct (is_space c) eqn:Hc.
    + destruct cur as [|c0 cur0] eqn:E.
      * rewrite bool_decide_eq_true_2 by done.
        destruct (IH [] ltac:(constructor)) as (trail & Htrail & Heq).
        rewrite bool_decide_eq_true_2 in Heq by done.
        exists trail. by split.
      * rewrite <- E in *.
        rewrite bool_decide_eq_false_2 by (by rewrite E).
        destruct (IH [] ltac:(constructor)) as (trail & Htrail & Heq).
        rewrite bool_decide_eq_true_2 in Heq by done. simpl in Heq.
        rewrite Heq.
        destruct (split_go [] l) as [|w2 ws] eqn:Ews.
        -- exists [" "%char]. split; [by right|].
           destruct Htrail as [->|[_ ?]]; [|done].
           simpl. by rewrite chars_str.
        -- exists trail. split.
           ++ destruct Htrail as [->|[-> _]]; [by left|by right].
           ++ rewrite join_cons_cons, !chars_app, chars_str.
              change (chars " ") with [" "%char].
              by rewrite <- !app_assoc.
    + destruct (IH (c :: cur)) as (trail & Htrail & Heq);
        [by constructor|].
      rewrite bool_decide_eq_false_2 in Heq by done.
      rewrite reverse_cons, <- app_assoc in Heq.
      exists trail. split; [done|].
      by destruct (bool_decide (cur = [])).
Qed.

Lemma join_words_last (ws : list string) :
  Forall is_word ws → ws ≠ [] →
  ∃ c, last (chars (join " " ws)) = Some c ∧ is_space c = false.
Proof.
  induction ws as [|w [|w2 ws] IH]; intros Hws Hne; [done|..].
  - apply Forall_cons in Hws as [[Hw Hchars] _]. simpl.
    destruct (last (chars w)) as [c|] eqn:E.
    + exists c. split; [done|].
      rewrite Forall_forall in Hchars. apply Hchars.
      apply last_Some in E as [l' ->]. set_solver.
    + apply last_None in E. by apply chars_empty in E.
  - apply Forall_cons in Hws as [_ Hws].
    destruct (IH Hws) as (c & Hlast & Hc); [done|].
    exists c. split; [|done].
    rewrite join_cons_cons, !chars_app.
    apply last_Some in Hlast as [l' ->].
    rewrite !app_assoc. apply last_snoc.
Qed.

(** Collapsing the whitespace and trimming gives the words of the text
    joined by single spaces. *)
Lemma strip_collapse_spaces (s : string) :
  strip (collapse_spaces s) = join " " (split s).
Proof.
  unfold strip, lstrip_by, collapse_spaces. rewrite chars_str.
  rewrite collapse_go_lstrip.
  destruct (collapse_go_join (chars s) [] ltac:(constructor))
    as (trail & Htrail & Heq).
  rewrite bool_decide_eq_true_2 in Heq by done. simpl in Heq.
  rewrite Heq. fold (split s).
  destruct (split s) as [|w ws] eqn:Ews.
  - destruct Htrail as [->|[_ ?]]; [|done]. by vm_compute.
  - destruct (join_words_last (w :: ws)) as (c & Hlast & Hc);
      [rewrite <- Ews; apply split_words|done|].
    destruct Htrail as [->|[-> _]].
    + rewrite app_nil_r, str_chars. by apply (rstrip_by_last _ _ c).
    + unfold rstrip_by. rewrite chars_str, reverse_snoc. simpl.
      change (is_space " ") with true. cbn [drop_while].
      pose proof (rstrip_by_last is_space _ c Hlast Hc) as E.
      unfold rstrip_by in E. exact E.
Qed.

Lemma clean_transcript_spec (text : string) :
  (clean_transcript text = None ↔ split text = [])
  ∧ ∀ t, clean_transcript text = Some t →
      t ≠ ""
      ∧ t = join " " (split t)
      ∧ length (split t) = 500 `min` length (split text)
      ∧ (length (split text) ≤ 500 → split t = split text)
      ∧ (500 < length (split text) →
           ∃ w, split text !! 499 = Some w
              ∧ split t = take 499 (split text) ++ [w +:+ "..."]).
Proof.
  unfold clean_transcript. rewrite strip_collapse_spaces.
  pose proof (split_words text) as Hws.
  rewrite (split_join _ Hws). unfold TRANSCRIPT_MAX_WORDS.
  case_bool_decide as Hlong.
  - destruct (split_cut_words (split text) 500 Hws ltac:(lia) Hlong)
      as (w & Hw & Hjoin & Hsplit).
    change (500 - 1) with 499 in *.
    assert (join " " (take 500 (split text)) +:+ "..." ≠ "") as Hne.
    { intros E. rewrite E in Hsplit.
      by destruct (take 499 (split text)). }
    apply truthy_true in Hne as Htruthy. rewrite Htruthy. split.
    + split; [done|]. intros E. rewrite E in Hlong. simpl in Hlong. lia.
    + intros t [= <-]. split_and!.
      * done.
      * by rewrite Hsplit, <- Hjoin.
      * rewrite Hsplit, length_app, length_take. cbn [length]. lia.
      * intros; lia.
      * intros _. by exists w.
  - destruct (split text) as [|w ws] eqn:Ews.
    + simpl. split; [done|]. by intros t [=].
    + pose proof (split_join _ Hws) as Hs.
      assert (join " " (w :: ws) ≠ "") as Hne.
      { intros E. by rewrite E in Hs. }
      apply truthy_true in Hne as Htruthy. rewrite Htruthy. split.
      * split; by intros [=].
      * intros t Ht.
        assert (t = join " " (w :: ws)) as -> by congruence.
        rewrite Hs.
        split_and!; [done|done|lia|done|intros; lia].
Qed.

(** X14. The clean-up of a caption text gives null exactly when the text
    has no word; otherwise it gives a text that is not empty, whose words
    are separated by single spaces with no space at either end, and that
    has the first 500 words of the text at most, "..." closing the last
    one when words were cut. *)
Theorem clean_transcript_words (text : string) :
  (clean_transcript text = None ↔ split text = [])
  ∧ ∀ t, clean_transcript text = Some t →
      t ≠ ""
      ∧ t = join " " (split t)
      ∧ length (split t) = 500 `min` length (split text)
      ∧ (length (split text) ≤ 500 → split t = split text)
      ∧ (500 < length (split text) →
           ∃ w, split text !! 499 = Some w
              ∧ split t = take 499 (split text) ++ [w +:+ "..."]).
Proof. apply clean_transcript_spec. Qed.

End captions.

(** ** Transcript fetch, caption library *)
Section youtube_fetch.
Import PyStr YouTube.

Variable installed : bool.
Variable get_transcript : string → bool → py (list (py string)).

Lemma entry_texts_all (texts : list string) :
  entry_texts (Ret <$> texts) = Ret texts.
Proof.
  induction texts as [|t texts IH]; [done|].
  rewrite fmap_cons. simpl. by rewrite IH.
Qed.

Lemma entry_texts_raise (entries : list (py string)) :
  Raise ∈ entries → entry_texts entries = Raise.
Proof.
  induction entries as [|e entries IH]; intros Hin.
  - by apply elem_of_nil in Hin.
  - apply elem_of_cons in Hin as [<-|Hin]; [done|].
    simpl. destruct e as [t|]; [|done]. simpl. by rewrite IH.
Qed.

Lemma entry_texts_cases (entries : list (py string)) :
  (Raise ∈ entries ∧ entry_texts entries = Raise)
  ∨ ∃ texts, entries = Ret <$> texts ∧ entry_texts entries = Ret texts.
Proof.
  induction entries as [|e entries IH].
  - right. by exists [].
  - destruct e as [t|].
    + destruct IH as [[Hin Hr]|(texts & -> & Hr)].
      * left. split; [by apply list_elem_of_further|].
        simpl. by rewrite Hr.
      * right. exists (t :: texts). split; [done|].
        apply (entry_texts_all (t :: texts)).
    + left. split; [apply list_elem_of_here|done].
Qed.

(** X15. [fetch_transcript] returns null when the caption library is
    missing and when both the English and the any-language lookup raise;
    the any-language captions are used when only the English lookup
    raises; it raises exactly when a caption entry of the list found has
    no text; a transcript it returns is not empty, single-spaced and of
    at most 500 words. *)
Theorem youtube_fetch_transcript_outcomes (video_id : string) :
  let fetched := fetch_transcript installed get_transcript video_id in
  let found :=
    try_except (get_transcript video_id true)
      (get_transcript video_id false) in
  (installed = false → fetched = Ret None)
  ∧ (installed = true → found = Raise → fetched = Ret None)
  ∧ (get_transcript video_id true = Raise →
       found = get_transcript video_id false)
  ∧ (installed = true → ∀ texts, found = Ret (Ret <$> texts) →
       fetched = Ret (clean_transcript (join " " texts)))
  ∧ (fetched = Raise ↔
       installed = true ∧ ∃ entries, found = Ret entries ∧ Raise ∈ entries)
  ∧ (∀ t, fetched = Ret (Some t) →
       t ≠ "" ∧ t = join " " (split t) ∧ length (split t) ≤ 500).
Proof.
  intros fetched found. subst fetched. unfold fetch_transcript.
  fold found. split_and!.
  - by intros ->.
  - by intros -> ->.
  - subst found. by intros ->.
  - intros -> texts ->. simpl. by rewrite entry_texts_all.
  - destruct installed; simpl.
    + destruct found as [entries|].
      * destruct (entry_texts_cases entries) as [[Hin ->]|(texts & -> & ->)].
        -- split; [|done]. intros _. split; [done|]. by exists entries.
        -- split; [done|]. intros [_ (entries & [= <-] & Hin)].
           apply list_elem_of_fmap in Hin as (t & [=] & _).
      * split; [done|]. by intros [_ (entries & [=] & _)].
    + split; [done|]. by intros [[=] _].
  - intros t Ht.
    assert (∃ text, clean_transcript text = Some t) as [text Hclean].
    { destruct installed; simpl in Ht; [|done].
      destruct found as [entries|]; [|done].
      destruct (entry_texts entries) as [texts|]; [|done].
      simpl in Ht. injection Ht as Ht. eauto. }
    destruct (clean_transcript_spec text) as [_ Hsome].
    destruct (Hsome t Hclean) as (Hne & Hnorm & Hlen & _).
    split_and!; [done|done|lia].
Qed.

End youtube_fetch.

(** ** Attaching transcripts *)
Section attach.
Import PyStr Futures YouTube.

Variable fetch : string → py (option string).

Lemma fmap_fst_graph {A B} (g : A → B) (l : list A) :
  ((λ a, (a, g a)) <$> l).*1 = l.
Proof.
  induction l as [|a l IH]; [done|].
  rewrite !fmap_cons. simpl. by f_equal.
Qed.

Lemma keys_of_futures (keys : list string) :
  ((λ vid, (vid, fetch vid)) <$> keys).*1 = keys.
Proof. apply fmap_fst_graph. Qed.

Lemma record_all_lookup_fun (completed : list future) :
  ∀ (results : gmap string (option string)) (k : string),
  (∀ f, f ∈ completed → f.2 = fetch f.1) →
  k ∈ completed.*1 →
  foldl (λ m f, <[f.1 := settle f.2]> m) results completed !! k
    = Some (settle (fetch k)).
Proof.
  induction completed as [|f rest IH]; intros results k Hfun Hk.
  - by apply elem_of_nil in Hk.
  - cbn [foldl].
    destruct (decide (k ∈ rest.*1)) as [Hin|Hnot].
    + apply IH; [|done]. intros f' Hf'. apply Hfun.
      by apply list_elem_of_further.
    + rewrite record_all_lookup_other by done.
      rewrite fmap_cons in Hk. apply elem_of_cons in Hk as [->|Hk]; [|done].
      rewrite lookup_insert_eq, (Hfun f) by apply list_elem_of_here. done.
Qed.

Lemma transcript_limit_range (depth : string) :
  0 < transcript_limit depth ≤ 8.
Proof. unfold transcript_limit. repeat case_bool_decide; lia. Qed.

(** What [attach_transcripts] returns, item by item. *)
Lemma attach_transcripts_cases
    (as_completed : list future → list future)
    (depth : string) (search_result : SearchResult) :
  (∀ l, as_completed l ≡ₚ l) →
  let top :=
    video_id <$> take (transcript_limit depth) (result_items search_result) in
  ∃ res,
    attach_transcripts fetch as_completed depth search_result = Ret res
    ∧ (transcribed_items res).*1 = result_items search_result
    ∧ length top ≤ 8
    ∧ Forall (λ it,
                it.2 = if decide (video_id it.1 ∈ top)
                       then or_empty (settle (fetch (video_id it.1)))
                       else "")
        (transcribed_items res)
    ∧ transcribed_error res
      = match result_items search_result with
        | [] => result_error search_result
        | _ => None
        end.
Proof.
  intros Hperm top.
  assert (length top ≤ 8) as Htop.
  { unfold top. rewrite length_fmap, length_take.
    pose proof (transcript_limit_range depth). lia. }
  unfold attach_transcripts. fold top.
  destruct (decide (result_items search_result = [])) as [Eitems|Hitems].
  { rewrite Eitems. eexists. split; [done|]. by split_and!. }
  assert (top ≠ []) as Hne.
  { unfold top.
    pose proof (transcript_limit_range depth) as [Hpos _].
    destruct (result_items search_result); [done|].
    destruct (transcript_limit depth); [lia|done]. }
  assert (fetch_transcripts_parallel fetch as_completed top
          = Ret (foldl (λ m f, <[f.1 := settle f.2]> m) ∅
                   (as_completed ((λ vid, (vid, fetch vid)) <$> top))))
    as Hfetch.
  { unfold fetch_transcripts_parallel.
    destruct top; [done|]. apply collect_ret. }
  set (futures := (λ vid, (vid, fetch vid)) <$> top) in *.
  assert ((as_completed futures).*1 ≡ₚ top) as Hkeys.
  { rewrite (Hperm futures). unfold futures. by rewrite keys_of_futures. }
  destruct (result_items search_result) as [|item0 items0] eqn:E; [done|].
  rewrite Hfetch. unfold mbind, py_bind, bind.
  eexists. split; [reflexivity|].
  cbn [transcribed_items transcribed_error].
  split_and!.
  - apply fmap_fst_graph.
  - done.
  - apply Forall_fmap, Forall_forall. intros item _. simpl.
    case_decide as Hin.
    + rewrite record_all_lookup_fun; [done| |by rewrite Hkeys].
      intros f Hf. rewrite (Hperm futures) in Hf.
      by apply list_elem_of_fmap in Hf as (k & -> & _).
    + rewrite record_all_lookup_other by by rewrite Hkeys.
      by rewrite lookup_empty.
  - done.
Qed.

(** X16. Attaching transcripts never raises and keeps the items and their
    order.  No more than 8 transcripts are fetched; an item whose video
    id is among those of the first 3, 5 or 8 items gets the transcript its
    fetch returned, the empty text when the fetch raised or returned
    null; every other item gets the empty text.  A search result without
    items passes through with its error. *)
Theorem attach_transcripts_spec
    (as_completed : list future → list future)
    (depth : string) (search_result : SearchResult) :
  (∀ l, as_completed l ≡ₚ l) →
  let top :=
    video_id <$> take (transcript_limit depth) (result_items search_result) in
  ∃ res,
    attach_transcripts fetch as_completed depth search_result = Ret res
    ∧ (transcribed_items res).*1 = result_items search_result
    ∧ length top ≤ 8
    ∧ Forall (λ it,
                it.2 = if decide (video_id it.1 ∈ top)
                       then or_empty (settle (fetch (video_id it.1)))
                       else "")
        (transcribed_items res)
    ∧ transcribed_error res
      = match result_items search_result with
        | [] => result_error search_result
        | _ => None
        end.
Proof.
  intros Hperm top.
  exact (attach_transcripts_cases as_completed depth search_result Hperm).
Qed.

End attach.

(** ** Mentions *)
Section mentions.
Import PyStr DataForSEO.

Lemma length_chars (s : string) : length (chars s) = len s.
Proof.
  unfold chars, len. induction s as [|c s IH]; simpl; [done|by f_equal].
Qed.

Lemma len_str (l : list ascii) : len (str l) = length l.
Proof. by rewrite <- length_chars, chars_str. Qed.

Lemma len_slice_to_le (n : nat) (s : string) : len (slice_to n s) ≤ n.
Proof. unfold slice_to. rewrite len_str, length_take. lia. Qed.

Lemma chars_slice_to (n : nat) (s : string) (c : ascii) :
  c ∈ chars (slice_to n s) → c ∈ chars s.
Proof.
  unfold slice_to. rewrite chars_str. intros Hc.
  rewrite <- (take_drop n (chars s)). apply elem_of_app. by left.
Qed.

Lemma drop_while_elem (p : ascii → bool) (l : list ascii) (c : ascii) :
  c ∈ drop_while p l → c ∈ l.
Proof.
  induction l as [|c' l IH]; simpl; [done|].
  destruct (p c'); [|done]. intros Hc. apply list_elem_of_further. by apply IH.
Qed.

Lemma chars_strip (s : string) (c : ascii) :
  c ∈ chars (strip s) → c ∈ chars s.
Proof.
  unfold strip, rstrip_by, lstrip_by. rewrite !chars_str.
  rewrite elem_of_reverse. intros Hc%drop_while_elem.
  rewrite elem_of_reverse in Hc. by apply drop_while_elem in Hc.
Qed.

(** No field of a split holds the separator. *)
Lemma split_on_go_free (sep : ascii) (l : list ascii) : ∀ cur field,
  sep ∉ cur → field ∈ split_on_go sep cur l → sep ∉ chars field.
Proof.
  induction l as [|c l IH]; intros cur field Hcur Hin; simpl in Hin.
  - apply list_elem_of_singleton in Hin as ->.
    by rewrite chars_str, elem_of_reverse.
  - case_bool_decide as Hc.
    + apply elem_of_cons in Hin as [->|Hin].
      * by rewrite chars_str, elem_of_reverse.
      * apply (IH [] field); [apply not_elem_of_nil|done].
    + apply (IH (c :: cur) field); [|done].
      apply not_elem_of_cons. split; [congruence|done].
Qed.

(** Every character of a field of a split is one of the text. *)
Lemma split_on_go_chars (sep : ascii) (l : list ascii) : ∀ cur field c,
  field ∈ split_on_go sep cur l → c ∈ chars field → c ∈ cur ∨ c ∈ l.
Proof.
  induction l as [|c' l IH]; intros cur field c Hin Hc; simpl in Hin.
  - apply list_elem_of_singleton in Hin as ->.
    rewrite chars_str, elem_of_reverse in Hc. by left.
  - case_bool_decide as Hsep.
    + apply elem_of_cons in Hin as [->|Hin].
      * rewrite chars_str, elem_of_reverse in Hc. by left.
      * destruct (IH [] field c Hin Hc) as [Hnil|Hl];
          [by apply elem_of_nil in Hnil|].
        right. by apply list_elem_of_further.
    + destruct (IH (c' :: cur) field c Hin Hc) as [Hcur|Hl].
      * apply elem_of_cons in Hcur as [->|Hcur]; [|by left].
        right. apply list_elem_of_here.
      * right. by apply list_elem_of_further.
Qed.

Lemma replace_char_free (a b : ascii) (s : string) :
  a ≠ b → a ∉ chars (replace_char a b s).
Proof.
  intros Hab. unfold replace_char. rewrite chars_str.
  intros Hin. apply list_elem_of_In, in_map_iff in Hin as (c & Hc & _).
  case_bool_decide; congruence.
Qed.

Lemma sentence_free (ai_overview sentence : string) :
  sentence ∈ sentences_of ai_overview →
  ("."%char ∉ chars sentence) ∧ ("010"%char ∉ chars sentence).
Proof.
  unfold sentences_of, split_on. intros Hin. split.
  - by apply (split_on_go_free _ _ [] sentence) in Hin;
      [|apply not_elem_of_nil].
  - intros Hc.
    destruct (split_on_go_chars _ _ _ _ _ Hin Hc) as [Hnil|Hl];
      [by apply elem_of_nil in Hnil|].
    by apply replace_char_free in Hl.
Qed.

Lemma first_mention_some term sentences clean :
  first_mention term sentences = Some clean →
  ∃ before sentence after,
    sentences = before ++ sentence :: after
    ∧ clean = slice_to 150 (strip sentence)
    ∧ contains term (lower sentence) = true
    ∧ strip sentence ≠ ""
    ∧ Forall (λ s, contains term (lower s) = false ∨ strip s = "") before.
Proof.
  induction sentences as [|s sentences IH]; [done|].
  simpl.
  destruct (contains term (lower s)) eqn:Hc, (truthy (strip s)) eqn:Ht;
    simpl.
  - intros [= <-]. exists [], s, sentences.
    split_and!; [done..| |constructor]. by apply truthy_true.
  - intros (before & sentence & after & -> & H)%IH.
    exists (s :: before), sentence, after. split; [done|].
    destruct H as (? & ? & ? & Hb). split_and!; [done..|].
    constructor; [|done]. right. by apply truthy_false.
  - intros (before & sentence & after & -> & H)%IH.
    exists (s :: before), sentence, after. split; [done|].
    destruct H as (? & ? & ? & Hb). split_and!; [done..|].
    constructor; [|done]. by left.
  - intros (before & sentence & after & -> & H)%IH.
    exists (s :: before), sentence, after. split; [done|].
    destruct H as (? & ? & ? & Hb). split_and!; [done..|].
    constructor; [|done]. by left.
Qed.

Lemma first_term_mention_cases terms sentences :
  first_term_mention terms sentences = ""
  ∨ ∃ term clean,
      term ∈ terms
      ∧ first_mention (lower term) sentences = Some clean
      ∧ first_term_mention terms sentences = clean.
Proof.
  induction terms as [|term terms IH]; [by left|].
  simpl. destruct (first_mention (lower term) sentences) as [clean|] eqn:E.
  - right. exists term, clean. split; [apply list_elem_of_here|done].
  - destruct IH as [->|(t & clean & Ht & Hm & ->)]; [by left|].
    right. exists t, clean. split; [by apply list_elem_of_further|done].
Qed.

Lemma extract_mention_unfold (ai_overview title domain : string) :
  _extract_mention ai_overview title domain
  = if truthy ai_overview
    then first_term_mention (search_terms title domain)
           (sentences_of ai_overview)
    else "".
Proof. unfold _extract_mention. by destruct (truthy ai_overview). Qed.

Lemma extract_mention_spec (ai_overview title domain : string) :
  let mention := _extract_mention ai_overview title domain in
  (ai_overview = "" → mention = "")
  ∧ len mention ≤ 150
  ∧ ("."%char ∉ chars mention)
  ∧ ("010"%char ∉ chars mention)
  ∧ (mention ≠ "" →
       ∃ term sentence,
         term ∈ search_terms title domain
         ∧ sentence ∈ sentences_of ai_overview
         ∧ contains (lower term) (lower sentence) = true
         ∧ mention = slice_to 150 (strip sentence))
  ∧ (∀ clean,
       first_mention (lower domain) (sentences_of ai_overview) = Some clean →
       ai_overview ≠ "" → mention = clean).
Proof.
  intros mention. subst mention. rewrite extract_mention_unfold.
  destruct (truthy ai_overview) eqn:Hov.
  - apply truthy_true in Hov.
    destruct (first_term_mention_cases (search_terms title domain)
                (sentences_of ai_overview))
      as [E|(term & clean & Hterm & Hm & E)]; rewrite E.
    + split_and!; [done|simpl; lia|apply not_elem_of_nil..|done|].
      intros clean Hm _. unfold search_terms in E. simpl in E.
      by rewrite Hm in E.
    + apply first_mention_some in Hm as Hs.
      destruct Hs as (before & sentence & after & Hsent & -> & Hc & _).
      assert (sentence ∈ sentences_of ai_overview) as Hin
        by (rewrite Hsent; set_solver).
      destruct (sentence_free _ _ Hin) as [Hdot Hnl].
      split_and!.
      * done.
      * apply len_slice_to_le.
      * intros H%chars_slice_to%chars_strip. done.
      * intros H%chars_slice_to%chars_strip. done.
      * intros _. by exists term, sentence.
      * intros clean' Hd _. unfold search_terms in E. simpl in E.
        by rewrite Hd in E.
  - apply truthy_false in Hov.
    split_and!; [done|simpl; lia|apply not_elem_of_nil..|done|done].
Qed.

(** X17. The mention drawn from an AI overview is empty when there is no
    overview; it never has more than 150 characters and holds no full
    stop and no line break; when not empty it is a sentence of the
    overview, trimmed and cut, that contains a search term in lower case;
    a sentence naming the domain is preferred to one matching the
    title. *)
Theorem extract_mention_properties (ai_overview title domain : string) :
  let mention := _extract_mention ai_overview title domain in
  (ai_overview = "" → mention = "")
  ∧ len mention ≤ 150
  ∧ ("."%char ∉ chars mention)
  ∧ ("010"%char ∉ chars mention)
  ∧ (mention ≠ "" →
       ∃ term sentence,
         term ∈ search_terms title domain
         ∧ sentence ∈ sentences_of ai_overview
         ∧ contains (lower term) (lower sentence) = true
         ∧ mention = slice_to 150 (strip sentence))
  ∧ (∀ clean,
       first_mention (lower domain) (sentences_of ai_overview) = Some clean →
       ai_overview ≠ "" → mention = clean).
Proof. apply extract_mention_spec. Qed.

End mentions.

(** ** Fields of the normalised items *)
Section item_fields.
Import PyStr DataForSEO.

Variable urlparse_netloc : string → py string.

Lemma lower_char_idempotent (c : ascii) :
  lower_char (lower_char c) = lower_char c.
Proof. by destruct c as [[] [] [] [] [] [] [] []]. Qed.

Lemma lower_idempotent (s : string) : lower (lower s) = lower s.
Proof.
  unfold lower. rewrite chars_str. f_equal.
  induction (chars s) as [|c l IH]; [done|].
  simpl. by rewrite lower_char_idempotent, IH.
Qed.

Lemma lower_slice_from (n : nat) (s : string) :
  lower (slice_from n s) = slice_from n (lower s).
Proof.
  unfold lower, slice_from. rewrite !chars_str. f_equal.
  revert n. induction (chars s) as [|c l IH]; intros [|n]; simpl; done.
Qed.

Lemma without_www_lower (nl : string) :
  lower (without_www (lower nl)) = without_www (lower nl).
Proof.
  unfold without_www. destruct (startswith (lower nl) "www.").
  - by rewrite lower_slice_from, lower_idempotent.
  - apply lower_idempotent.
Qed.

Lemma normalize_ref_fields ov i ref item :
  normalize_ref urlparse_netloc ov i ref = Some item →
  title item = slice_to 200 (strip (or_empty (ref_title ref)))
  ∧ snippet item
    = slice_to 500 (strip (match ref_text ref with
                           | Some t => t
                           | None => or_empty (ref_snippet ref)
                           end))
  ∧ why_relevant item
    = _extract_mention ov (strip (or_empty (ref_title ref)))
        (source_domain item)
  ∧ date item = None
  ∧ date_confidence item = "low"
  ∧ source_domain item
    = match urlparse_netloc (url item) with
      | Ret netloc => without_www (lower netloc)
      | Raise => or_empty (ref_domain ref)
      end.
Proof.
  unfold normalize_ref, resolve_domain, without_www.
  destruct (truthy (or_empty (ref_url ref))); [|done]. simpl.
  destruct (urlparse_netloc (or_empty (ref_url ref))) as [netloc|] eqn:E.
  - case_bool_decide; [done|].
    destruct (startswith (lower netloc) "www.") eqn:Hw;
      (destruct (negb _ && negb _); [done|]);
      intros [= <-]; simpl; by rewrite E, Hw.
  - destruct (negb _ && negb _); [done|].
    intros [= <-]; simpl; by rewrite E.
Qed.

(** X18. Every item the normaliser emits has a title of at most 200
    characters, a snippet of at most 500 and a reason of at most 150;
    it carries no date and the low date confidence. *)
Theorem normalized_item_bounds (response : Response)
    (from_date to_date : string) :
  Forall (λ item,
            len (title item) ≤ 200
            ∧ len (snippet item) ≤ 500
            ∧ len (why_relevant item) ≤ 150
            ∧ date item = None
            ∧ date_confidence item = "low")
    (_normalize_results urlparse_netloc response from_date to_date).1.
Proof.
  apply normalize_results_Forall. intros ov i ref item Hitem.
  apply normalize_ref_fields in Hitem
    as (-> & -> & -> & Hdate & Hconf & _).
  split_and!; [apply len_slice_to_le..| |done|done].
  apply extract_mention_spec.
Qed.

(** X19. When the URL of an emitted item parses, its source domain is
    the network location in lower case without one leading "www.", and
    is itself in lower case. *)
Theorem normalized_item_domain (response : Response)
    (from_date to_date : string) :
  Forall (λ item,
            ∀ netloc, urlparse_netloc (url item) = Ret netloc →
              source_domain item = without_www (lower netloc)
              ∧ lower (source_domain item) = source_domain item)
    (_normalize_results urlparse_netloc response from_date to_date).1.
Proof.
  apply normalize_results_Forall. intros ov i ref item Hitem netloc Hparse.
  apply normalize_ref_fields in Hitem as (_ & _ & _ & _ & _ & Hdom).
  rewrite Hparse in Hdom. rewrite Hdom. split; [done|].
  apply without_www_lower.
Qed.

Lemma normalize_entry_overview_text st e :
  or_empty (entry_type e) = "ai_overview" →
  (normalize_entry urlparse_netloc st e).2
  = if truthy (entry_overview e) then entry_overview e else st.2.
Proof.
  intros He. destruct st as [its ov]. unfold normalize_entry.
  by rewrite bool_decide_eq_true_2.
Qed.

Lemma normalize_entries_overview entries : ∀ st,
  (foldl (normalize_entry urlparse_netloc) st entries).2
  = default st.2
      (last (filter (λ t, t ≠ "")
               (entry_overview <$> overview_entries entries))).
Proof.
  unfold overview_entries.
  induction entries as [|e entries IH]; intros st; [done|].
  cbn [foldl]. rewrite IH, filter_cons.
  destruct (decide (or_empty (entry_type e) = "ai_overview")) as [He|He].
  - rewrite fmap_cons, filter_cons.
    rewrite normalize_entry_overview_text by done.
    destruct (truthy (entry_overview e)) eqn:Ht.
    + apply truthy_true in Ht. rewrite decide_True by done.
      rewrite last_cons. by destruct (last _).
    + apply truthy_false in Ht. rewrite decide_False by (by intros ?).
      done.
  - by rewrite normalize_entry_other.
Qed.

(** X20. The normaliser returns no item and no overview for a response
    without tasks, with a first task whose status code is not 20000, with
    an empty result list, or whose entries hold no AI overview; tasks and
    results after the first are ignored. *)
Theorem normalize_results_nothing (from_date to_date : string) :
  (∀ response, tasks response = [] →
     _normalize_results urlparse_netloc response from_date to_date
     = ([], ""))
  ∧ (∀ response task rest, tasks response = task :: rest →
       (status_code task ≠ Some 20000%Z ∨ result task = [] →
          _normalize_results urlparse_netloc response from_date to_date
          = ([], ""))
       ∧ _normalize_results urlparse_netloc response from_date to_date
         = _normalize_results urlparse_netloc
             {| tasks :=
                  [ {| status_code := status_code task;
                       status_message := status_message task;
                       result := take 1 (result task) |} ] |}
             from_date to_date)
  ∧ (∀ response, overview_entries (response_entries response) = [] →
       _normalize_results urlparse_netloc response from_date to_date
       = ([], "")).
Proof.
  unfold _normalize_results. split_and!.
  - by intros response ->.
  - intros response task rest ->. split.
    + intros [Hcode|Hres].
      * by rewrite bool_decide_eq_false_2.
      * rewrite Hres. by case_bool_decide.
    + simpl. case_bool_decide; [|done]. by destruct (result task).
  - intros response. unfold response_entries.
    destruct (tasks response) as [|task rest]; [done|].
    case_bool_decide; [|done].
    destruct (result task) as [|res rest']; [done|].
    intros Hnone. by apply normalize_entries_no_overview.
Qed.

(** X21. For a successful first task the overview returned is that of the
    last AI-overview entry that has one, its markdown when present and its
    text otherwise; it is empty when no entry has one. *)
Theorem normalize_results_overview (response : Response)
    (from_date to_date : string) (task : Task) (rest : list Task) :
  tasks response = task :: rest →
  status_code task = Some 20000%Z →
  (_normalize_results urlparse_netloc response from_date to_date).2
  = default ""
      (last (filter (λ t, t ≠ "")
               (entry_overview
                  <$> overview_entries (response_entries response)))).
Proof.
  intros Htasks Hcode. unfold _normalize_results, response_entries.
  rewrite Htasks, bool_decide_eq_true_2 by done.
  destruct (result task) as [|res rest']; [done|].
  apply normalize_entries_overview.
Qed.

End item_fields.

(** ** [search_web] *)
Section search_web.
Import PyStr DataForSEO.

Variable urlparse_netloc : string → py string.
Variable _call_api : string → string → string → py Response.

Lemma absorb_overviews (acc : Acc) (r : list WebItem * string) :
  all_overviews (absorb acc r)
  = all_overviews acc ++ (if truthy r.2 then [r.2] else []).
Proof.
  unfold absorb, add_overview.
  destruct (dedupe_fold r.1 acc) as (_ & _ & Hov).
  destruct (truthy r.2); simpl; rewrite Hov; [done|by rewrite app_nil_r].
Qed.

Lemma run_queries_overviews from_date to_date api_login api_password
    queries : ∀ acc, ∃ acc',
  run_queries urlparse_netloc _call_api from_date to_date
    api_login api_password acc queries = Ret acc'
  ∧ all_overviews acc'
    = all_overviews acc
      ++ answered_overviews urlparse_netloc _call_api from_date to_date
           api_login api_password queries.
Proof.
  induction queries as [|query queries IH]; intros acc.
  - exists acc. split; [done|]. by rewrite app_nil_r.
  - simpl. unfold query_step, answered_overviews. cbn [omap list_omap].
    destruct (_call_api query api_login api_password) as [response|];
      simpl.
    + set (r := _normalize_results urlparse_netloc response
                  from_date to_date).
      destruct (IH (absorb acc r)) as (acc' & Hrun & Hov).
      exists acc'. split; [done|].
      rewrite Hov, absorb_overviews.
      destruct (truthy r.2); simpl; by rewrite <- app_assoc.
    + apply IH.
Qed.

Lemma answered_none from_date to_date api_login api_password queries :
  (∀ query, _call_api query api_login api_password = Raise) →
  answered_items urlparse_netloc _call_api from_date to_date
    api_login api_password queries = []
  ∧ answered_overviews urlparse_netloc _call_api from_date to_date
      api_login api_password queries = [].
Proof.
  intros Hraise. unfold answered_items, answered_overviews.
  induction queries as [|query queries [IH1 IH2]]; [done|].
  cbn [omap list_omap]. rewrite Hraise. by split.
Qed.

(** X22. [search_web] never raises, the fields of the responses being
    text or absent as the embedding has them.  Its items are taken, in
    order, from the items of the queries whose API call returned: an item
    is returned exactly when no item before it has the same canonical
    URL, so that the first of each URL wins, no canonical URL is returned
    twice and every one is returned once.  Its overview is the overviews
    of those queries, empty ones left out, joined by the separator line.
    A query whose call raises contributes nothing, and when every call
    raises the result is no item and no overview. *)
Theorem search_web_result
    (topic from_date to_date api_login api_password depth : string) :
  let queries := _build_structured_queries topic depth in
  let items_by_query :=
    answered_items urlparse_netloc _call_api from_date to_date
      api_login api_password queries in
  let overviews :=
    answered_overviews urlparse_netloc _call_api from_date to_date
      api_login api_password queries in
  let flat := concat items_by_query in
  ∃ items,
    search_web urlparse_netloc _call_api topic from_date to_date
      api_login api_password depth
    = Ret (items,
           match overviews with
           | [] => ""
           | _ => join overview_separator overviews
           end)
    ∧ items = merge_queries items_by_query
    ∧ NoDup (url_key <$> items)
    ∧ ((∀ query, _call_api query api_login api_password = Raise) →
         search_web urlparse_netloc _call_api topic from_date to_date
           api_login api_password depth
         = Ret ([], ""))
    ∧ items `sublist_of` flat
    ∧ (∀ y, y ∈ items ↔
         ∃ i, flat !! i = Some y
            ∧ ∀ j z, j < i → flat !! j = Some z →
                     ¬ same_canonical_url (url z) (url y))
    ∧ (∀ i j y z, items !! i = Some y → items !! j = Some z →
         same_canonical_url (url y) (url z) → i = j)
    ∧ (∀ a, a ∈ flat →
         ∃ y, y ∈ items ∧ same_canonical_url (url y) (url a)).
Proof.
  intros queries items_by_query overviews flat.
  assert (search_web urlparse_netloc _call_api topic from_date to_date
            api_login api_password depth
          = Ret (merge_queries items_by_query,
                 match overviews with
                 | [] => ""
                 | _ => join overview_separator overviews
                 end)) as Hresult.
  { unfold search_web. fold queries.
    destruct (run_queries_ret urlparse_netloc _call_api from_date to_date
                api_login api_password queries empty_acc)
      as (acc & Hrun & Hitems & _).
    destruct (run_queries_overviews from_date to_date api_login
                api_password queries empty_acc) as (acc' & Hrun' & Hov).
    rewrite Hrun in Hrun'. injection Hrun' as <-.
    rewrite Hrun. simpl. rewrite Hov, Hitems. simpl.
    by rewrite merge_queries_first_occurrences. }
  exists (merge_queries items_by_query).
  split_and!.
  - done.
  - done.
  - rewrite merge_queries_first_occurrences.
    apply first_occurrences_NoDup.
  - intros Hraise. rewrite Hresult.
    subst flat items_by_query overviews.
    destruct (answered_none from_date to_date api_login api_password
                queries Hraise) as [-> ->].
    done.
  - rewrite merge_queries_first_occurrences.
    apply first_occurrences_sublist.
  - apply merge_queries_elem.
  - apply merge_queries_once.
  - apply merge_queries_cover.
Qed.

End search_web.

(** ** The cleaned query, further *)
Section core_subject_shape.
Import PyStr YouTube.

Lemma split_go_chars (l : list ascii) : ∀ cur w c,
  w ∈ split_go cur l → c ∈ chars w → c ∈ cur ∨ c ∈ l.
Proof.
  induction l as [|c' l IH]; intros cur w c Hw Hc; simpl in Hw.
  - destruct cur as [|c0 cur0] eqn:E; [by apply elem_of_nil in Hw|].
    rewrite <- E in *. apply list_elem_of_singleton in Hw as ->.
    rewrite chars_str, elem_of_reverse in Hc. by left.
  - destruct (is_space c') eqn:Hsp.
    + assert (w ∈ split_go [] l ∨ (cur ≠ [] ∧ w = str (reverse cur)))
        as [Hrest|[_ ->]].
      { destruct cur as [|c0 cur0] eqn:E; [by left|].
        rewrite <- E in *. apply elem_of_cons in Hw as [->|Hw].
        - right. by rewrite E.
        - by left. }
      * destruct (IH [] w c Hrest Hc) as [Hnil|Hl];
          [by apply elem_of_nil in Hnil|].
        right. by apply list_elem_of_further.
      * rewrite chars_str, elem_of_reverse in Hc. by left.
    + destruct (IH (c' :: cur) w c Hw Hc) as [Hcur|Hl].
      * apply elem_of_cons in Hcur as [->|Hcur]; [|by left].
        right. apply list_elem_of_here.
      * right. by apply list_elem_of_further.
Qed.

Lemma split_chars (s w : string) (c : ascii) :
  w ∈ split s → c ∈ chars w → c ∈ chars s.
Proof.
  intros Hw Hc. destruct (split_go_chars _ _ _ _ Hw Hc) as [Hnil|Hs];
    [by apply elem_of_nil in Hnil|done].
Qed.

Lemma join_chars (sep : string) (ws : list string) (c : ascii) :
  c ∈ chars (join sep ws) →
  c ∈ chars sep ∨ ∃ w, w ∈ ws ∧ c ∈ chars w.
Proof.
  induction ws as [|w [|w2 ws] IH]; intros Hc.
  - by apply elem_of_nil in Hc.
  - right. exists w. split; [apply list_elem_of_here|done].
  - rewrite join_cons_cons, !chars_app, !elem_of_app in Hc.
    destruct Hc as [Hc|[Hc|Hc]].
    + right. exists w. split; [apply list_elem_of_here|done].
    + by left.
    + destruct (IH Hc) as [Hsep|(w' & Hw' & Hcw)]; [by left|].
      right. exists w'. split; [by apply list_elem_of_further|done].
Qed.

Lemma chars_rstrip_by (p : ascii → bool) (s : string) (c : ascii) :
  c ∈ chars (rstrip_by p s) → c ∈ chars s.
Proof.
  unfold rstrip_by. rewrite chars_str, elem_of_reverse.
  intros Hc%drop_while_elem. by rewrite elem_of_reverse in Hc.
Qed.

Lemma chars_slice_from (n : nat) (s : string) (c : ascii) :
  c ∈ chars (slice_from n s) → c ∈ chars s.
Proof.
  unfold slice_from. rewrite chars_str. intros Hc.
  rewrite <- (take_drop n (chars s)). apply elem_of_app. by right.
Qed.

Lemma cleaned_text_chars (topic : string) (c : ascii) :
  c ∈ chars (cleaned_text topic) → c ∈ chars (lower topic).
Proof.
  unfold cleaned_text, strip_prefixes. intros Hc.
  apply chars_strip.
  revert Hc. generalize (strip (lower topic)). generalize prefixes.
  intros pres. induction pres as [|pre pres IH]; intros text Hc; [done|].
  simpl in Hc. apply IH in Hc. unfold strip_prefix in Hc.
  destruct (startswith text (pre +:+ " ")); [|done].
  by apply chars_strip, chars_slice_from in Hc.
Qed.

Lemma extract_core_subject_chars (topic : string) (c : ascii) :
  c ∈ chars (_extract_core_subject topic) →
  c = " "%char ∨ c ∈ chars (lower topic).
Proof.
  unfold _extract_core_subject, rstrip. intros Hc%chars_rstrip_by.
  destruct (filtered_words (cleaned_text topic)) as [|w ws] eqn:E.
  - right. by apply cleaned_text_chars.
  - rewrite <- E in Hc. apply join_chars in Hc as [Hsep|(w' & Hw' & Hcw)].
    + left. by apply list_elem_of_singleton in Hsep.
    + right. apply cleaned_text_chars.
      unfold filtered_words in Hw'.
      apply list_elem_of_filter in Hw' as [_ Hw'].
      by eapply split_chars.
Qed.

Lemma lower_fixed (s : string) :
  Forall (λ c, lower_char c = c) (chars s) → lower s = s.
Proof.
  intros Hs. unfold lower. rewrite <- (str_chars s) at 2. f_equal.
  induction Hs as [|c l Hc Hl IH]; [done|]. simpl. by rewrite Hc, IH.
Qed.

Lemma lower_chars_fixed (s : string) (c : ascii) :
  c ∈ chars (lower s) → lower_char c = c.
Proof.
  unfold lower. rewrite chars_str.
  intros Hc. apply list_elem_of_In, in_map_iff in Hc as (c' & <- & _).
  apply lower_char_idempotent.
Qed.

(** X23. The cleaned query is in lower case; each of its characters is a
    space or a character of the lower-cased topic; and it does not end in
    '?', '!' or '.'. *)
Theorem extract_core_subject_shape (topic : string) :
  lower (_extract_core_subject topic) = _extract_core_subject topic
  ∧ (∀ c, c ∈ chars (_extract_core_subject topic) →
       c = " "%char ∨ c ∈ chars (lower topic))
  ∧ (∀ c, last (chars (_extract_core_subject topic)) = Some c →
       c ∉ chars "?!.").
Proof.
  split_and!.
  - apply lower_fixed, Forall_forall. intros c Hc.
    apply extract_core_subject_chars in Hc as [->|Hc]; [done|].
    by eapply lower_chars_fixed.
  - apply extract_core_subject_chars.
  - unfold _extract_core_subject, rstrip, rstrip_by. intros c.
    rewrite chars_str, last_reverse. intros Hhead Hin.
    destruct (drop_while _ _) as [|c' l'] eqn:E; [done|].
    injection Hhead as ->.
    apply drop_while_head in E. unfold mem_char in E.
    by apply bool_decide_eq_false_1 in E.
Qed.

End core_subject_shape.

(** ** The coordinator on repeated keys *)
Section repeated_keys.
Import Futures.

(** After the loop over the completed futures, the entry of a key is
    what the last completed future of that key settled to. *)
Lemma record_all_last (completed : list future)
    (results : gmap string (option string)) (k : string) :
  foldl (λ m f, <[f.1 := settle f.2]> m) results completed !! k
  = match last (filter (λ f, f.1 = k) completed) with
    | Some f => Some (settle f.2)
    | None => results !! k
    end.
Proof.
  induction completed as [|f completed IH] using rev_ind; [done|].
  rewrite foldl_snoc, filter_app, filter_cons, filter_nil.
  destruct (decide (f.1 = k)) as [<-|Hne].
  - by rewrite last_snoc, lookup_insert_eq.
  - rewrite app_nil_r, lookup_insert_ne by done. exact IH.
Qed.

Lemma keys_of_submitted (run : nat → string → py (option string))
    (keys : list string) :
  (imap (λ i vid, (vid, run i vid)) keys).*1 = keys.
Proof.
  revert run. induction keys as [|k keys IH]; intros run; [done|].
  simpl. f_equal. apply (IH (λ i, run (S i))).
Qed.

Lemma submitted_same (run : nat → string → py (option string))
    (fetch : string → py (option string)) (keys : list string) :
  (∀ i vid, run i vid = fetch vid) →
  imap (λ i vid, (vid, run i vid)) keys = (λ vid, (vid, fetch vid)) <$> keys.
Proof.
  revert run. induction keys as [|k keys IH]; intros run Hsame; [done|].
  simpl. rewrite Hsame. f_equal.
  apply (IH (λ i, run (S i))). intros i vid. apply Hsame.
Qed.

(** X24. A video id listed more than once is fetched once for each
    place it has in the list, and the fetches may end differently.  The
    coordinator still returns, without raising, a mapping with one entry
    for each different id: the entry of an id is what the fetch of that
    id that completed last returned, null when it raised.  It is the
    outcome of one of the fetches submitted for that id, and the outcome
    of them all when they agree, as they do when every id is listed
    once. *)
Theorem parallel_fetch_repeated_keys
    (run : nat → string → py (option string))
    (as_completed : list future → list future) (keys : list string) :
  (∀ l, as_completed l ≡ₚ l) →
  let futures := imap (λ i vid, (vid, run i vid)) keys in
  ∃ m, YouTube.fetch_transcripts_parallel_submitted run as_completed keys
       = Ret m
     ∧ dom m = list_to_set keys
     ∧ size m = length (remove_dups keys)
     ∧ (∀ k, m !! k
             = (λ f, settle f.2)
               <$> last (filter (λ f, f.1 = k) (as_completed futures)))
     ∧ (∀ k, k ∈ keys →
          ∃ i, keys !! i = Some k ∧ m !! k = Some (settle (run i k)))
     ∧ (∀ k outcome, k ∈ keys →
          (∀ i, keys !! i = Some k → run i k = outcome) →
          m !! k = Some (settle outcome))
     ∧ (∀ fetch, (∀ i vid, run i vid = fetch vid) →
          YouTube.fetch_transcripts_parallel fetch as_completed keys
          = Ret m).
Proof.
  intros Hperm futures.
  set (m := foldl (λ m f, <[f.1 := settle f.2]> m) ∅
              (as_completed futures) : gmap string (option string)).
  assert (∀ k, m !! k
               = (λ f, settle f.2)
                 <$> last (filter (λ f, f.1 = k) (as_completed futures)))
    as Hlast.
  { intros k. unfold m. rewrite record_all_last.
    by destruct (last _). }
  assert (∀ f, f ∈ as_completed futures ↔
               ∃ i, keys !! i = Some f.1 ∧ f.2 = run i f.1) as Hfut.
  { intros f. rewrite (Hperm futures). unfold futures.
    rewrite elem_of_lookup_imap. split.
    - intros (i & vid & -> & Hi). by exists i.
    - intros (i & Hi & Hf). exists i, f.1. split; [|done].
      destruct f as [vid outcome]. simpl in *. by rewrite Hf. }
  assert (∀ k, k ∈ keys →
            ∃ i, keys !! i = Some k ∧ m !! k = Some (settle (run i k)))
    as Hin.
  { intros k Hk. rewrite Hlast.
    destruct (last (filter (λ f, f.1 = k) (as_completed futures)))
      as [f|] eqn:Hf.
    - apply last_Some_elem_of, list_elem_of_filter in Hf as [<- Hf].
      apply Hfut in Hf as (i & Hi & Hout). exists i.
      split; [done|]. simpl. by rewrite Hout.
    - exfalso. apply last_None in Hf.
      apply list_elem_of_lookup_1 in Hk as [i Hi].
      assert (∀ l : list future, l = [] → (k, run i k) ∉ l) as Hnil
        by (intros l ->; apply not_elem_of_nil).
      apply (Hnil _ Hf).
      apply list_elem_of_filter. split; [done|].
      apply Hfut. by exists i. }
  assert (∀ k, k ∉ keys → m !! k = None) as Hout.
  { intros k Hk. rewrite Hlast.
    destruct (last (filter (λ f, f.1 = k) (as_completed futures)))
      as [f|] eqn:Hf; [|done].
    apply last_Some_elem_of, list_elem_of_filter in Hf as [<- Hf].
    apply Hfut in Hf as (i & Hi & _).
    exfalso. apply Hk. by eapply list_elem_of_lookup_2. }
  assert (dom m = list_to_set keys) as Hdom.
  { apply set_eq. intros k. rewrite elem_of_dom, elem_of_list_to_set.
    destruct (decide (k ∈ keys)) as [Hk|Hk].
    - destruct (Hin k Hk) as (i & _ & ->). by split.
    - rewrite (Hout k Hk). split; [by intros [? ?]|done]. }
  assert (YouTube.fetch_transcripts_parallel_submitted run as_completed keys
          = Ret m) as Hm.
  { unfold YouTube.fetch_transcripts_parallel_submitted.
    destruct keys as [|k keys']; [|apply collect_ret].
    f_equal. apply map_eq. intros k. rewrite lookup_empty.
    symmetry. apply Hout, not_elem_of_nil. }
  exists m. split_and!; [done|done| |done|done| |].
  - rewrite <- size_dom, Hdom.
    assert (list_to_set keys =@{gset string} list_to_set (remove_dups keys))
      as ->.
    { apply set_eq. intros k.
      by rewrite !elem_of_list_to_set, elem_of_remove_dups. }
    apply size_list_to_set, NoDup_remove_dups.
  - intros k outcome Hk Hsame.
    destruct (Hin k Hk) as (i & Hi & ->). by rewrite (Hsame i Hi).
  - intros fetch Hfetch. rewrite <- Hm.
    unfold YouTube.fetch_transcripts_parallel,
      YouTube.fetch_transcripts_parallel_submitted.
    destruct keys as [|k keys']; [done|].
    by rewrite (submitted_same run fetch _ Hfetch).
Qed.

End repeated_keys.

(** ** The whole video search *)
Section search_and_transcribe.
Import PyStr Futures YouTube.

Variable search :
  string → string → string → SearchRequest → py SearchPage.
Variable videos : string → list string → py (list (py VideoStat)).
Variable fetch : string → py (option string).
Variable as_completed : list future → list future.

Lemma search_youtube_returns
    (topic from_date to_date depth api_key : string) :
  is_Some (search_youtube search videos topic from_date to_date depth api_key).
Proof.
  destruct (decide (api_key = "")) as [->|Hkey]; [done|].
  pose proof (search_youtube_unfold search videos topic from_date to_date
                depth api_key Hkey) as H.
  simpl in H.
  destruct (search _ _ _ _) as [data|].
  - destruct H as (snippets & ->). done.
  - by rewrite H.
Qed.

(** X25. [search_and_transcribe] always returns and never raises, even
    when transcript fetches raise.  Its items are those of
    [search_youtube], in the same order, and [parse_youtube_response] hands
    them on; a transcript snippet that is not empty is what the fetch of
    that video returned; a result without items carries the error of the
    search, and without an API key that is the key error. *)
Theorem search_and_transcribe_returns
    (topic from_date to_date depth api_key : string) :
  (∀ l, as_completed l ≡ₚ l) →
  ∃ found res,
    search_youtube search videos topic from_date to_date depth api_key
    = Some found
    ∧ search_and_transcribe search videos fetch as_completed
        topic from_date to_date depth api_key
      = Some (Ret res)
    ∧ (parse_youtube_response res).*1 = result_items found
    ∧ Forall (λ it, it.2 ≠ "" → fetch (video_id it.1) = Ret (Some it.2))
        (parse_youtube_response res)
    ∧ (result_items found = [] →
         res = {| transcribed_items := [];
                  transcribed_error := result_error found |})
    ∧ (api_key = "" →
         res = {| transcribed_items := [];
                  transcribed_error := Some KeyNotSet |}).
Proof.
  intros Hperm.
  destruct (search_youtube_returns topic from_date to_date depth api_key)
    as [found Hfound].
  destruct (attach_transcripts_cases fetch as_completed depth found Hperm)
    as (res & Hres & Hitems & _ & Hsnippets & Herror).
  exists found, res. unfold search_and_transcribe.
  rewrite Hfound. cbn [fmap option_fmap option_map]. rewrite Hres.
  assert (result_items found = [] →
          res = {| transcribed_items := [];
                   transcribed_error := result_error found |}) as Hnone.
  { intros E. unfold attach_transcripts in Hres. rewrite E in Hres.
    congruence. }
  split_and!; [done|done|exact Hitems| |exact Hnone|].
  - unfold parse_youtube_response.
    eapply Forall_impl; [exact Hsnippets|].
    intros [item text]. cbn [fst snd]. intros -> Hne.
    case_decide; [|done].
    destruct (fetch (video_id item)) as [[t|]|]; simpl in *; done.
  - intros ->. cbn in Hfound.
    assert (found = {| result_items := [];
                       result_error := Some KeyNotSet |}) as ->
      by congruence.
    by apply Hnone.
Qed.

End search_and_transcribe.

(** ** The further properties on sample inputs *)

Lemma search_phase_bounded_witness :
  ∃ st, YouTube.search_phase (Samples.paged_search "q" "d" "k") 120
        = Some (Ret st)
      ∧ Forall (λ q, 1 ≤ YouTube.req_maxResults q ≤ 50) (YouTube.requests st)
      ∧ sum_list (YouTube.req_maxResults <$> YouTube.requests st) ≤ 120.
Proof.
  destruct (search_phase_bounded (Samples.paged_search "q" "d" "k") 120)
    as (r & Hr & Hst).
  destruct r as [st|].
  - exists st. split; [exact Hr|].
    destruct (Hst st eq_refl) as (Hall & Hsum & _).
    split; [exact Hall|exact Hsum].
  - vm_compute in Hr. discriminate Hr.
Defined.

Example search_phase_sample :
  YouTube.requests
    <$> (YouTube.search_phase (Samples.paged_search "q" "d" "k") 120
         ≫= λ r, match r with Ret st => Some st | Raise => None end)
  = Some [ {| YouTube.req_maxResults := 50; YouTube.req_pageToken := None |};
           {| YouTube.req_maxResults := 50;
              YouTube.req_pageToken := Some "next" |};
           {| YouTube.req_maxResults := 20;
              YouTube.req_pageToken := Some "next" |} ].
Proof. reflexivity. Qed.

Lemma search_youtube_failures_witness :
  YouTube.search_youtube Samples.paged_search Samples.some_videos
    "best bikes" "2025-01-01" "2025-01-31" "quick" ""
  = Some {| YouTube.result_items := [];
            YouTube.result_error := Some YouTube.KeyNotSet |}.
Proof.
  exact (proj1 (proj2 (search_youtube_failures Samples.paged_search
                         Samples.some_videos "best bikes" "2025-01-01"
                         "2025-01-31" "quick" ""))
           eq_refl).
Defined.

Lemma search_youtube_items_witness :
  "key" ≠ ""
  ∧ ∃ res,
      YouTube.search_youtube Samples.paged_search Samples.some_videos
        "best bikes" "2025-01-01" "2025-01-31" "quick" "key" = Some res
      ∧ YouTube.result_error res = None
      ∧ StronglySorted
          (λ a b, (YouTube.views (YouTube.engagement b)
                   ≤ YouTube.views (YouTube.engagement a))%Z)
          (YouTube.result_items res).
Proof.
  assert ("key" ≠ "") as Hkey by discriminate.
  split; [exact Hkey|].
  destruct (search_youtube_items Samples.paged_search Samples.some_videos
              "best bikes" "2025-01-01" "2025-01-31" "quick" "key"
              _ Hkey eq_refl)
    as (res & Hres & Herr & Hsorted & _).
  - vm_compute. discriminate.
  - exists res. split_and!; [exact Hres|exact Herr|exact Hsorted].
Defined.

Example search_youtube_sample :
  (λ res, (λ item, (YouTube.video_id item,
                    YouTube.views (YouTube.engagement item),
                    YouTube.date item))
          <$> YouTube.result_items res)
  <$> YouTube.search_youtube Samples.paged_search Samples.some_videos
        "best bikes" "2025-01-01" "2025-01-31" "quick" "key"
  = Some [ ("v3", 9%Z, Some "2025-01-20"); ("v2", 7%Z, Some "2024-11-02");
           ("v1", 0%Z, Some "2025-01-10") ].
Proof. reflexivity. Qed.

Lemma search_youtube_without_statistics_witness :
  "key" ≠ ""
  ∧ (∀ batch, Samples.failing_videos "key" batch = Raise)
  ∧ ∃ res,
      YouTube.search_youtube Samples.paged_search Samples.failing_videos
        "best bikes" "2025-01-01" "2025-01-31" "quick" "key" = Some res
      ∧ Forall (λ item,
                  YouTube.engagement item
                  = {| YouTube.views := 0; YouTube.likes := 0;
                       YouTube.comments := 0 |})
          (YouTube.result_items res).
Proof.
  assert ("key" ≠ "") as Hkey by discriminate.
  assert (∀ batch, Samples.failing_videos "key" batch = Raise) as Hraise
    by reflexivity.
  split_and!; [exact Hkey|exact Hraise|].
  destruct (search_youtube_without_statistics Samples.paged_search
              Samples.failing_videos "best bikes" "2025-01-01"
              "2025-01-31" "quick" "key" Hkey Hraise)
    as (res & Hres & Hzero & _).
  exists res. split; [exact Hres|exact Hzero].
Defined.

Lemma clean_transcript_words_witness :
  ∃ t, YouTube.clean_transcript "  one   two  " = Some t
     ∧ t ≠ "" ∧ t = PyStr.join " " (PyStr.split t).
Proof.
  exists "one two".
  assert (YouTube.clean_transcript "  one   two  " = Some "one two") as E
    by reflexivity.
  split; [exact E|].
  destruct (proj2 (clean_transcript_words "  one   two  ") "one two" E)
    as (Hne & Hnorm & _).
  split; [exact Hne|exact Hnorm].
Defined.

Lemma youtube_fetch_transcript_outcomes_witness :
  YouTube.fetch_transcript true Samples.other_language_only "v1"
  = Ret (YouTube.clean_transcript
           (PyStr.join " " ["  hello "; "world" +:+ String "010" " again"])).
Proof.
  destruct (youtube_fetch_transcript_outcomes true
              Samples.other_language_only "v1")
    as (_ & _ & _ & Hfound & _).
  exact (Hfound eq_refl
           ["  hello "; "world" +:+ String "010" " again"] eq_refl).
Defined.

Example youtube_fetch_transcript_sample :
  YouTube.fetch_transcript true Samples.other_language_only "v1"
  = Ret (Some "hello world again")
  ∧ YouTube.fetch_transcript false Samples.other_language_only "v1"
    = Ret None
  ∧ YouTube.fetch_transcript true (λ _ _, Ret [Ret "a"; Raise]) "v1"
    = Raise
  ∧ YouTube.fetch_transcript true (λ _ _, Ret [Ret "  "]) "v1" = Ret None.
Proof. split_and!; reflexivity. Qed.

Lemma attach_transcripts_spec_witness :
  (∀ l : list Futures.future, reverse l ≡ₚ l)
  ∧ ∃ res,
      YouTube.attach_transcripts Samples.mixed_fetch reverse "quick"
        {| YouTube.result_items := Samples.videos;
           YouTube.result_error := None |} = Ret res
      ∧ (YouTube.transcribed_items res).*1 = Samples.videos.
Proof.
  assert (∀ l : list Futures.future, reverse l ≡ₚ l) as Hperm
    by (intros l; apply reverse_Permutation).
  split; [exact Hperm|].
  destruct (attach_transcripts_spec Samples.mixed_fetch reverse "quick"
              {| YouTube.result_items := Samples.videos;
                 YouTube.result_error := None |} Hperm)
    as (res & Hres & Hitems & _).
  exists res. split; [exact Hres|exact Hitems].
Defined.

Example attach_transcripts_sample :
  (λ res, (λ it, (YouTube.video_id it.1, it.2))
          <$> YouTube.transcribed_items res)
  <$> match YouTube.attach_transcripts Samples.mixed_fetch reverse "quick"
              {| YouTube.result_items := Samples.videos;
                 YouTube.result_error := None |} with
      | Ret res => Some res
      | Raise => None
      end
  = Some [("a", "transcript"); ("b", ""); ("c", ""); ("d", ""); ("e", "")].
Proof. reflexivity. Qed.

Lemma extract_mention_properties_witness :
  DataForSEO._extract_mention
    "E-bikes are hot. BikeRadar tests them. Bye" "Best bikes"
    "bikeradar" ≠ ""
  ∧ ∃ term sentence,
      term ∈ DataForSEO.search_terms "Best bikes" "bikeradar"
      ∧ sentence
        ∈ sentences_of "E-bikes are hot. BikeRadar tests them. Bye"
      ∧ PyStr.contains (PyStr.lower term) (PyStr.lower sentence) = true
      ∧ DataForSEO._extract_mention
          "E-bikes are hot. BikeRadar tests them. Bye" "Best bikes"
          "bikeradar"
        = PyStr.slice_to 150 (PyStr.strip sentence).
Proof.
  assert (DataForSEO._extract_mention
            "E-bikes are hot. BikeRadar tests them. Bye" "Best bikes"
            "bikeradar" ≠ "") as Hne by (vm_compute; discriminate).
  split; [exact Hne|].
  destruct (extract_mention_properties
              "E-bikes are hot. BikeRadar tests them. Bye" "Best bikes"
              "bikeradar") as (_ & _ & _ & _ & Hsome & _).
  exact (Hsome Hne).
Defined.

Example extract_mention_samples :
  DataForSEO._extract_mention
    "E-bikes are hot. BikeRadar recommends checking motor wattage. Bye"
    "BikeRadar recommends" "bikeradar.com"
  = "BikeRadar recommends checking motor wattage"
  ∧ DataForSEO._extract_mention
      "E-bikes are hot. BikeRadar recommends checking motor wattage. Bye"
      "Buying guide" "bikeradar.com"
    = ""
  ∧ DataForSEO._extract_mention
      "E-bikes are hot. BikeRadar recommends checking motor wattage. Bye"
      "Buying guide" ""
    = "E-bikes are hot".
Proof. split_and!; reflexivity. Qed.

Lemma normalized_item_domain_witness :
  let response :=
    Samples.overview_response
      [Samples.titled_ref "https://www.Example.com/a"] in
  let item := Samples.web_item "https://www.Example.com/a" "Guide" in
  item ∈ (DataForSEO._normalize_results DataForSEO.netloc_of_url response
            "2025-01-01" "2025-01-31").1
  ∧ DataForSEO.netloc_of_url (DataForSEO.url item) = Ret "www.Example.com"
  ∧ DataForSEO.source_domain item
    = without_www (PyStr.lower "www.Example.com").
Proof.
  intros response item.
  assert (item ∈ (DataForSEO._normalize_results DataForSEO.netloc_of_url
                    response "2025-01-01" "2025-01-31").1) as Hin
    by (vm_compute; apply list_elem_of_here).
  assert (DataForSEO.netloc_of_url (DataForSEO.url item)
          = Ret "www.Example.com") as Hparse by reflexivity.
  split_and!; [exact Hin|exact Hparse|].
  pose proof (normalized_item_domain DataForSEO.netloc_of_url response
                "2025-01-01" "2025-01-31") as Hall.
  rewrite Forall_forall in Hall.
  exact (proj1 (Hall item Hin "www.Example.com" Hparse)).
Defined.

Lemma normalize_results_nothing_witness :
  DataForSEO._normalize_results DataForSEO.netloc_of_url
    Samples.rejected_response "2025-01-01" "2025-01-31"
  = ([], "").
Proof.
  destruct (normalize_results_nothing DataForSEO.netloc_of_url
              "2025-01-01" "2025-01-31") as (_ & Htask & _).
  destruct (Htask Samples.rejected_response _ [] eq_refl) as [Hnone _].
  apply Hnone. left. discriminate.
Defined.

Lemma normalize_results_overview_witness :
  (DataForSEO._normalize_results DataForSEO.netloc_of_url
     (Samples.overview_response []) "2025-01-01" "2025-01-31").2
  = default ""
      (last (filter (λ t, t ≠ "")
               (entry_overview
                  <$> overview_entries
                        (response_entries (Samples.overview_response []))))).
Proof.
  exact (normalize_results_overview DataForSEO.netloc_of_url
           (Samples.overview_response []) "2025-01-01" "2025-01-31"
           _ [] eq_refl eq_refl).
Defined.

Lemma search_web_result_witness :
  (∀ query, (λ _ _ _ : string, @Raise DataForSEO.Response) query "l" "p"
            = Raise)
  ∧ DataForSEO.search_web DataForSEO.netloc_of_url (λ _ _ _, Raise)
      "bikes" "2025-01-01" "2025-01-31" "l" "p" "deep"
    = Ret ([], "")
  ∧ ∃ items overview,
      DataForSEO.search_web DataForSEO.netloc_of_url Samples.variant_api
        "bikes" "2025-01-01" "2025-01-31" "l" "p" "deep"
      = Ret (items, overview)
      ∧ Samples.site_item "https://site.example/b" ∈ items
      ∧ ∃ y, y ∈ items
           ∧ same_canonical_url (DataForSEO.url y)
               (DataForSEO.url (Samples.site_item "https://site.example/a")).
Proof.
  assert (∀ query, (λ _ _ _ : string, @Raise DataForSEO.Response)
                     query "l" "p" = Raise) as Hraise by reflexivity.
  split; [exact Hraise|]. split.
  { destruct (search_web_result DataForSEO.netloc_of_url
                (λ _ _ _, Raise) "bikes" "2025-01-01"
                "2025-01-31" "l" "p" "deep")
      as (items & _ & _ & _ & Hnone & _).
    exact (Hnone Hraise). }
  destruct (search_web_result DataForSEO.netloc_of_url Samples.variant_api
              "bikes" "2025-01-01" "2025-01-31" "l" "p" "deep")
    as (items & Hresult & _ & _ & _ & _ & Helem & _ & Hcover).
  exists items. eexists. split; [exact Hresult|]. split.
  - apply Helem. exists 1. split; [reflexivity|].
    intros j z Hj Hz E%same_canonical_rstrip.
    destruct j as [|j]; [|lia].
    injection Hz as <-. by vm_compute in E.
  - apply Hcover.
    do 2 apply list_elem_of_further. apply list_elem_of_here.
Defined.

Example search_web_variants :
  DataForSEO.search_web DataForSEO.netloc_of_url Samples.variant_api
    "bikes" "2025-01-01" "2025-01-31" "l" "p" "deep"
  = Ret ([ Samples.site_item "https://Site.example/A/";
           Samples.site_item "https://site.example/b" ],
         PyStr.join DataForSEO.overview_separator
           ["Overview."; "Overview."; "Overview."]).
Proof. reflexivity. Qed.

Example search_web_sample :
  DataForSEO.search_web DataForSEO.netloc_of_url Samples.one_ref_api
    "bikes" "2025-01-01" "2025-01-31" "l" "p" "quick"
  = Ret ([ {| DataForSEO.id := "D1"; DataForSEO.title := "Guide";
              DataForSEO.url := "https://site.example/Wha";
              DataForSEO.source_domain := "site.example";
              DataForSEO.snippet := ""; DataForSEO.date := None;
              DataForSEO.date_confidence := "low";
              DataForSEO.relevance := (3 # 4)%Q;
              DataForSEO.why_relevant := "" |} ],
         "Overview.").
Proof. reflexivity. Qed.

Lemma extract_core_subject_shape_witness :
  last (PyStr.chars (YouTube._extract_core_subject "What is the best E-Bike?!"))
  = Some "e"%char
  ∧ "e"%char ∉ PyStr.chars "?!.".
Proof.
  assert (last (PyStr.chars
                  (YouTube._extract_core_subject "What is the best E-Bike?!"))
          = Some "e"%char) as Hlast by reflexivity.
  split; [exact Hlast|].
  exact (proj2 (proj2 (extract_core_subject_shape
                         "What is the best E-Bike?!")) _ Hlast).
Defined.

Lemma parallel_fetch_repeated_keys_witness :
  (∀ l : list Futures.future, reverse l ≡ₚ l)
  ∧ "a" ∈ ["a"; "b"; "a"]
  ∧ ∃ m, YouTube.fetch_transcripts_parallel_submitted
           Samples.first_run_only reverse ["a"; "b"; "a"] = Ret m
       ∧ size m = 2
       ∧ ∃ i, ["a"; "b"; "a"] !! i = Some "a"
            ∧ m !! "a" = Some (settle (Samples.first_run_only i "a")).
Proof.
  assert (∀ l : list Futures.future, reverse l ≡ₚ l) as Hperm
    by (intros l; apply reverse_Permutation).
  assert ("a" ∈ ["a"; "b"; "a"]) as Hin by apply list_elem_of_here.
  split; [exact Hperm|]. split; [exact Hin|].
  destruct (parallel_fetch_repeated_keys Samples.first_run_only reverse
              ["a"; "b"; "a"] Hperm)
    as (m & Hm & _ & Hsize & _ & Hone & _).
  exists m. split_and!; [exact Hm|exact Hsize|exact (Hone "a" Hin)].
Defined.

(** The entry of an id listed twice depends on which of its two fetches
    completes last. *)
Example parallel_fetch_last_completed :
  YouTube.fetch_transcripts_parallel_submitted Samples.first_run_only
    (λ l, l) ["a"; "a"]
  = Ret {[ "a" := None ]}
  ∧ YouTube.fetch_transcripts_parallel_submitted Samples.first_run_only
      reverse ["a"; "a"]
    = Ret {[ "a" := Some "transcript" ]}.
Proof.
  split; unfold YouTube.fetch_transcripts_parallel_submitted;
    rewrite collect_ret; f_equal; apply map_eq; intros k;
    destruct (decide (k = "a")) as [->|Hne]; by simplify_map_eq.
Qed.

Lemma search_and_transcribe_returns_witness :
  (∀ l : list Futures.future, reverse l ≡ₚ l)
  ∧ ∃ res,
      YouTube.search_and_transcribe Samples.paged_search Samples.some_videos
        Samples.v3_fetch reverse
        "best bikes" "2025-01-01" "2025-01-31" "quick" "key"
      = Some (Ret res)
      ∧ Forall (λ it, it.2 ≠ "" →
                  Samples.v3_fetch (YouTube.video_id it.1)
                  = Ret (Some it.2))
          (YouTube.parse_youtube_response res).
Proof.
  assert (∀ l : list Futures.future, reverse l ≡ₚ l) as Hperm
    by (intros l; apply reverse_Permutation).
  split; [exact Hperm|].
  destruct (search_and_transcribe_returns Samples.paged_search
              Samples.some_videos Samples.v3_fetch reverse
              "best bikes" "2025-01-01" "2025-01-31" "quick" "key" Hperm)
    as (found & res & _ & Hres & _ & Hsnippets & _).
  exists res. split; [exact Hres|exact Hsnippets].
Defined.

Example search_and_transcribe_sample :
  (λ r, match r with
        | Ret res =>
            (λ it, (YouTube.video_id it.1, it.2))
            <$> YouTube.parse_youtube_response res
        | Raise => []
        end)
  <$> YouTube.search_and_transcribe Samples.paged_search Samples.some_videos
        Samples.v3_fetch reverse
        "best bikes" "2025-01-01" "2025-01-31" "quick" "key"
  = Some [("v3", "spoken words"); ("v2", ""); ("v1", "")].
Proof. reflexivity. Qed.
